(** * The meriyah scanner dispatcher and regular-expression scanner

    A shallow embedding of [src/scanner/common.ts], [src/scanner/scan.ts] and
    [src/scanner/regexp.ts].  The parser state is a record threaded through
    every operation; JavaScript numbers that the scanner handles are either
    integers or [NaN]; the modules that the three files import but that are
    not part of the embedded sources are gathered in the class [Externals]. *)

From Stdlib Require Import ZArith List Bool Lia.
Import ListNotations.
Local Open Scope Z_scope.

(** ** JavaScript numbers seen by the scanner *)

(** [String.prototype.charCodeAt] answers a code unit or [NaN]; every number
    the scanner computes with is one of those or the result of an integer
    operation on them. *)
Inductive num : Type :=
| NaN
| Num (z : Z).

(** ToInt32 and ToUint32 on integers, with the wrap-around written out. *)
Definition int32 (z : Z) : Z := (z + 2 ^ 31) mod 2 ^ 32 - 2 ^ 31.
Definition uint32 (z : Z) : Z := z mod 2 ^ 32.

Definition toInt32 (n : num) : Z :=
  match n with NaN => 0 | Num z => int32 z end.
Definition toUint32 (n : num) : Z :=
  match n with NaN => 0 | Num z => uint32 z end.

(** Comparisons of a number with an integer; every comparison with [NaN] is
    false, and [!==] is the negation of [===]. *)
Definition js_eq (a : num) (b : Z) : bool :=
  match a with NaN => false | Num z => z =? b end.
Definition js_ne (a : num) (b : Z) : bool := negb (js_eq a b).
Definition js_le (a : num) (b : Z) : bool :=
  match a with NaN => false | Num z => z <=? b end.
Definition js_ge (a : num) (b : Z) : bool :=
  match a with NaN => false | Num z => b <=? z end.

(** [a & b], [a ^ b] and [a | 0] for a 32-bit constant [b]. *)
Definition js_and (a : num) (b : Z) : Z := Z.land (toInt32 a) b.
Definition js_xor (a : num) (b : Z) : Z := Z.lxor (toInt32 a) b.
Definition js_or0 (a : num) : Z := toInt32 a.

(** [s.charCodeAt(i)]: the unit at [i], [NaN] outside [0 .. s.length - 1]. *)
Definition charCodeAt (s : list Z) (i : Z) : num :=
  if (0 <=? i) && (i <? Z.of_nat (length s))
  then Num (nth (Z.to_nat i) s 0)
  else NaN.

(** [s.slice(a, b)]: negative bounds count from the end, both are clamped. *)
Definition slice (s : list Z) (a b : Z) : list Z :=
  let len := Z.of_nat (length s) in
  let from := if a <? 0 then Z.max (len + a) 0 else Z.min a len in
  let to := if b <? 0 then Z.max (len + b) 0 else Z.min b len in
  firstn (Z.to_nat (to - from)) (skipn (Z.to_nat from) s).

(** [String.fromCharCode(n)]: the string of the one unit [n] modulo 2^16. *)
Definition fromCharCode (n : Z) : list Z := [n mod 2 ^ 16].

(** ** Character constants *)

Module Chars.
(** Modelled from the spec: [chars.ts] is not among the embedded sources; each
    constant is the code point that its name denotes. *)
Definition LineFeed : Z := 0x0A.
Definition CarriageReturn : Z := 0x0D.
Definition Exclamation : Z := 0x21.
Definition Ampersand : Z := 0x26.
Definition Asterisk : Z := 0x2A.
Definition Plus : Z := 0x2B.
Definition Hyphen : Z := 0x2D.
Definition Period : Z := 0x2E.
Definition Slash : Z := 0x2F.
Definition Zero : Z := 0x30.
Definition Nine : Z := 0x39.
Definition LessThan : Z := 0x3C.
Definition EqualSign : Z := 0x3D.
Definition GreaterThan : Z := 0x3E.
Definition QuestionMark : Z := 0x3F.
Definition UpperA : Z := 0x41.
Definition LeftBracket : Z := 0x5B.
Definition Backslash : Z := 0x5C.
Definition RightBracket : Z := 0x5D.
Definition LowerG : Z := 0x67.
Definition LowerI : Z := 0x69.
Definition LowerM : Z := 0x6D.
Definition LowerS : Z := 0x73.
Definition LowerU : Z := 0x75.
Definition LowerY : Z := 0x79.
Definition VerticalBar : Z := 0x7C.
Definition NextLine : Z := 0x85.
Definition NonBreakingSpace : Z := 0xA0.
Definition Ogham : Z := 0x1680.
Definition EnQuad : Z := 0x2000.
Definition ZeroWidthSpace : Z := 0x200B.
Definition LineSeparator : Z := 0x2028.
Definition ParagraphSeparator : Z := 0x2029.
Definition NarrowNoBreakSpace : Z := 0x202F.
Definition MathematicalSpace : Z := 0x205F.
Definition IdeographicSpace : Z := 0x3000.
Definition ZeroWidthNoBreakSpace : Z := 0xFEFF.
Definition ByteOrderMark : Z := 0xFEFF.
End Chars.

(** ** Token kinds and error kinds *)

Module Token.
(** Modelled from the spec: [token.ts] is not among the embedded sources; the
    kinds are the ones [scan.ts] and [regexp.ts] name, as an enumeration
    (their integer encoding is not read by the scanner). *)
Inductive t : Type :=
  | EndOfSource | Error
  | Identifier | IdentifierOrKeyword | StringLiteral | NumericLiteral
  | LeadingZero | UnicodeEscapeIdStart | TemplateTail | RegularExpression
  | PrivateField | WhiteSpace | LineFeed | CarriageReturn
  | RightBrace | LeftBrace | Comma | Colon | Complement
  | LeftParen | RightParen | Semicolon | LeftBracket | RightBracket
  | Period | Ellipsis
  | LessThan | ShiftLeft | ShiftLeftAssign | LessThanOrEqual
  | QuestionMark | Coalesce | QuestionMarkPeriod
  | Assign | LooseEqual | StrictEqual | Arrow
  | Negate | LooseNotEqual | StrictNotEqual
  | Modulo | ModuloAssign
  | Multiply | MultiplyAssign | Exponentiate | ExponentiateAssign
  | BitwiseXor | BitwiseXorAssign
  | Add | Increment | AddAssign
  | Subtract | Decrement | SubtractAssign
  | Divide | DivideAssign
  | BitwiseOr | LogicalOr | BitwiseOrAssign
  | GreaterThan | GreaterThanOrEqual | ShiftRight | ShiftRightAssign
  | LogicalShiftRight | LogicalShiftRightAssign
  | BitwiseAnd | LogicalAnd | BitwiseAndAssign.
End Token.

Module Errors.
(** Modelled from the spec: [errors.ts] is not among the embedded sources; the
    closed set of error kinds of the diagnostic surface. *)
Inductive t : Type :=
  | UnterminatedString | UnterminatedRegExp | UnterminatedComment
  | UnterminatedTemplate | InvalidCharacter | InvalidSMPCharacter
  | InvalidUnicodeEscape | InvalidCodePoint | InvalidHexEscape
  | StrictOctalLiteral | StrictOctalEscape | DuplicateRegExpFlag
  | UnexpectedTokenRegExpFlag | HtmlCommentInWebCompat
  | IdentifierAfterNumericLiteral | ContinuousNumericSeparator
  | TrailingNumericSeparator | InvalidBigInt | ExpectedHexDigits.
End Errors.

(** ** The parser state *)

(** A diagnostic: the error kind, the offset at which it was raised and the
    format arguments (strings of code units). *)
Record Diagnostic : Type := mkDiagnostic {
  diagKind : Errors.t;
  diagIndex : Z;
  diagArgs : list (list Z)
}.

Inductive TokenValue : Type :=
| ValNull
| ValString (s : list Z)
| ValNumber (n : Z)
| ValRegExp (pattern flags : list Z)
| ValToken (t : Token.t).

(** The context is the caller's bitset, a 32-bit integer like its masks. *)
Definition Context : Type := Z.

Record ParserState : Type := mkParserState {
  source : list Z;
  index : Z;
  length : Z;
  nextCodePoint : num;
  line : Z;
  column : Z;
  tokenPos : Z;
  startPos : Z;
  precedingLineBreak : bool;
  token : Token.t;
  tokenValue : TokenValue;
  tokenRaw : option (list Z);
  tokenRegExp : option (list Z * list Z);
  diagnostics : list Diagnostic
}.

Definition set_index (v : Z) (p : ParserState) : ParserState :=
  mkParserState (source p) v (length p) (nextCodePoint p) (line p) (column p)
    (tokenPos p) (startPos p) (precedingLineBreak p) (token p) (tokenValue p)
    (tokenRaw p) (tokenRegExp p) (diagnostics p).
Definition set_nextCodePoint (v : num) (p : ParserState) : ParserState :=
  mkParserState (source p) (index p) (length p) v (line p) (column p)
    (tokenPos p) (startPos p) (precedingLineBreak p) (token p) (tokenValue p)
    (tokenRaw p) (tokenRegExp p) (diagnostics p).
Definition set_line (v : Z) (p : ParserState) : ParserState :=
  mkParserState (source p) (index p) (length p) (nextCodePoint p) v (column p)
    (tokenPos p) (startPos p) (precedingLineBreak p) (token p) (tokenValue p)
    (tokenRaw p) (tokenRegExp p) (diagnostics p).
Definition set_column (v : Z) (p : ParserState) : ParserState :=
  mkParserState (source p) (index p) (length p) (nextCodePoint p) (line p) v
    (tokenPos p) (startPos p) (precedingLineBreak p) (token p) (tokenValue p)
    (tokenRaw p) (tokenRegExp p) (diagnostics p).
Definition set_tokenPos (v : Z) (p : ParserState) : ParserState :=
  mkParserState (source p) (index p) (length p) (nextCodePoint p) (line p)
    (column p) v (startPos p) (precedingLineBreak p) (token p) (tokenValue p)
    (tokenRaw p) (tokenRegExp p) (diagnostics p).
Definition set_startPos (v : Z) (p : ParserState) : ParserState :=
  mkParserState (source p) (index p) (length p) (nextCodePoint p) (line p)
    (column p) (tokenPos p) v (precedingLineBreak p) (token p) (tokenValue p)
    (tokenRaw p) (tokenRegExp p) (diagnostics p).
Definition set_precedingLineBreak (v : bool) (p : ParserState) : ParserState :=
  mkParserState (source p) (index p) (length p) (nextCodePoint p) (line p)
    (column p) (tokenPos p) (startPos p) v (token p) (tokenValue p)
    (tokenRaw p) (tokenRegExp p) (diagnostics p).
Definition set_token (v : Token.t) (p : ParserState) : ParserState :=
  mkParserState (source p) (index p) (length p) (nextCodePoint p) (line p)
    (column p) (tokenPos p) (startPos p) (precedingLineBreak p) v
    (tokenValue p) (tokenRaw p) (tokenRegExp p) (diagnostics p).
Definition set_tokenValue (v : TokenValue) (p : ParserState) : ParserState :=
  mkParserState (source p) (index p) (length p) (nextCodePoint p) (line p)
    (column p) (tokenPos p) (startPos p) (precedingLineBreak p) (token p) v
    (tokenRaw p) (tokenRegExp p) (diagnostics p).
Definition set_tokenRaw (v : option (list Z)) (p : ParserState) : ParserState :=
  mkParserState (source p) (index p) (length p) (nextCodePoint p) (line p)
    (column p) (tokenPos p) (startPos p) (precedingLineBreak p) (token p)
    (tokenValue p) v (tokenRegExp p) (diagnostics p).
Definition set_tokenRegExp (v : option (list Z * list Z)) (p : ParserState)
  : ParserState :=
  mkParserState (source p) (index p) (length p) (nextCodePoint p) (line p)
    (column p) (tokenPos p) (startPos p) (precedingLineBreak p) (token p)
    (tokenValue p) (tokenRaw p) v (diagnostics p).
Definition set_diagnostics (v : list Diagnostic) (p : ParserState)
  : ParserState :=
  mkParserState (source p) (index p) (length p) (nextCodePoint p) (line p)
    (column p) (tokenPos p) (startPos p) (precedingLineBreak p) (token p)
    (tokenValue p) (tokenRaw p) (tokenRegExp p) v.

(** Modelled from the spec: [report] of [errors.ts] is not among the embedded
    sources.  Diagnostics are collected, in order, in a list owned by the
    state; an emission carries the error kind, a start index (here the offset
    of the cursor) and the format arguments, and control returns to the
    caller. *)
Definition report (p : ParserState) (context : Context) (e : Errors.t)
  (args : list (list Z)) : ParserState :=
  set_diagnostics (diagnostics p ++ [mkDiagnostic e (index p) args]) p.

(** Modelled from the spec: the state a parse starts from (its constructor is
    not among the embedded sources): offset 0, line 1, column 0, the code
    unit at offset 0 cached (0 for the empty source), no diagnostics. *)
Definition create (src : list Z) : ParserState :=
  mkParserState src 0 (Z.of_nat (List.length src))
    (match src with [] => Num 0 | c :: _ => Num c end) 1 0 0 0
    false Token.EndOfSource ValNull None None [].

(** ** What the scanner imports from the rest of the parser *)

(** The context masks, the Unicode bitmap, the identifier-part classifier,
    the sub-scanners of the other token families, the comment skippers and the
    host regular-expression engine.  The dispatcher and the regular-expression
    scanner are defined, and verified, for every instance. *)
Class Externals : Type := {
  Context_OptionsNext : Z;
  Context_OptionsRaw : Z;
  Context_Module : Z;
  Context_AllowRegExp : Z;
  Context_DisableWebCompat : Z;
  Escape_InvalidCodePoint : Z;
  unicodeLookup : Z -> Z;
  isIdentifierPart : num -> bool;
  scanIdentifierOrKeyword : ParserState -> Context -> bool -> Token.t * ParserState;
  scanIdentifierSlowPath :
    ParserState -> Context -> list Z -> bool -> Token.t * ParserState;
  scanUnicodeEscapeIdStart : ParserState -> Context -> Token.t * ParserState;
  scanStringLiteral : ParserState -> Context -> num -> Token.t * ParserState;
  scanTemplate : ParserState -> Context -> Token.t * ParserState;
  scanNumber : ParserState -> Context -> bool -> bool -> Token.t * ParserState;
  scanLeadingZero : ParserState -> Context -> num -> Token.t * ParserState;
  skipSingleLineComment : ParserState -> ParserState;
  skipMultiLineComment : ParserState -> Context -> Z * ParserState;
  hostRegExp : list Z -> option (list Z) -> bool
}.

(** [context & mask] as a condition. *)
Definition hasFlag (context : Context) (mask : Z) : bool :=
  negb (Z.land context mask =? 0).

(** ** [common.ts] *)

Section Common.
Context {E : Externals}.

(** [advance]: bump the column, move to the next unit and cache it.  The
    number that the JavaScript function returns is the [nextCodePoint] of the
    state answered here. *)
Definition advance (parser : ParserState) : ParserState :=
  let parser := set_column (column parser + 1) parser in
  let parser := set_index (index parser + 1) parser in
  set_nextCodePoint (charCodeAt (source parser) (index parser)) parser.

(** [fromCodePoint]: one unit up to 65535, otherwise the two units
    [codePoint >>> 10] and [codePoint & 0x3ff]. *)
Definition fromCodePoint (codePoint : Z) : list Z :=
  if codePoint <=? 65535 then fromCharCode codePoint
  else fromCharCode (Z.shiftr (uint32 codePoint) 10)
       ++ fromCharCode (Z.land (int32 codePoint) 0x3ff).

(** [toHex]. *)
Definition toHex (code : Z) : Z :=
  if code <? Chars.UpperA then code - Chars.Zero
  else Z.land (int32 (code - Chars.UpperA + 10)) 0xf.

(** [(unicodeLookup[(code >>> 5) + base] >>> code) & 31 & 1]. *)
Definition unicodeBit (base : Z) (code : num) : Z :=
  let word := unicodeLookup (Z.shiftr (toUint32 code) 5 + base) in
  Z.land (Z.land (Z.shiftr (uint32 word) (Z.land (toUint32 code) 31)) 31) 1.

(** [consumeMultiUnitCodePoint]: the answer is 0 when [hi] does not start a
    surrogate pair, [Escape.InvalidCodePoint] when the combined scalar fails
    the bitmap at base 0, and 1 after the pair has been consumed. *)
Definition consumeMultiUnitCodePoint (parser : ParserState) (hi : num)
  : Z * ParserState :=
  if negb (js_and hi 0xfc00 =? 0xd800) then (0, parser)
  else
    let lo := charCodeAt (source parser) (index parser + 1) in
    if negb (js_and lo 0xfc00 =? 0xdc00) then (0, parser)
    else
      let hi' := 0x10000 + Z.shiftl (js_and hi 0x3ff) 10 + js_and lo 0x3ff in
      let parser := set_nextCodePoint (Num hi') parser in
      if unicodeBit 0 (Num hi') =? 0 then (Escape_InvalidCodePoint, parser)
      else (1, set_index (index parser + 1) parser).

(** [isExoticECMAScriptWhitespace]. *)
Definition isExoticECMAScriptWhitespace (code : num) : bool :=
  js_eq code Chars.NonBreakingSpace
  || js_eq code Chars.ZeroWidthNoBreakSpace
  || js_eq code Chars.NextLine
  || js_eq code Chars.Ogham
  || (js_ge code Chars.EnQuad && js_le code Chars.ZeroWidthSpace)
  || js_eq code Chars.NarrowNoBreakSpace
  || js_eq code Chars.MathematicalSpace
  || js_eq code Chars.IdeographicSpace
  || js_eq code Chars.ByteOrderMark.

End Common.

(** ** [regexp.ts] *)

Module RegexState.
Definition Empty : Z := 0.
Definition Escape : Z := 0x1.
Definition Class : Z := 0x2.
End RegexState.

Module RegexFlags.
Definition Empty : Z := 0.
Definition IgnoreCase : Z := 1.
Definition Global : Z := 2.
Definition Multiline : Z := 4.
Definition Unicode : Z := 16.
Definition Sticky : Z := 8.
Definition DotAll : Z := 12.
End RegexFlags.

(** What one turn of the body loop decides from the unit just read. *)
Inductive BodyCase : Type :=
| BodyBreakLoop
| BodyNext (preparseState : Z)
| BodyUnterminated.

(** How the body loop and the flag loop are left: by falling out of the loop,
    or by [return Token.Error] after a report. *)
Inductive LoopExit : Type :=
| LoopDone (parser : ParserState)
| LoopError (parser : ParserState).

(** What the [switch] of the flag loop does: [break] with the new mask, or
    [return Token.Error]. *)
Inductive FlagCase : Type :=
| FlagBreak (mask : Z) (parser : ParserState)
| FlagReturn (parser : ParserState).

Section RegExp.
Context {E : Externals}.

Definition regExpBodyCase (preparseState : Z) (ch : num) : BodyCase :=
  if negb (Z.land preparseState RegexState.Escape =? 0) then
    BodyNext (Z.land preparseState (Z.lnot RegexState.Escape))
  else if js_eq ch Chars.Slash then
    if preparseState =? 0 then BodyBreakLoop else BodyNext preparseState
  else if js_eq ch Chars.Backslash then
    BodyNext (Z.lor preparseState RegexState.Escape)
  else if js_eq ch Chars.LeftBracket then
    BodyNext (Z.lor preparseState RegexState.Class)
  else if js_eq ch Chars.RightBracket then
    BodyNext (Z.land preparseState RegexState.Escape)
  else if js_eq ch Chars.CarriageReturn || js_eq ch Chars.LineFeed
          || js_eq ch Chars.LineSeparator
          || js_eq ch Chars.ParagraphSeparator then
    BodyUnterminated
  else BodyNext preparseState.

(** The [loop: while (true)] of the body; one unit of fuel per turn. *)
Fixpoint scanRegExpBody (fuel : nat) (context : Context) (preparseState : Z)
  (parser : ParserState) : option LoopExit :=
  match fuel with
  | O => None
  | S fuel =>
    let ch := nextCodePoint parser in
    let parser := advance parser in
    match regExpBodyCase preparseState ch with
    | BodyBreakLoop => Some (LoopDone parser)
    | BodyUnterminated =>
      Some (LoopError (report parser context Errors.UnterminatedRegExp []))
    | BodyNext preparseState =>
      if Z.of_nat (List.length (source parser)) <=? index parser then
        Some (LoopError (report parser context Errors.UnterminatedRegExp []))
      else scanRegExpBody fuel context preparseState parser
    end
  end.

(** The [switch (char)] of the flag loop. *)
Definition regExpFlagCase (context : Context) (mask : Z) (char : num)
  (parser : ParserState) : FlagCase :=
  let duplicate flag name :=
    if negb (Z.land mask flag =? 0) then
      FlagReturn (report parser context Errors.DuplicateRegExpFlag [[name]])
    else FlagBreak (Z.lor mask flag) parser in
  if js_eq char Chars.LowerG then
    FlagBreak (Z.lor mask RegexFlags.Global)
      (if negb (Z.land mask RegexFlags.Global =? 0)
       then report parser context Errors.DuplicateRegExpFlag [[Chars.LowerG]]
       else parser)
  else if js_eq char Chars.LowerI then duplicate RegexFlags.IgnoreCase Chars.LowerI
  else if js_eq char Chars.LowerM then duplicate RegexFlags.Multiline Chars.LowerM
  else if js_eq char Chars.LowerU then duplicate RegexFlags.Unicode Chars.LowerU
  else if js_eq char Chars.LowerY then duplicate RegexFlags.Sticky Chars.LowerY
  else if js_eq char Chars.LowerS then duplicate RegexFlags.DotAll Chars.LowerS
  else FlagReturn (report parser context Errors.UnexpectedTokenRegExpFlag []).

(** The [while (isIdentifierPart(char))] loop; one unit of fuel per test of
    the loop condition. *)
Fixpoint scanRegExpFlags (fuel : nat) (context : Context) (mask : Z)
  (char : num) (parser : ParserState) : option LoopExit :=
  match fuel with
  | O => None
  | S fuel =>
    if isIdentifierPart char then
      match regExpFlagCase context mask char parser with
      | FlagReturn parser => Some (LoopError parser)
      | FlagBreak mask parser =>
        let parser := advance parser in
        scanRegExpFlags fuel context mask (nextCodePoint parser) parser
      end
    else Some (LoopDone parser)
  end.

(** [validate]: the host engine compiles the pattern alone, then the pattern
    with its flags. *)
Definition validate (parser : ParserState) (context : Context)
  (pattern flags : list Z) : TokenValue * ParserState :=
  if negb (hostRegExp pattern None) then
    (ValToken Token.Error, report parser context Errors.UnterminatedRegExp [])
  else if hostRegExp pattern (Some flags) then (ValRegExp pattern flags, parser)
  else (ValNull, parser).

(** Turns that the loops can take from [parser]: the body loop advances by
    one unit per turn and stops at the end of the source, the flag loop reads
    at most every remaining unit and one [NaN]. *)
Definition regExpFuel (parser : ParserState) : nat :=
  S (S (Z.to_nat (Z.of_nat (List.length (source parser)) - index parser))).

(** [scanRegularExpression]. *)
Definition scanRegularExpression (parser : ParserState) (context : Context)
  : option (Token.t * ParserState) :=
  let bodyStart := index parser in
  match scanRegExpBody (regExpFuel parser) context RegexState.Empty parser with
  | None => None
  | Some (LoopError parser) => Some (Token.Error, parser)
  | Some (LoopDone parser) =>
    let bodyEnd := index parser - 1 in
    let flagStart := index parser in
    match scanRegExpFlags (regExpFuel parser) context RegexFlags.Empty
            (nextCodePoint parser) parser with
    | None => None
    | Some (LoopError parser) => Some (Token.Error, parser)
    | Some (LoopDone parser) =>
      let flags := slice (source parser) flagStart (index parser) in
      let pattern := slice (source parser) bodyStart bodyEnd in
      let parser := set_tokenRegExp (Some (pattern, flags)) parser in
      let parser :=
        if hasFlag context Context_OptionsRaw
        then set_tokenRaw
               (Some (slice (source parser) (tokenPos parser) (index parser)))
               parser
        else parser in
      let (value, parser) := validate parser context pattern flags in
      Some (Token.RegularExpression, set_tokenValue value parser)
    end
  end.

End RegExp.

(** ** [scan.ts] *)

(** The dispatch table, one entry per code unit from 0 to 127. *)
Definition firstCharKinds : list Token.t :=
  [ Token.Error; Token.Error; Token.Error; Token.Error;
    Token.Error; Token.Error; Token.Error; Token.Error;
    Token.Error; Token.WhiteSpace; Token.LineFeed; Token.WhiteSpace;
    Token.WhiteSpace; Token.CarriageReturn; Token.Error; Token.Error;
    Token.Error; Token.Error; Token.Error; Token.Error;
    Token.Error; Token.Error; Token.Error; Token.Error;
    Token.Error; Token.Error; Token.Error; Token.Error;
    Token.Error; Token.Error; Token.Error; Token.Error;
    Token.WhiteSpace; Token.Negate; Token.StringLiteral; Token.PrivateField;
    Token.Identifier; Token.Modulo; Token.BitwiseAnd; Token.StringLiteral;
    Token.LeftParen; Token.RightParen; Token.Multiply; Token.Add;
    Token.Comma; Token.Subtract; Token.Period; Token.Divide;
    Token.LeadingZero; Token.NumericLiteral; Token.NumericLiteral;
    Token.NumericLiteral; Token.NumericLiteral; Token.NumericLiteral;
    Token.NumericLiteral; Token.NumericLiteral; Token.NumericLiteral;
    Token.NumericLiteral; Token.Colon; Token.Semicolon;
    Token.LessThan; Token.Assign; Token.GreaterThan; Token.QuestionMark;
    Token.Error; Token.Identifier; Token.Identifier; Token.Identifier;
    Token.Identifier; Token.Identifier; Token.Identifier; Token.Identifier;
    Token.Identifier; Token.Identifier; Token.Identifier; Token.Identifier;
    Token.Identifier; Token.Identifier; Token.Identifier; Token.Identifier;
    Token.Identifier; Token.Identifier; Token.Identifier; Token.Identifier;
    Token.Identifier; Token.Identifier; Token.Identifier; Token.Identifier;
    Token.Identifier; Token.Identifier; Token.Identifier; Token.LeftBracket;
    Token.UnicodeEscapeIdStart; Token.RightBracket; Token.BitwiseXor;
    Token.Identifier; Token.TemplateTail;
    Token.IdentifierOrKeyword; Token.IdentifierOrKeyword;
    Token.IdentifierOrKeyword; Token.IdentifierOrKeyword;
    Token.IdentifierOrKeyword; Token.IdentifierOrKeyword;
    Token.IdentifierOrKeyword; Token.Identifier;
    Token.IdentifierOrKeyword; Token.Identifier; Token.Identifier;
    Token.IdentifierOrKeyword; Token.Identifier;
    Token.IdentifierOrKeyword; Token.Identifier;
    Token.IdentifierOrKeyword; Token.Identifier;
    Token.IdentifierOrKeyword; Token.IdentifierOrKeyword;
    Token.IdentifierOrKeyword; Token.Identifier;
    Token.IdentifierOrKeyword; Token.IdentifierOrKeyword; Token.Identifier;
    Token.IdentifierOrKeyword; Token.IdentifierOrKeyword;
    Token.LeftBrace; Token.BitwiseOr; Token.RightBrace; Token.Complement;
    Token.Error ].

(** [firstCharKinds[char]]; [undefined] outside the table. *)
Definition firstCharKind (char : num) : option Token.t :=
  match char with
  | NaN => None
  | Num z => if 0 <=? z then nth_error firstCharKinds (Z.to_nat z) else None
  end.

(** How one turn of the dispatcher's loop ends: [return token], or
    [continue] with the loop-carried [lastIsCR]. *)
Inductive Step : Type :=
| Return (token : Token.t) (parser : ParserState)
| Continue (lastIsCR : bool) (parser : ParserState).

Section Scan.
Context {E : Externals}.

Definition returning (r : Token.t * ParserState) : option Step :=
  Some (Return (fst r) (snd r)).

(** The block of [case Token.LineFeed], also reached by falling through from
    [case Token.CarriageReturn]. *)
Definition scanLineFeed (lastIsCR : bool) (parser : ParserState) : Step :=
  let parser := set_precedingLineBreak true parser in
  let parser := set_index (index parser + 1) parser in
  let parser :=
    set_nextCodePoint (charCodeAt (source parser) (index parser)) parser in
  let parser :=
    if negb lastIsCR
    then set_line (line parser + 1) (set_column 0 parser)
    else parser in
  Continue false parser.

(** [case Token.CarriageReturn]. *)
Definition scanCarriageReturn (parser : ParserState) : Step :=
  let lastIsCR := true in
  let parser := set_column 0 parser in
  let parser := set_line (line parser + 1) parser in
  scanLineFeed lastIsCR parser.

(** [case Token.Period]. *)
Definition scanPeriod (context : Context) (parser : ParserState) : option Step :=
  let parser := advance parser in
  let next := nextCodePoint parser in
  if js_ge next Chars.Zero && js_le next Chars.Nine then
    returning (scanNumber parser context false true)
  else if js_eq next Chars.Period
          && (index parser + 1 <? Z.of_nat (List.length (source parser)))
          && js_eq (charCodeAt (source parser) (index parser + 1)) Chars.Period
  then
    let parser := set_column (column parser + 2) parser in
    let parser := set_index (index parser + 2) parser in
    Some (Return Token.Ellipsis
            (set_nextCodePoint (charCodeAt (source parser) (index parser))
               parser))
  else Some (Return Token.Period parser).

(** [case Token.LessThan]. *)
Definition scanLessThan (lastIsCR : bool) (parser : ParserState) : option Step :=
  let parser := advance parser in
  if index parser <? length parser then
    if js_eq (nextCodePoint parser) Chars.LessThan then
      let parser := advance parser in
      if js_eq (nextCodePoint parser) Chars.EqualSign then
        Some (Return Token.ShiftLeftAssign (set_index (index parser + 1) parser))
      else Some (Return Token.ShiftLeft parser)
    else if js_eq (nextCodePoint parser) Chars.EqualSign then
      Some (Return Token.LessThanOrEqual (advance parser))
    else if js_eq (nextCodePoint parser) Chars.Exclamation
            && js_eq (charCodeAt (source parser) (index parser + 2)) Chars.Hyphen
            && js_eq (charCodeAt (source parser) (index parser + 1)) Chars.Hyphen
    then
      let parser := set_index (index parser + 2) parser in
      let parser := set_column (column parser + 3) parser in
      Some (Continue lastIsCR (skipSingleLineComment parser))
    else Some (Return Token.LessThan parser)
  else Some (Return Token.LessThan parser).

(** [case Token.QuestionMark]. *)
Definition scanQuestionMark (context : Context) (parser : ParserState)
  : option Step :=
  let parser := advance parser in
  let ch := nextCodePoint parser in
  if hasFlag context Context_OptionsNext then
    if js_eq (nextCodePoint parser) Chars.QuestionMark then
      Some (Return Token.Coalesce (advance parser))
    else if js_eq ch Chars.Period then
      let ch := js_or0 (charCodeAt (source parser) (index parser + 1)) in
      if (Chars.Nine <? ch) || (ch <=? Chars.Zero) then
        Some (Return Token.QuestionMarkPeriod (advance parser))
      else Some (Return Token.QuestionMark parser)
    else Some (Return Token.QuestionMark parser)
  else Some (Return Token.QuestionMark parser).

(** [case Token.Assign]. *)
Definition scanAssign (parser : ParserState) : option Step :=
  let parser := advance parser in
  if length parser <=? index parser then Some (Return Token.Assign parser)
  else
    let char := nextCodePoint parser in
    if js_eq char Chars.EqualSign then
      let parser := advance parser in
      if js_eq (nextCodePoint parser) Chars.EqualSign then
        Some (Return Token.StrictEqual (advance parser))
      else Some (Return Token.LooseEqual parser)
    else if js_eq char Chars.GreaterThan then
      Some (Return Token.Arrow (advance parser))
    else Some (Return Token.Assign parser).

(** [case Token.Negate]. *)
Definition scanNegate (parser : ParserState) : option Step :=
  let parser := advance parser in
  if js_ne (nextCodePoint parser) Chars.EqualSign then
    Some (Return Token.Negate parser)
  else
    let parser := advance parser in
    if js_ne (nextCodePoint parser) Chars.EqualSign then
      Some (Return Token.LooseNotEqual parser)
    else Some (Return Token.StrictNotEqual (advance parser)).

(** [case Token.Modulo]. *)
Definition scanModulo (parser : ParserState) : option Step :=
  let parser := advance parser in
  if js_ne (nextCodePoint parser) Chars.EqualSign then
    Some (Return Token.Modulo parser)
  else Some (Return Token.ModuloAssign (advance parser)).

(** [case Token.Multiply]. *)
Definition scanMultiply (parser : ParserState) : option Step :=
  let parser := advance parser in
  if length parser <=? index parser then Some (Return Token.Multiply parser)
  else
    let char := nextCodePoint parser in
    if js_eq char Chars.EqualSign then
      Some (Return Token.MultiplyAssign (advance parser))
    else if js_ne char Chars.Asterisk then Some (Return Token.Multiply parser)
    else
      let parser := advance parser in
      if js_ne (nextCodePoint parser) Chars.EqualSign then
        Some (Return Token.Exponentiate parser)
      else Some (Return Token.ExponentiateAssign (advance parser)).

(** [case Token.BitwiseXor]. *)
Definition scanBitwiseXor (parser : ParserState) : option Step :=
  let parser := advance parser in
  if js_ne (nextCodePoint parser) Chars.EqualSign then
    Some (Return Token.BitwiseXor parser)
  else Some (Return Token.BitwiseXorAssign (advance parser)).

(** [case Token.Add]. *)
Definition scanAdd (parser : ParserState) : option Step :=
  let parser := advance parser in
  if length parser <=? index parser then Some (Return Token.Add parser)
  else
    let char := nextCodePoint parser in
    if js_eq char Chars.Plus then Some (Return Token.Increment (advance parser))
    else if js_eq char Chars.EqualSign then
      Some (Return Token.AddAssign (advance parser))
    else Some (Return Token.Add parser).

(** [case Token.Subtract]. *)
Definition scanSubtract (context : Context) (isStartOfLine lastIsCR : bool)
  (parser : ParserState) : option Step :=
  let parser := advance parser in
  if length parser <=? index parser then Some (Return Token.Subtract parser)
  else
    let char := nextCodePoint parser in
    if js_eq char Chars.Hyphen then
      let parser := advance parser in
      if (Z.land context Context_Module =? 0)
         && (precedingLineBreak parser || isStartOfLine)
         && js_eq (nextCodePoint parser) Chars.GreaterThan
      then
        if hasFlag context Context_DisableWebCompat then
          Some (Return Token.Error
                  (report parser context Errors.HtmlCommentInWebCompat []))
        else Some (Continue lastIsCR (skipSingleLineComment parser))
      else Some (Return Token.Decrement parser)
    else if js_eq char Chars.EqualSign then
      Some (Return Token.SubtractAssign (advance parser))
    else Some (Return Token.Subtract parser).

(** [case Token.Divide]. *)
Definition scanDivide (context : Context) (lastIsCR : bool)
  (parser : ParserState) : option Step :=
  let parser := advance parser in
  let char := nextCodePoint parser in
  if js_eq char Chars.Slash then
    Some (Continue lastIsCR (skipSingleLineComment (advance parser)))
  else if js_eq char Chars.Asterisk then
    let (state, parser) := skipMultiLineComment (advance parser) context in
    if state <? 1 then Some (Return Token.Error parser)
    else Some (Continue lastIsCR parser)
  else if hasFlag context Context_AllowRegExp then
    match scanRegularExpression parser context with
    | Some r => returning r
    | None => None
    end
  else if js_eq char Chars.EqualSign then
    Some (Return Token.DivideAssign (advance parser))
  else Some (Return Token.Divide parser).

(** [case Token.BitwiseOr]. *)
Definition scanBitwiseOr (parser : ParserState) : option Step :=
  let parser := advance parser in
  if length parser <=? index parser then Some (Return Token.BitwiseOr parser)
  else
    let char := nextCodePoint parser in
    if js_eq char Chars.VerticalBar then
      Some (Return Token.LogicalOr (advance parser))
    else if js_eq char Chars.EqualSign then
      Some (Return Token.BitwiseOrAssign (advance parser))
    else Some (Return Token.BitwiseOr parser).

(** [case Token.GreaterThan]. *)
Definition scanGreaterThan (parser : ParserState) : option Step :=
  let parser := advance parser in
  if length parser <=? index parser then Some (Return Token.GreaterThan parser)
  else
    let char := nextCodePoint parser in
    if js_eq char Chars.EqualSign then
      Some (Return Token.GreaterThanOrEqual (advance parser))
    else if js_ne char Chars.GreaterThan then
      Some (Return Token.GreaterThan parser)
    else
      let parser := advance parser in
      let char := nextCodePoint parser in
      if js_eq char Chars.GreaterThan then
        let parser := advance parser in
        if js_ne (nextCodePoint parser) Chars.EqualSign then
          Some (Return Token.LogicalShiftRight parser)
        else Some (Return Token.LogicalShiftRightAssign (advance parser))
      else if js_eq char Chars.EqualSign then
        Some (Return Token.ShiftRightAssign (advance parser))
      else Some (Return Token.ShiftRight parser).

(** [case Token.BitwiseAnd]. *)
Definition scanBitwiseAnd (parser : ParserState) : option Step :=
  let parser := advance parser in
  if Z.of_nat (List.length (source parser)) <=? index parser then
    Some (Return Token.BitwiseAnd parser)
  else
    let char := nextCodePoint parser in
    if js_eq char Chars.Ampersand then
      Some (Return Token.LogicalAnd (advance parser))
    else if js_eq char Chars.EqualSign then
      Some (Return Token.BitwiseAndAssign (advance parser))
    else Some (Return Token.BitwiseAnd parser).

(** The code after the [if (char <= 0x7e)] block: line separators, the start
    of a non-ASCII identifier, exotic white space, or an invalid character. *)
Definition scanAfterSwitch (context : Context) (lastIsCR : bool) (char : num)
  (parser : ParserState) : option Step :=
  if js_xor char Chars.LineSeparator <=? 1 then
    let parser := set_precedingLineBreak true parser in
    let parser := set_index (index parser + 1) parser in
    let parser :=
      set_nextCodePoint (charCodeAt (source parser) (index parser)) parser in
    let parser := set_column 0 parser in
    Some (Continue false (set_line (line parser + 1) parser))
  else if (js_and char 0xfc00 =? 0xd800) || negb (unicodeBit 34816 char =? 0)
  then
    if js_and char 0xfc00 =? 0xdc00 then
      let char :=
        Z.lor (Z.lor (Z.shiftl (js_and char 0x3ff) 10) (js_and char 0x3ff))
          0x10000 in
      if unicodeBit 0 (Num char) =? 0 then
        Some (Return Token.Error
                (report parser context Errors.InvalidSMPCharacter []))
      else
        let parser := set_index (index parser + 1) parser in
        let parser := set_nextCodePoint (Num char) parser in
        let parser := set_column (column parser + 1) parser in
        returning (scanIdentifierSlowPath parser context [] false)
    else returning (scanIdentifierSlowPath parser context [] false)
  else if isExoticECMAScriptWhitespace char then
    Some (Continue lastIsCR (advance parser))
  else
    Some (Return Token.Error (report parser context Errors.InvalidCharacter [])).

(** One turn of the [while] loop of [scanSingleToken], entered with
    [parser.index < parser.length]. *)
Definition scanIteration (context : Context) (isStartOfLine lastIsCR : bool)
  (parser : ParserState) : option Step :=
  let parser := set_tokenPos (index parser) parser in
  let char := nextCodePoint parser in
  if js_le char 0x7e then
    match firstCharKind char with
    | Some Token.RightBrace => Some (Return Token.RightBrace (advance parser))
    | Some Token.LeftBrace => Some (Return Token.LeftBrace (advance parser))
    | Some Token.Comma => Some (Return Token.Comma (advance parser))
    | Some Token.Colon => Some (Return Token.Colon (advance parser))
    | Some Token.Complement => Some (Return Token.Complement (advance parser))
    | Some Token.LeftParen => Some (Return Token.LeftParen (advance parser))
    | Some Token.RightParen => Some (Return Token.RightParen (advance parser))
    | Some Token.Semicolon => Some (Return Token.Semicolon (advance parser))
    | Some Token.LeftBracket => Some (Return Token.LeftBracket (advance parser))
    | Some Token.RightBracket =>
      Some (Return Token.RightBracket (advance parser))
    | Some Token.Error => Some (Return Token.Error (advance parser))
    | Some Token.WhiteSpace => Some (Continue lastIsCR (advance parser))
    | Some Token.CarriageReturn => Some (scanCarriageReturn parser)
    | Some Token.LineFeed => Some (scanLineFeed lastIsCR parser)
    | Some Token.IdentifierOrKeyword =>
      returning (scanIdentifierOrKeyword parser context true)
    | Some Token.Identifier =>
      returning (scanIdentifierOrKeyword parser context false)
    | Some Token.StringLiteral =>
      returning (scanStringLiteral parser context char)
    | Some Token.NumericLiteral =>
      returning (scanNumber parser context false false)
    | Some Token.LeadingZero => returning (scanLeadingZero parser context char)
    | Some Token.UnicodeEscapeIdStart =>
      returning (scanUnicodeEscapeIdStart parser context)
    | Some Token.TemplateTail => returning (scanTemplate parser context)
    | Some Token.Period => scanPeriod context parser
    | Some Token.LessThan => scanLessThan lastIsCR parser
    | Some Token.QuestionMark => scanQuestionMark context parser
    | Some Token.Assign => scanAssign parser
    | Some Token.Negate => scanNegate parser
    | Some Token.Modulo => scanModulo parser
    | Some Token.Multiply => scanMultiply parser
    | Some Token.BitwiseXor => scanBitwiseXor parser
    | Some Token.Add => scanAdd parser
    | Some Token.Subtract => scanSubtract context isStartOfLine lastIsCR parser
    | Some Token.Divide => scanDivide context lastIsCR parser
    | Some Token.BitwiseOr => scanBitwiseOr parser
    | Some Token.GreaterThan => scanGreaterThan parser
    | Some Token.BitwiseAnd => scanBitwiseAnd parser
    | _ => scanAfterSwitch context lastIsCR char parser
    end
  else scanAfterSwitch context lastIsCR char parser.

(** The [while (parser.index < parser.length)] loop; one unit of fuel per
    test of the loop condition. *)
Fixpoint scanLoop (fuel : nat) (context : Context)
  (isStartOfLine lastIsCR : bool) (parser : ParserState)
  : option (Token.t * ParserState) :=
  match fuel with
  | O => None
  | S fuel =>
    if index parser <? length parser then
      match scanIteration context isStartOfLine lastIsCR parser with
      | None => None
      | Some (Return token parser) => Some (token, parser)
      | Some (Continue lastIsCR parser) =>
        scanLoop fuel context isStartOfLine lastIsCR parser
      end
    else Some (Token.EndOfSource, parser)
  end.

(** [scanSingleToken]. *)
Definition scanSingleToken (fuel : nat) (parser : ParserState)
  (context : Context) : option (Token.t * ParserState) :=
  let lastIsCR := false in
  let isStartOfLine := index parser =? 0 in
  scanLoop fuel context isStartOfLine lastIsCR parser.

(** [nextToken]. *)
Definition nextToken (fuel : nat) (parser : ParserState) (context : Context)
  : option (Token.t * ParserState) :=
  let parser := set_precedingLineBreak false parser in
  let parser := set_startPos (index parser) parser in
  match scanSingleToken fuel parser context with
  | None => None
  | Some (token, parser) => Some (token, set_token token parser)
  end.

(** Turns of the dispatcher's loop that are enough from [parser]: every turn
    that continues moves [index] forward, and the loop stops at [length]. *)
Definition scanFuel (parser : ParserState) : nat :=
  S (Z.to_nat (length parser - index parser)).

End Scan.

(** ** A reference instance of the imports

    The statements below hold for every instance of [Externals]; this one is
    used to run the scanner on concrete sources. *)

Module Reference.

Definition isLineTerminator (c : num) : bool :=
  js_eq c Chars.LineFeed || js_eq c Chars.CarriageReturn
  || js_eq c Chars.LineSeparator || js_eq c Chars.ParagraphSeparator.

Definition isAsciiIdStart (z : Z) : bool :=
  ((0x41 <=? z) && (z <=? 0x5A)) || ((0x61 <=? z) && (z <=? 0x7A))
  || (z =? 0x24) || (z =? 0x5F).

Definition isAsciiIdPart (z : Z) : bool :=
  isAsciiIdStart z || ((0x30 <=? z) && (z <=? 0x39)).

(** The 32-bit word whose bit [b] tells whether [32 * w + b] satisfies [p]. *)
Definition bitmapWord (p : Z -> bool) (w : Z) : Z :=
  fold_right
    (fun b acc => if p (32 * w + Z.of_nat b) then Z.lor (2 ^ Z.of_nat b) acc else acc)
    0 (seq 0 32).

(** Modelled from the spec: the generated Unicode data of [unicode.ts] is not
    among the embedded sources.  Lookup is [(table[(cp >>> 5) + base] >>> cp)
    & 1]; base 34816 holds ID_Start and base 0 holds ID_Continue.  This table
    holds the ASCII part of the two sets; every other bit is clear. *)
Definition unicodeTable (i : Z) : Z :=
  if 34816 <=? i then bitmapWord isAsciiIdStart (i - 34816)
  else bitmapWord isAsciiIdPart i.

(** Modelled from the spec: [isIdentifierPart] of [charClassifier.ts] is not
    among the embedded sources; ASCII letters, digits, [$] and [_], and the
    two joiners U+200C and U+200D. *)
Definition identifierPart (c : num) : bool :=
  match c with
  | NaN => false
  | Num z => isAsciiIdPart z || (z =? 0x200C) || (z =? 0x200D)
  end.

(** Advance while the cached unit satisfies [p] and the source lasts. *)
Fixpoint skipWhile (p : num -> bool) (fuel : nat) (parser : ParserState)
  : ParserState :=
  match fuel with
  | O => parser
  | S fuel =>
    if (index parser <? length parser) && p (nextCodePoint parser)
    then skipWhile p fuel (advance parser)
    else parser
  end.

Definition remaining (parser : ParserState) : nat :=
  Z.to_nat (length parser - index parser).

(** Modelled from the spec: [skipSingleLineComment] of [comments.ts] is not
    among the embedded sources.  Consume until LF, CR, LS, PS or the end of
    the source; on exit set [precedingLineBreak]. *)
Definition skipSingleLine (parser : ParserState) : ParserState :=
  set_precedingLineBreak true
    (skipWhile (fun c => negb (isLineTerminator c)) (remaining parser) parser).

(** The loop of the multi-line skipper; [crossed] tells whether a line
    terminator has been met. *)
Fixpoint skipMultiLineLoop (fuel : nat) (context : Context) (crossed : bool)
  (parser : ParserState) : Z * ParserState :=
  match fuel with
  | O => (0, report parser context Errors.UnterminatedComment [])
  | S fuel =>
    if length parser <=? index parser then
      (0, report parser context Errors.UnterminatedComment [])
    else if js_eq (nextCodePoint parser) Chars.Asterisk
            && js_eq (charCodeAt (source parser) (index parser + 1)) Chars.Slash
    then (if crossed then 2 else 1, advance (advance parser))
    else if isLineTerminator (nextCodePoint parser) then
      let parser := advance parser in
      let parser := set_line (line parser + 1) (set_column 0 parser) in
      skipMultiLineLoop fuel context true (set_precedingLineBreak true parser)
    else skipMultiLineLoop fuel context crossed (advance parser)
  end.

(** Modelled from the spec: [skipMultiLineComment] of [comments.ts] is not
    among the embedded sources.  Consume until the closing star and slash;
    each line terminator bumps [line], resets [column] and sets
    [precedingLineBreak]; the end of the source before the closing is
    [UnterminatedComment], answered with 0; otherwise the answer tells whether
    a terminator was crossed (2) or not (1). *)
Definition skipMultiLine (parser : ParserState) (context : Context)
  : Z * ParserState :=
  skipMultiLineLoop (S (remaining parser)) context false parser.

(** Modelled from the spec: the sub-scanners of the other token families
    ([identifier.ts], [numeric.ts], [string.ts]) are not among the embedded
    sources.  Each consumes the run of units of its family; the cooked value
    is the raw slice.  Identifiers take the fast path of ASCII identifier
    parts. *)
Definition scanRun (token : Token.t) (p : num -> bool) (parser : ParserState)
  : Token.t * ParserState :=
  let start := index parser in
  let parser := skipWhile p (remaining parser) (advance parser) in
  (token,
   set_tokenValue (ValString (slice (source parser) start (index parser)))
     parser).

Definition scanIdentifier (parser : ParserState) : Token.t * ParserState :=
  scanRun Token.Identifier identifierPart parser.

Definition scanDigits (parser : ParserState) : Token.t * ParserState :=
  scanRun Token.NumericLiteral
    (fun c => js_ge c Chars.Zero && js_le c Chars.Nine) parser.

(** Strings and templates run to the closing delimiter, which is consumed; a
    source that ends first is reported. *)
Definition scanDelimited (token : Token.t) (e : Errors.t) (quote : num)
  (context : Context) (parser : ParserState) : Token.t * ParserState :=
  let closes c := match quote with NaN => false | Num q => js_eq c q end in
  let (_, parser) := scanRun token (fun c => negb (closes c)) parser in
  if index parser <? length parser then (token, advance parser)
  else (Token.Error, report parser context e []).

Definition externals : Externals := {|
  Context_OptionsNext := 1;
  Context_OptionsRaw := 2;
  Context_Module := 4;
  Context_AllowRegExp := 8;
  Context_DisableWebCompat := 16;
  Escape_InvalidCodePoint := -1;
  unicodeLookup := unicodeTable;
  isIdentifierPart := identifierPart;
  scanIdentifierOrKeyword := fun parser _ _ => scanIdentifier parser;
  scanIdentifierSlowPath := fun parser _ _ _ => scanIdentifier parser;
  scanUnicodeEscapeIdStart := fun parser _ => scanIdentifier parser;
  scanStringLiteral := fun parser context quote =>
    scanDelimited Token.StringLiteral Errors.UnterminatedString quote context
      parser;
  scanTemplate := fun parser context =>
    scanDelimited Token.TemplateTail Errors.UnterminatedTemplate (Num 0x60)
      context parser;
  scanNumber := fun parser _ _ _ => scanDigits parser;
  scanLeadingZero := fun parser _ _ => scanDigits parser;
  skipSingleLineComment := skipSingleLine;
  skipMultiLineComment := skipMultiLine;
  hostRegExp := fun _ _ => true
|}.

End Reference.

(** ** Predicates of the statements *)

(** What the dispatcher needs from the two comment skippers, whose code is
    imported: they never move the cursor backwards and keep the length. *)
Definition skippers_advance (E : Externals) : Prop :=
  (forall p, index p <= index (skipSingleLineComment p)
             /\ length (skipSingleLineComment p) = length p)
  /\ (forall p context,
        index p <= index (snd (skipMultiLineComment p context))
        /\ length (snd (skipMultiLineComment p context)) = length p).

(** A turn of the loop from [p] makes progress: it answers, and it either
    returns a token or continues at least one unit further on. *)
Definition progress (p : ParserState) (r : option Step) : Prop :=
  match r with
  | None => False
  | Some (Return _ _) => True
  | Some (Continue _ p') => index p + 1 <= index p' /\ length p' = length p
  end.

(** The cached unit is the one under the cursor: [source[index]] inside the
    source and [NaN] from its end on, which is what [charCodeAt] answers. *)
Definition nextCodePoint_current (p : ParserState) : Prop :=
  (0 <= index p < Z.of_nat (List.length (source p)) ->
   nextCodePoint p = Num (nth (Z.to_nat (index p)) (source p) 0))
  /\ (Z.of_nat (List.length (source p)) <= index p -> nextCodePoint p = NaN).

(** The same invariant in the words of the specification: [source[index]]
    before the end of the source and 0 at its end. *)
Definition nextCodePoint_as_specified (p : ParserState) : Prop :=
  (0 <= index p < length p ->
   nextCodePoint p = Num (nth (Z.to_nat (index p)) (source p) 0))
  /\ (index p = length p -> nextCodePoint p = Num 0).

(** The units above 0x7E that the specification lets the dispatcher skip:
    LS and PS, NBSP, the byte order mark, and the category Zs (U+1680,
    U+2000 to U+200A, U+202F, U+205F, U+3000; U+00A0 is NBSP). *)
Definition specified_insignificant (c : Z) : bool :=
  (c =? 0x2028) || (c =? 0x2029) || (c =? 0xA0) || (c =? 0xFEFF)
  || (c =? 0x1680) || ((0x2000 <=? c) && (c <=? 0x200A))
  || (c =? 0x202F) || (c =? 0x205F) || (c =? 0x3000).

(** The six flags that the flag loop knows, and the mask of each. *)
Definition regExpFlags : list Z :=
  [Chars.LowerG; Chars.LowerI; Chars.LowerM; Chars.LowerU; Chars.LowerY;
   Chars.LowerS].

Definition regExpFlagMask (c : Z) : Z :=
  if c =? Chars.LowerG then RegexFlags.Global
  else if c =? Chars.LowerI then RegexFlags.IgnoreCase
  else if c =? Chars.LowerM then RegexFlags.Multiline
  else if c =? Chars.LowerU then RegexFlags.Unicode
  else if c =? Chars.LowerY then RegexFlags.Sticky
  else if c =? Chars.LowerS then RegexFlags.DotAll
  else 0.

(** The state in which a loop of the regular-expression scanner is left. *)
Definition exitState (r : LoopExit) : ParserState :=
  match r with LoopDone p => p | LoopError p => p end.

(** The units that the source holds from the cursor on are those of [l]. *)
Definition reads (p : ParserState) (l : list Z) : Prop :=
  forall k, (k < List.length l)%nat ->
    charCodeAt (source p) (index p + Z.of_nat k) = Num (nth k l 0).

(** The text of each punctuator; the empty text for every other kind. *)
Definition punctuatorText (t : Token.t) : list Z :=
  match t with
  | Token.RightBrace => [0x7D] | Token.LeftBrace => [0x7B]
  | Token.Comma => [0x2C] | Token.Colon => [0x3A]
  | Token.Complement => [0x7E]
  | Token.LeftParen => [0x28] | Token.RightParen => [0x29]
  | Token.Semicolon => [0x3B]
  | Token.LeftBracket => [0x5B] | Token.RightBracket => [0x5D]
  | Token.Period => [0x2E] | Token.Ellipsis => [0x2E; 0x2E; 0x2E]
  | Token.LessThan => [0x3C] | Token.ShiftLeft => [0x3C; 0x3C]
  | Token.ShiftLeftAssign => [0x3C; 0x3C; 0x3D]
  | Token.LessThanOrEqual => [0x3C; 0x3D]
  | Token.QuestionMark => [0x3F] | Token.Coalesce => [0x3F; 0x3F]
  | Token.QuestionMarkPeriod => [0x3F; 0x2E]
  | Token.Assign => [0x3D] | Token.LooseEqual => [0x3D; 0x3D]
  | Token.StrictEqual => [0x3D; 0x3D; 0x3D] | Token.Arrow => [0x3D; 0x3E]
  | Token.Negate => [0x21] | Token.LooseNotEqual => [0x21; 0x3D]
  | Token.StrictNotEqual => [0x21; 0x3D; 0x3D]
  | Token.Modulo => [0x25] | Token.ModuloAssign => [0x25; 0x3D]
  | Token.Multiply => [0x2A] | Token.MultiplyAssign => [0x2A; 0x3D]
  | Token.Exponentiate => [0x2A; 0x2A]
  | Token.ExponentiateAssign => [0x2A; 0x2A; 0x3D]
  | Token.BitwiseXor => [0x5E] | Token.BitwiseXorAssign => [0x5E; 0x3D]
  | Token.Add => [0x2B] | Token.Increment => [0x2B; 0x2B]
  | Token.AddAssign => [0x2B; 0x3D]
  | Token.Subtract => [0x2D] | Token.Decrement => [0x2D; 0x2D]
  | Token.SubtractAssign => [0x2D; 0x3D]
  | Token.Divide => [0x2F] | Token.DivideAssign => [0x2F; 0x3D]
  | Token.BitwiseOr => [0x7C] | Token.LogicalOr => [0x7C; 0x7C]
  | Token.BitwiseOrAssign => [0x7C; 0x3D]
  | Token.GreaterThan => [0x3E] | Token.GreaterThanOrEqual => [0x3E; 0x3D]
  | Token.ShiftRight => [0x3E; 0x3E]
  | Token.ShiftRightAssign => [0x3E; 0x3E; 0x3D]
  | Token.LogicalShiftRight => [0x3E; 0x3E; 0x3E]
  | Token.LogicalShiftRightAssign => [0x3E; 0x3E; 0x3E; 0x3D]
  | Token.BitwiseAnd => [0x26] | Token.LogicalAnd => [0x26; 0x26]
  | Token.BitwiseAndAssign => [0x26; 0x3D]
  | _ => []
  end.

(** The families of the dispatch table that the dispatcher scans with its
    own code on every input. *)
Definition punctuatorFamilies : list Token.t :=
  [Token.RightBrace; Token.LeftBrace; Token.Comma; Token.Colon;
   Token.Complement; Token.LeftParen; Token.RightParen; Token.Semicolon;
   Token.LeftBracket; Token.RightBracket; Token.Assign; Token.Negate;
   Token.Modulo; Token.Multiply; Token.BitwiseXor; Token.Add;
   Token.BitwiseOr; Token.GreaterThan; Token.BitwiseAnd; Token.QuestionMark].

(** [p'] is [p] after a token of [n] units that starts at the cursor has been
    scanned on the spot: the cursor and the column are [n] further on, the
    cache is current, the token starts at the old cursor and nothing else has
    changed. *)
Definition scannedInPlace (p : ParserState) (n : Z) (p' : ParserState)
  : Prop :=
  source p' = source p
  /\ length p' = length p
  /\ diagnostics p' = diagnostics p
  /\ line p' = line p
  /\ precedingLineBreak p' = precedingLineBreak p
  /\ startPos p' = startPos p
  /\ tokenPos p' = index p
  /\ index p' = index p + n
  /\ column p' = column p + n
  /\ nextCodePoint p' = charCodeAt (source p) (index p + n)
  /\ index p + n <= Z.of_nat (List.length (source p)).

(** The condition under which the dispatcher scans a period, a hyphen or a
    slash with its own code: no digit after the period; no HTML close comment
    at the hyphen; neither a comment nor a regular expression at the
    slash. *)
Definition scansOnTheSpot {E : Externals} (context : Context)
  (isStartOfLine : bool) (p : ParserState) (family : Token.t) : bool :=
  let next := charCodeAt (source p) (index p + 1) in
  match family with
  | Token.Period => negb (js_ge next Chars.Zero && js_le next Chars.Nine)
  | Token.Subtract =>
    negb (js_eq next Chars.Hyphen
          && ((Z.land context Context_Module =? 0)
              && (precedingLineBreak p || isStartOfLine)
              && js_eq (charCodeAt (source p) (index p + 2))
                   Chars.GreaterThan))
  | Token.Divide =>
    negb (js_eq next Chars.Slash || js_eq next Chars.Asterisk
          || hasFlag context Context_AllowRegExp)
  | _ => false
  end.

(** The units up to 0x7E that the dispatcher skips as white space, the four
    line terminators, and what a run of such units does to the line and the
    column: every line terminator counts one line and resets the column. *)
Definition isBlankUnit (c : Z) : bool :=
  (c =? 0x09) || (c =? 0x0B) || (c =? 0x0C) || (c =? 0x20).

Definition isLineBreakUnit (c : Z) : bool :=
  (c =? 0x0A) || (c =? 0x0D) || (c =? 0x2028) || (c =? 0x2029).

Definition isTrivia (c : Z) : bool := isBlankUnit c || isLineBreakUnit c.

Definition lineBreaks (l : list Z) : Z :=
  Z.of_nat (List.length (filter isLineBreakUnit l)).

Definition columnAfter (column : Z) (l : list Z) : Z :=
  fold_left (fun col c => if isLineBreakUnit c then 0 else col + 1) l column.

(** [q] is [p] after the run [l] of white space and line terminators at the
    cursor has been skipped. *)
Definition triviaSkipped (p : ParserState) (l : list Z) (q : ParserState)
  : Prop :=
  source q = source p
  /\ length q = length p
  /\ diagnostics q = diagnostics p
  /\ startPos q = startPos p
  /\ index q = index p + Z.of_nat (List.length l)
  /\ line q = line p + lineBreaks l
  /\ column q = columnAfter (column p) l
  /\ precedingLineBreak q
     = (precedingLineBreak p || existsb isLineBreakUnit l)
  /\ nextCodePoint q = charCodeAt (source p) (index q).

(** The pairs of flags whose masks share a bit: [s] with [m] and with [y]. *)
Definition flagsClash (a b : Z) : Prop :=
  (a = Chars.LowerS /\ (b = Chars.LowerM \/ b = Chars.LowerY))
  \/ (b = Chars.LowerS /\ (a = Chars.LowerM \/ a = Chars.LowerY)).

(** * Properties *)

(** Reduction of the record operations only, and evaluation of the tests
    whose operands are closed. *)
Ltac state_simpl :=
  cbn [advance report returning fst snd
       set_index set_nextCodePoint set_line set_column set_tokenPos
       set_startPos set_precedingLineBreak set_token set_tokenValue
       set_tokenRaw set_tokenRegExp set_diagnostics
       source index length nextCodePoint line column tokenPos startPos
       precedingLineBreak token tokenValue tokenRaw tokenRegExp diagnostics]
    in *.

Ltac eval_closed t :=
  let v := eval vm_compute in t in change t with v.

Ltac eval_tests :=
  repeat match goal with
         | |- context [js_eq (Num ?a) ?b] => eval_closed (js_eq (Num a) b)
         | |- context [js_ne (Num ?a) ?b] => eval_closed (js_ne (Num a) b)
         | |- context [js_le (Num ?a) ?b] => eval_closed (js_le (Num a) b)
         | |- context [js_ge (Num ?a) ?b] => eval_closed (js_ge (Num a) b)
         | |- context [js_xor (Num ?a) ?b] => eval_closed (js_xor (Num a) b)
         | |- context [js_and (Num ?a) ?b] => eval_closed (js_and (Num a) b)
         | |- context [firstCharKind (Num ?a)] =>
           eval_closed (firstCharKind (Num a))
         end;
  cbn [andb orb negb].

(** ** The cursor under [advance] and [report] *)

Lemma advance_index (p : ParserState) : index (advance p) = index p + 1.
Proof. reflexivity. Qed.

Lemma advance_nextCodePoint (p : ParserState) :
  nextCodePoint (advance p) = charCodeAt (source p) (index p + 1).
Proof. reflexivity. Qed.

Lemma charCodeAt_in_range (s : list Z) (i : Z) :
  0 <= i < Z.of_nat (List.length s) ->
  charCodeAt s i = Num (nth (Z.to_nat i) s 0).
Proof.
  intros H. unfold charCodeAt.
  destruct (Z.leb_spec 0 i); destruct (Z.ltb_spec i (Z.of_nat (List.length s)));
    simpl; try reflexivity; lia.
Qed.

Lemma charCodeAt_past_end (s : list Z) (i : Z) :
  Z.of_nat (List.length s) <= i -> charCodeAt s i = NaN.
Proof.
  intros H. unfold charCodeAt.
  destruct (Z.ltb_spec i (Z.of_nat (List.length s))); [lia|].
  now rewrite andb_false_r.
Qed.

Lemma charCodeAt_Num (s : list Z) (i z : Z) :
  charCodeAt s i = Num z -> 0 <= i < Z.of_nat (List.length s).
Proof.
  unfold charCodeAt.
  destruct (Z.leb_spec 0 i); destruct (Z.ltb_spec i (Z.of_nat (List.length s)));
    simpl; intros Hc; try discriminate; lia.
Qed.

(** ** The regular-expression scanner always answers *)

Section RegExpTotal.
Context {E : Externals}.

Lemma scanRegExpBody_total (context : Context) :
  forall fuel preparseState p,
    (Z.to_nat (Z.of_nat (List.length (source p)) - index p) < fuel)%nat ->
    exists r, scanRegExpBody fuel context preparseState p = Some r.
Proof.
  induction fuel as [|fuel IH]; intros ps p Hfuel; [lia|].
  simpl. destruct (regExpBodyCase ps (nextCodePoint p)) as [|ps'|]; eauto.
  destruct (Z.leb_spec (Z.of_nat (List.length (source p))) (index p + 1))
    as [Hend|Hmore]; eauto.
  apply IH. simpl. lia.
Qed.

(** A flag that the [switch] lets through is one that was read from the
    source, and the cursor has not moved. *)
Lemma regExpFlagCase_break (context : Context) (mask mask' : Z) (char : num)
  (p p' : ParserState) :
  regExpFlagCase context mask char p = FlagBreak mask' p' ->
  (exists z, char = Num z) /\ source p' = source p /\ index p' = index p.
Proof.
  unfold regExpFlagCase. destruct char as [|z]; simpl; [discriminate|].
  intros H. split; [eauto|].
  repeat match type of H with
         | (if ?c then _ else _) = _ => destruct c
         end;
    inversion H; subst; split;
    try match goal with
        | |- context [if ?c then _ else _] => destruct c
        end;
    reflexivity.
Qed.

Lemma scanRegExpFlags_S (fuel : nat) (context : Context) (mask : Z)
  (char : num) (p : ParserState) :
  scanRegExpFlags (S fuel) context mask char p =
  if isIdentifierPart char then
    match regExpFlagCase context mask char p with
    | FlagReturn p' => Some (LoopError p')
    | FlagBreak mask' p' =>
      scanRegExpFlags fuel context mask' (nextCodePoint (advance p')) (advance p')
    end
  else Some (LoopDone p).
Proof. reflexivity. Qed.

Lemma scanRegExpFlags_total_cached (context : Context) :
  forall fuel mask p,
    (Z.to_nat (Z.of_nat (List.length (source p)) - index p) < fuel)%nat ->
    exists r,
      scanRegExpFlags fuel context mask (charCodeAt (source p) (index p)) p
      = Some r.
Proof.
  induction fuel as [|fuel IH]; intros mask p Hfuel; [lia|].
  rewrite scanRegExpFlags_S. destruct (isIdentifierPart _); eauto.
  destruct (regExpFlagCase _ _ _ _) as [mask' p'|p'] eqn:Hcase; eauto.
  apply regExpFlagCase_break in Hcase as ([z Hz] & Hsrc & Hidx).
  apply charCodeAt_Num in Hz.
  apply (IH mask' (advance p')). simpl. rewrite Hsrc, Hidx. lia.
Qed.

Lemma scanRegExpFlags_total (context : Context) (mask : Z) (char : num)
  (p : ParserState) :
  exists r, scanRegExpFlags (regExpFuel p) context mask char p = Some r.
Proof.
  unfold regExpFuel. rewrite scanRegExpFlags_S.
  destruct (isIdentifierPart _); eauto.
  destruct (regExpFlagCase _ _ _ _) as [mask' p'|p'] eqn:Hcase; eauto.
  apply regExpFlagCase_break in Hcase as (_ & Hsrc & Hidx).
  apply (scanRegExpFlags_total_cached context _ mask' (advance p')).
  simpl. rewrite Hsrc, Hidx. lia.
Qed.

Lemma scanRegularExpression_total (p : ParserState) (context : Context) :
  exists r, scanRegularExpression p context = Some r.
Proof.
  unfold scanRegularExpression.
  destruct (scanRegExpBody_total context (regExpFuel p) RegexState.Empty p)
    as [[p1|p1] ->]; [unfold regExpFuel; lia| |eauto].
  destruct (scanRegExpFlags_total context RegexFlags.Empty (nextCodePoint p1) p1)
    as [[p2|p2] ->]; [|eauto].
  destruct (validate _ _ _ _); eauto.
Qed.

End RegExpTotal.

(** ** Termination of the dispatcher *)

Section Termination.
Context {E : Externals}.
Hypothesis skippers : skippers_advance E.

Ltac split_conditions :=
  repeat match goal with
         | |- context [if ?c then _ else _] => destruct c
         end.

Ltac progress_by_cases :=
  cbv beta delta [progress returning] iota zeta; split_conditions;
  simpl; auto; try (split; [lia|reflexivity]).

Lemma scanLessThan_progress (p : ParserState) (lastIsCR : bool) :
  progress p (scanLessThan lastIsCR (set_tokenPos (index p) p)).
Proof.
  unfold scanLessThan. progress_by_cases.
  match goal with
  | |- context [skipSingleLineComment ?q] =>
    destruct (proj1 skippers q) as [Hi Hl]; simpl in Hi, Hl
  end.
  split; [lia|congruence].
Qed.

Lemma scanSubtract_progress (p : ParserState) (context : Context)
  (isStartOfLine lastIsCR : bool) :
  progress p
    (scanSubtract context isStartOfLine lastIsCR (set_tokenPos (index p) p)).
Proof.
  unfold scanSubtract. progress_by_cases.
  match goal with
  | |- context [skipSingleLineComment ?q] =>
    destruct (proj1 skippers q) as [Hi Hl]; simpl in Hi, Hl
  end.
  split; [lia|congruence].
Qed.

Lemma scanDivide_progress (p : ParserState) (context : Context)
  (lastIsCR : bool) :
  progress p (scanDivide context lastIsCR (set_tokenPos (index p) p)).
Proof.
  unfold scanDivide.
  cbv beta delta [progress returning] iota zeta.
  destruct (js_eq _ Chars.Slash).
  { match goal with
    | |- context [skipSingleLineComment ?q] =>
      destruct (proj1 skippers q) as [Hi Hl]; simpl in Hi, Hl
    end.
    split; [lia|congruence]. }
  destruct (js_eq _ Chars.Asterisk).
  { match goal with
    | |- context [skipMultiLineComment ?q ?c] =>
      destruct (proj2 skippers q c) as [Hi Hl]; simpl in Hi, Hl;
        destruct (skipMultiLineComment q c) as [state p']
    end.
    simpl in Hi, Hl. destruct (state <? 1); [exact I|].
    split; [lia|congruence]. }
  destruct (hasFlag context Context_AllowRegExp).
  { match goal with
    | |- context [scanRegularExpression ?q ?c] =>
      destruct (scanRegularExpression_total q c) as [r ->]
    end.
    exact I. }
  destruct (js_eq _ Chars.EqualSign); exact I.
Qed.

Lemma scanAfterSwitch_progress (p : ParserState) (context : Context)
  (lastIsCR : bool) (char : num) :
  progress p (scanAfterSwitch context lastIsCR char (set_tokenPos (index p) p)).
Proof. unfold scanAfterSwitch. progress_by_cases. Qed.

(** Every turn of the loop returns a token or moves [index] forward. *)
Lemma scanIteration_progress (p : ParserState) (context : Context)
  (isStartOfLine lastIsCR : bool) :
  progress p (scanIteration context isStartOfLine lastIsCR p).
Proof.
  unfold scanIteration. cbv zeta.
  destruct (js_le _ 0x7e); [|apply scanAfterSwitch_progress].
  destruct (firstCharKind _) as [[]|];
    try apply scanAfterSwitch_progress;
    try apply scanLessThan_progress;
    try apply scanSubtract_progress;
    try apply scanDivide_progress;
    try exact I;
    try (unfold scanCarriageReturn, scanLineFeed, scanPeriod, scanQuestionMark,
           scanAssign, scanNegate, scanModulo, scanMultiply, scanBitwiseXor,
           scanAdd, scanBitwiseOr, scanGreaterThan, scanBitwiseAnd;
         progress_by_cases).
Qed.

Lemma scanLoop_S (fuel : nat) (context : Context)
  (isStartOfLine lastIsCR : bool) (p : ParserState) :
  scanLoop (S fuel) context isStartOfLine lastIsCR p =
  if index p <? length p then
    match scanIteration context isStartOfLine lastIsCR p with
    | None => None
    | Some (Return token p') => Some (token, p')
    | Some (Continue lastIsCR' p') =>
      scanLoop fuel context isStartOfLine lastIsCR' p'
    end
  else Some (Token.EndOfSource, p).
Proof. reflexivity. Qed.

Lemma scanLoop_total (context : Context) (isStartOfLine : bool) :
  forall fuel lastIsCR p,
    (Z.to_nat (length p - index p) < fuel)%nat ->
    exists token p',
      scanLoop fuel context isStartOfLine lastIsCR p = Some (token, p').
Proof.
  induction fuel as [|fuel IH]; intros lastIsCR p Hfuel; [lia|].
  rewrite scanLoop_S.
  destruct (Z.ltb_spec (index p) (length p)) as [Hlt|Hge]; [|eauto].
  pose proof (scanIteration_progress p context isStartOfLine lastIsCR) as Hp.
  destruct (scanIteration _ _ _ _) as [[token p'|lastIsCR' p']|];
    simpl in Hp; [eauto| |contradiction].
  apply IH. destruct Hp as [Hi Hl]. rewrite Hl. lia.
Qed.

End Termination.

(** An answer of the loop does not depend on the fuel that was left. *)
Lemma scanLoop_fuel (E : Externals) (context : Context) (isStartOfLine : bool)
  (r : Token.t * ParserState) :
  forall fuel fuel' lastIsCR p,
    (fuel <= fuel')%nat ->
    scanLoop fuel context isStartOfLine lastIsCR p = Some r ->
    scanLoop fuel' context isStartOfLine lastIsCR p = Some r.
Proof.
  induction fuel as [|fuel IH]; intros fuel' lastIsCR p Hle Hrun;
    [discriminate|].
  destruct fuel' as [|fuel']; [lia|].
  rewrite scanLoop_S in *.
  destruct (index p <? length p); [|assumption].
  destruct (scanIteration _ _ _ _) as [[token p'|lastIsCR' p']|];
    try assumption.
  apply IH; [lia|assumption].
Qed.

(** C10.  [scanSingleToken] terminates on every input: each turn of its main
    loop either returns a token or moves [parser.index] forward by at least
    one unit, the loop answers within [length - index + 1] tests of its
    condition, and it answers [EndOfSource] as soon as [index] has reached
    the length.  The imported comment skippers are required not to move the
    cursor backwards. *)
Theorem scanSingleToken_terminates (E : Externals) (parser : ParserState)
  (context : Context) :
  skippers_advance E ->
  (forall isStartOfLine lastIsCR,
      progress parser (scanIteration context isStartOfLine lastIsCR parser))
  /\ (exists token parser',
         scanSingleToken (scanFuel parser) parser context
         = Some (token, parser'))
  /\ (length parser <= index parser ->
      forall fuel,
        scanSingleToken (S fuel) parser context
        = Some (Token.EndOfSource, parser)).
Proof.
  intros skippers. split; [|split].
  - intros isStartOfLine lastIsCR. now apply scanIteration_progress.
  - unfold scanSingleToken, scanFuel. apply scanLoop_total; [assumption|lia].
  - intros Hend fuel. unfold scanSingleToken. rewrite scanLoop_S.
    destruct (Z.ltb_spec (index parser) (length parser)); [lia|reflexivity].
Qed.

(** The reference skippers never move the cursor backwards. *)
Lemma skipWhile_advances (f : num -> bool) :
  forall fuel p,
    index p <= index (Reference.skipWhile f fuel p)
    /\ length (Reference.skipWhile f fuel p) = length p.
Proof.
  induction fuel as [|fuel IH]; intros p; simpl; [split; [lia|reflexivity]|].
  destruct (_ && _); [|split; [lia|reflexivity]].
  destruct (IH (advance p)) as [Hi Hl]. simpl in Hi, Hl. split; [lia|assumption].
Qed.

Lemma skipMultiLineLoop_advances (context : Context) :
  forall fuel crossed p,
    index p <= index (snd (Reference.skipMultiLineLoop fuel context crossed p))
    /\ length (snd (Reference.skipMultiLineLoop fuel context crossed p))
       = length p.
Proof.
  induction fuel as [|fuel IH]; intros crossed p; simpl;
    [split; [lia|reflexivity]|].
  destruct (_ <=? _); [simpl; split; [lia|reflexivity]|].
  destruct (_ && _); [simpl; split; [lia|reflexivity]|].
  destruct (Reference.isLineTerminator _).
  - match goal with
    | |- context [Reference.skipMultiLineLoop fuel context true ?q] =>
      destruct (IH true q) as [Hi Hl]
    end.
    simpl in Hi, Hl. split; [lia|assumption].
  - destruct (IH crossed (advance p)) as [Hi Hl].
    simpl in Hi, Hl. split; [lia|assumption].
Qed.

Lemma reference_skippers_advance : skippers_advance Reference.externals.
Proof.
  split.
  - intros p. simpl. unfold Reference.skipSingleLine.
    destruct (skipWhile_advances (fun c => negb (Reference.isLineTerminator c))
                (Reference.remaining p) p) as [Hi Hl].
    split; assumption.
  - intros p context. simpl. unfold Reference.skipMultiLine.
    apply skipMultiLineLoop_advances.
Qed.

(** The source [a // b], then a line feed and [c]: the second turn of the loop
    runs through the single-line comment skipper. *)
Lemma scanSingleToken_terminates_witness :
  skippers_advance Reference.externals
  /\ (forall isStartOfLine lastIsCR,
         progress (advance (create [0x61; 0x2F; 0x2F; 0x62; 0x0A; 0x63]))
           (scanIteration (E := Reference.externals) 0 isStartOfLine lastIsCR
              (advance (create [0x61; 0x2F; 0x2F; 0x62; 0x0A; 0x63]))))
  /\ (exists token parser',
         scanSingleToken (E := Reference.externals)
           (scanFuel (advance (create [0x61; 0x2F; 0x2F; 0x62; 0x0A; 0x63])))
           (advance (create [0x61; 0x2F; 0x2F; 0x62; 0x0A; 0x63])) 0
         = Some (token, parser')).
Proof.
  split; [exact reference_skippers_advance|].
  pose proof (scanSingleToken_terminates Reference.externals
                (advance (create [0x61; 0x2F; 0x2F; 0x62; 0x0A; 0x63])) 0
                reference_skippers_advance) as [Hturn [Hloop _]].
  split; assumption.
Defined.

(** ** The cached code unit *)

Lemma charCodeAt_current (p : ParserState) (q : ParserState) :
  source q = source p ->
  nextCodePoint q = charCodeAt (source p) (index q) ->
  nextCodePoint_current q.
Proof.
  intros Hs Hc. unfold nextCodePoint_current. rewrite Hc, Hs. split; intros H.
  - now apply charCodeAt_in_range.
  - now apply charCodeAt_past_end.
Qed.

(** The turn of the loop on a line terminator. *)
Lemma scanIteration_line_terminator (E : Externals) (context : Context)
  (isStartOfLine lastIsCR : bool) (p : ParserState) (c : Z) :
  nextCodePoint p = Num c ->
  In c [Chars.LineFeed; Chars.CarriageReturn; Chars.LineSeparator;
        Chars.ParagraphSeparator] ->
  exists p',
    scanIteration context isStartOfLine lastIsCR p = Some (Continue false p')
    /\ source p' = source p
    /\ index p' = index p + 1
    /\ nextCodePoint p' = charCodeAt (source p) (index p + 1)
    /\ precedingLineBreak p' = true
    /\ column p' = (if (c =? Chars.LineFeed) && lastIsCR then column p
                    else 0)
    /\ line p' = (if (c =? Chars.LineFeed) && lastIsCR then line p
                  else line p + 1).
Proof.
  intros Hc Hin. unfold scanIteration. cbv zeta.
  change (nextCodePoint (set_tokenPos (index p) p)) with (nextCodePoint p).
  rewrite Hc.
  destruct Hin as [<-|[<-|[<-|[<-|[]]]]].
  - destruct lastIsCR; eexists; (split; [reflexivity|]); simpl; auto 10.
  - eexists; (split; [reflexivity|]); simpl; auto 10.
  - eexists; (split; [reflexivity|]); simpl; auto 10.
  - eexists; (split; [reflexivity|]); simpl; auto 10.
Qed.

(** C7 (amended).  [advance] and the line-terminator handling of
    [scanSingleToken] leave [nextCodePoint] equal to what [charCodeAt] answers
    at [index]: the code unit [source[index]] while [index] is inside the
    source, and [NaN], not 0, once [index] has reached its end. *)
Theorem nextCodePoint_follows_index (E : Externals) (context : Context)
  (isStartOfLine lastIsCR : bool) (p : ParserState) :
  nextCodePoint_current (advance p)
  /\ (forall c,
         nextCodePoint p = Num c ->
         In c [Chars.LineFeed; Chars.CarriageReturn; Chars.LineSeparator;
               Chars.ParagraphSeparator] ->
         exists lastIsCR' p',
           scanIteration context isStartOfLine lastIsCR p
           = Some (Continue lastIsCR' p')
           /\ index p' = index p + 1
           /\ nextCodePoint_current p').
Proof.
  split.
  - now apply (charCodeAt_current p).
  - intros c Hc Hin.
    destruct (scanIteration_line_terminator E context isStartOfLine lastIsCR
                p c Hc Hin) as (p' & Hstep & Hs & Hi & Hn & _).
    exists false, p'. split; [assumption|]. split; [assumption|].
    apply (charCodeAt_current p); [assumption|]. now rewrite Hi.
Qed.

Lemma nextCodePoint_follows_index_witness :
  nextCodePoint (create [0x0D; 0x0A]) = Num 0x0D
  /\ In 0x0D [Chars.LineFeed; Chars.CarriageReturn; Chars.LineSeparator;
              Chars.ParagraphSeparator]
  /\ nextCodePoint_current (advance (create [0x0D; 0x0A]))
  /\ exists lastIsCR' p',
       scanIteration (E := Reference.externals) 0 true false
         (create [0x0D; 0x0A])
       = Some (Continue lastIsCR' p')
       /\ index p' = index (create [0x0D; 0x0A]) + 1
       /\ nextCodePoint_current p'.
Proof.
  split; [reflexivity|]. split; [simpl; auto|].
  destruct (nextCodePoint_follows_index Reference.externals 0 true false
              (create [0x0D; 0x0A])) as [Hadv Hline].
  split; [exact Hadv|].
  apply (Hline 0x0D); [reflexivity|simpl; auto].
Defined.

(** C7 as the specification words it fails at the end of the source: after
    [advance] over the only unit of the source [a], [index] equals the length
    and the cached unit is [NaN], not 0. *)
Lemma nextCodePoint_at_end_is_not_zero :
  ~ nextCodePoint_as_specified (advance (create [0x61])).
Proof.
  intros [_ Hend]. specialize (Hend eq_refl). discriminate Hend.
Qed.

(** ** Line terminators *)

(** A carriage return followed by a line feed takes two turns of the loop,
    and each of them bumps [line]: [lastIsCR], set by the carriage return, is
    cleared at the end of the same turn. *)
Lemma scanIteration_CR_LF (E : Externals) (context : Context)
  (isStartOfLine : bool) (p : ParserState) :
  nextCodePoint p = Num Chars.CarriageReturn ->
  charCodeAt (source p) (index p + 1) = Num Chars.LineFeed ->
  exists p1 p2,
    scanIteration context isStartOfLine false p = Some (Continue false p1)
    /\ scanIteration context isStartOfLine false p1 = Some (Continue false p2)
    /\ index p2 = index p + 2
    /\ line p2 = line p + 2
    /\ column p2 = 0.
Proof.
  intros Hcr Hlf.
  destruct (scanIteration_line_terminator E context isStartOfLine false p
              Chars.CarriageReturn Hcr)
    as (p1 & Hstep1 & Hs1 & Hi1 & Hn1 & _ & _ & Hl1); [simpl; auto|].
  rewrite Hlf in Hn1.
  destruct (scanIteration_line_terminator E context isStartOfLine false p1
              Chars.LineFeed Hn1)
    as (p2 & Hstep2 & Hs2 & Hi2 & Hn2 & _ & Hc2 & Hl2); [simpl; auto|].
  exists p1, p2. simpl in Hl1, Hl2, Hc2.
  repeat split; try assumption; lia.
Qed.

(** C3.  On the source that consists of a carriage return and a line feed,
    [nextToken] reaches the end of the source with [column == 0] but with
    [line == 3]: the pair has been counted as two line terminators. *)
Theorem nextToken_CRLF_counts_two_lines (E : Externals) (context : Context) :
  exists p',
    nextToken 3 (create [Chars.CarriageReturn; Chars.LineFeed]) context
    = Some (Token.EndOfSource, p')
    /\ index p' = 2
    /\ line (create [Chars.CarriageReturn; Chars.LineFeed]) = 1
    /\ line p' = 3
    /\ column p' = 0.
Proof.
  eexists. split; [vm_compute; reflexivity|]. simpl. auto.
Qed.

(** ** Characters that the table marks as errors *)

(** C2.  On a code unit up to 0x7E that [firstCharKinds] maps to
    [Token.Error], a control character or the at sign, [scanSingleToken]
    returns [Token.Error] after [advance] alone: the diagnostics are those of
    the state it was given, nothing has been reported. *)
Theorem ascii_error_is_not_reported (E : Externals) (fuel : nat)
  (context : Context) (p : ParserState) (c : Z) :
  index p < length p ->
  nextCodePoint p = Num c ->
  c <= 0x7e ->
  firstCharKind (Num c) = Some Token.Error ->
  exists p',
    scanSingleToken (S fuel) p context = Some (Token.Error, p')
    /\ p' = advance (set_tokenPos (index p) p)
    /\ diagnostics p' = diagnostics p.
Proof.
  intros Hlt Hc Hle Hkind. eexists. split; [|split; reflexivity].
  unfold scanSingleToken. rewrite scanLoop_S.
  destruct (Z.ltb_spec (index p) (length p)); [|lia].
  unfold scanIteration. cbv zeta.
  change (nextCodePoint (set_tokenPos (index p) p)) with (nextCodePoint p).
  rewrite Hc, Hkind. simpl.
  destruct (Z.leb_spec c 126); [reflexivity|lia].
Qed.

Lemma ascii_error_is_not_reported_witness :
  exists p',
    scanSingleToken (E := Reference.externals) 1 (create [0x40]) 0
    = Some (Token.Error, p')
    /\ p' = advance (set_tokenPos (index (create [0x40])) (create [0x40]))
    /\ diagnostics p' = diagnostics (create [0x40]).
Proof.
  apply (ascii_error_is_not_reported Reference.externals 0 0 (create [0x40])
           0x40); [reflexivity|reflexivity|lia|reflexivity].
Defined.

(** The sibling path: a unit above 0x7E that is neither a line separator nor
    an identifier start nor white space is reported as [InvalidCharacter]
    before [Token.Error] is returned; so is the delete character 0x7F. *)
Lemma delete_character_is_reported (E : Externals) (context : Context) :
  unicodeBit 34816 (Num 0x7F) = 0 ->
  scanSingleToken 1 (create [0x7F]) context
  = Some (Token.Error,
          report (set_tokenPos 0 (create [0x7F])) context
            Errors.InvalidCharacter []).
Proof.
  intros Hbit. unfold scanSingleToken. rewrite scanLoop_S.
  cbv -[unicodeBit]. rewrite Hbit. reflexivity.
Qed.

(** ** The question mark *)

(** With [OptionsNext], a question mark followed by a period: the unit after
    the period, coerced by [| 0], decides between the two tokens. *)
Lemma scanIteration_question_period (E : Externals) (context : Context)
  (isStartOfLine lastIsCR : bool) (p : ParserState) :
  hasFlag context Context_OptionsNext = true ->
  nextCodePoint p = Num Chars.QuestionMark ->
  charCodeAt (source p) (index p + 1) = Num Chars.Period ->
  scanIteration context isStartOfLine lastIsCR p =
  let ch := js_or0 (charCodeAt (source p) (index p + 2)) in
  if (Chars.Nine <? ch) || (ch <=? Chars.Zero) then
    Some (Return Token.QuestionMarkPeriod
            (advance (advance (set_tokenPos (index p) p))))
  else Some (Return Token.QuestionMark (advance (set_tokenPos (index p) p))).
Proof.
  intros Hnext Hq Hdot. unfold scanIteration. cbv zeta. state_simpl.
  rewrite Hq. eval_tests. cbv iota beta.
  unfold scanQuestionMark. cbv zeta. rewrite Hnext. state_simpl.
  rewrite Hdot. eval_tests. cbv iota beta.
  replace (index p + 1 + 1) with (index p + 2) by lia.
  reflexivity.
Qed.

(** For the digits 1 to 9 after the period the dispatcher backs off to the
    question mark alone. *)
Lemma question_period_digit_1_to_9 (E : Externals) (context : Context)
  (isStartOfLine lastIsCR : bool) (p : ParserState) (d : Z) :
  hasFlag context Context_OptionsNext = true ->
  nextCodePoint p = Num Chars.QuestionMark ->
  charCodeAt (source p) (index p + 1) = Num Chars.Period ->
  charCodeAt (source p) (index p + 2) = Num d ->
  Chars.Zero < d <= Chars.Nine ->
  scanIteration context isStartOfLine lastIsCR p
  = Some (Return Token.QuestionMark (advance (set_tokenPos (index p) p))).
Proof.
  intros Hnext Hq Hdot Hd Hrange.
  rewrite scanIteration_question_period by assumption.
  cbv zeta. rewrite Hd. unfold js_or0, toInt32, int32, Chars.Zero, Chars.Nine in *.
  rewrite Z.mod_small by lia.
  destruct (Z.ltb_spec 57 (d + 2 ^ 31 - 2 ^ 31)); [lia|].
  destruct (Z.leb_spec (d + 2 ^ 31 - 2 ^ 31) 48); [lia|].
  reflexivity.
Qed.

(** C5.  With [OptionsNext], on a question mark, a period and the digit 0,
    [scanSingleToken] returns [QuestionMarkPeriod] and consumes the period:
    the test [ch <= Chars.Zero] lets the digit 0 through. *)
Theorem question_period_zero_is_optional_chaining (E : Externals)
  (context : Context) (isStartOfLine lastIsCR : bool) (p : ParserState) :
  hasFlag context Context_OptionsNext = true ->
  nextCodePoint p = Num Chars.QuestionMark ->
  charCodeAt (source p) (index p + 1) = Num Chars.Period ->
  charCodeAt (source p) (index p + 2) = Num Chars.Zero ->
  scanIteration context isStartOfLine lastIsCR p
  = Some (Return Token.QuestionMarkPeriod
            (advance (advance (set_tokenPos (index p) p)))).
Proof.
  intros Hnext Hq Hdot Hzero.
  rewrite scanIteration_question_period by assumption.
  cbv zeta. rewrite Hzero. reflexivity.
Qed.

Lemma question_period_zero_is_optional_chaining_witness :
  scanIteration (E := Reference.externals) 1 true false
    (create [0x3F; 0x2E; 0x30])
  = Some (Return Token.QuestionMarkPeriod
            (advance (advance (set_tokenPos 0 (create [0x3F; 0x2E; 0x30]))))).
Proof.
  apply (question_period_zero_is_optional_chaining Reference.externals 1 true
           false (create [0x3F; 0x2E; 0x30])); reflexivity.
Defined.

(** ** The less-than sign *)

(** C1.  On a less-than sign followed by an exclamation mark and two hyphens
    the turn of the loop moves three units on, runs the single-line comment
    skipper and continues, whatever the context is: the [Module] bit is not
    read, so in [Module] context the sequence is a comment too and no
    [LessThan] is returned for it. *)
Theorem html_open_comment_in_every_context (E : Externals) (context : Context)
  (isStartOfLine lastIsCR : bool) (p : ParserState) :
  nextCodePoint p = Num Chars.LessThan ->
  index p + 1 < length p ->
  charCodeAt (source p) (index p + 1) = Num Chars.Exclamation ->
  charCodeAt (source p) (index p + 2) = Num Chars.Hyphen ->
  charCodeAt (source p) (index p + 3) = Num Chars.Hyphen ->
  scanIteration context isStartOfLine lastIsCR p
  = Some (Continue lastIsCR
            (skipSingleLineComment
               (set_column (column p + 1 + 3)
                  (set_index (index p + 1 + 2)
                     (advance (set_tokenPos (index p) p)))))).
Proof.
  intros Hlt Hlen Hbang Hh1 Hh2. unfold scanIteration. cbv zeta. state_simpl.
  rewrite Hlt. eval_tests. cbv iota beta.
  unfold scanLessThan. cbv zeta. state_simpl.
  destruct (Z.ltb_spec (index p + 1) (length p)); [|lia].
  rewrite Hbang. eval_tests. cbv iota beta.
  replace (index p + 1 + 2) with (index p + 3) by lia.
  replace (index p + 1 + 1) with (index p + 2) by lia.
  rewrite Hh1, Hh2. eval_tests. cbv iota beta. reflexivity.
Qed.

(** The source [<!--] in the context whose only bit is [Module]. *)
Lemma html_open_comment_in_every_context_witness :
  hasFlag (Context_Module (Externals := Reference.externals))
    (Context_Module (Externals := Reference.externals)) = true
  /\ scanIteration (E := Reference.externals)
       (Context_Module (Externals := Reference.externals)) true false
       (create [0x3C; 0x21; 0x2D; 0x2D])
     = Some (Continue false
               (Reference.skipSingleLine
                  (set_column 4
                     (set_index 3
                        (advance
                           (set_tokenPos 0
                              (create [0x3C; 0x21; 0x2D; 0x2D]))))))).
Proof.
  split; [reflexivity|].
  apply (html_open_comment_in_every_context Reference.externals
           (Context_Module (Externals := Reference.externals)) true false
           (create [0x3C; 0x21; 0x2D; 0x2D])); reflexivity.
Defined.

(** With the reference skipper, [nextToken] in [Module] context consumes the
    whole of [<!--] as a comment and answers [EndOfSource], not [LessThan]. *)
Lemma html_open_comment_in_module_runs_to_end :
  exists p',
    nextToken (E := Reference.externals) 2 (create [0x3C; 0x21; 0x2D; 0x2D])
      (Context_Module (Externals := Reference.externals))
    = Some (Token.EndOfSource, p')
    /\ index p' = 4.
Proof. eexists. split; [vm_compute; reflexivity|reflexivity]. Qed.

(** The sibling path of the closing [-->] does read the [Module] bit: in
    [Module] context two hyphens are [Decrement] whatever follows. *)
Lemma html_close_comment_reads_module (E : Externals) (context : Context)
  (isStartOfLine lastIsCR : bool) (p : ParserState) :
  hasFlag context Context_Module = true ->
  nextCodePoint p = Num Chars.Hyphen ->
  index p + 1 < length p ->
  charCodeAt (source p) (index p + 1) = Num Chars.Hyphen ->
  scanIteration context isStartOfLine lastIsCR p
  = Some (Return Token.Decrement
            (advance (advance (set_tokenPos (index p) p)))).
Proof.
  intros Hmod Hh Hlen Hh2. unfold scanIteration. cbv zeta. state_simpl.
  rewrite Hh. eval_tests. cbv iota beta.
  unfold scanSubtract. cbv zeta. state_simpl.
  destruct (Z.leb_spec (length p) (index p + 1)); [lia|].
  rewrite Hh2. eval_tests. cbv iota beta.
  unfold hasFlag in Hmod. apply negb_true_iff in Hmod. rewrite Hmod.
  reflexivity.
Qed.

(** ** Surrogates *)

Lemma int32_small (z : Z) : - 2 ^ 31 <= z < 2 ^ 31 -> int32 z = z.
Proof. intros H. unfold int32. rewrite Z.mod_small; lia. Qed.

(** A test that holds on every member of [lo .. lo + n - 1], by enumeration. *)
Lemma range_check (P : Z -> bool) (lo : Z) (n : nat) :
  forallb P (map (fun k => lo + Z.of_nat k) (seq 0 n)) = true ->
  forall z, lo <= z < lo + Z.of_nat n -> P z = true.
Proof.
  intros Hall z Hz. rewrite forallb_forall in Hall. apply Hall.
  apply in_map_iff. exists (Z.to_nat (z - lo)). split; [lia|].
  apply in_seq. lia.
Qed.

Lemma high_surrogate_tests (hi : Z) :
  0xD800 <= hi <= 0xDBFF ->
  (js_xor (Num hi) Chars.LineSeparator <=? 1) = false
  /\ js_and (Num hi) 0xfc00 = 0xd800.
Proof.
  intros H.
  pose proof (range_check
                (fun z => negb (js_xor (Num z) Chars.LineSeparator <=? 1)
                          && (js_and (Num z) 0xfc00 =? 0xd800))
                0xD800 1024 ltac:(vm_compute; reflexivity) hi ltac:(lia)) as Hp.
  cbv beta in Hp. apply andb_true_iff in Hp as [Hx Ha].
  apply negb_true_iff in Hx. apply Z.eqb_eq in Ha. split; assumption.
Qed.

Lemma low_surrogate_test (lo : Z) :
  0xDC00 <= lo <= 0xDFFF -> js_and (Num lo) 0xfc00 = 0xdc00.
Proof.
  intros H.
  pose proof (range_check (fun z => js_and (Num z) 0xfc00 =? 0xdc00)
                0xDC00 1024 ltac:(vm_compute; reflexivity) lo ltac:(lia)) as Hp.
  now apply Z.eqb_eq in Hp.
Qed.

(** [consumeMultiUnitCodePoint] is the place where a surrogate pair is
    combined: it reads the unit after the cursor, caches the scalar
    [0x10000 + ((hi & 0x3ff) << 10) + (lo & 0x3ff)] and tests it against the
    bitmap at base 0. *)
Lemma consumeMultiUnitCodePoint_pair (E : Externals) (p : ParserState)
  (hi lo : Z) :
  0xD800 <= hi <= 0xDBFF ->
  charCodeAt (source p) (index p + 1) = Num lo ->
  0xDC00 <= lo <= 0xDFFF ->
  consumeMultiUnitCodePoint p (Num hi) =
  let scalar := 0x10000 + Z.shiftl (Z.land hi 0x3ff) 10 + Z.land lo 0x3ff in
  if unicodeBit 0 (Num scalar) =? 0
  then (Escape_InvalidCodePoint, set_nextCodePoint (Num scalar) p)
  else (1, set_index (index p + 1) (set_nextCodePoint (Num scalar) p)).
Proof.
  intros Hhi Hlo Hrange. unfold consumeMultiUnitCodePoint.
  rewrite Hlo.
  rewrite (proj2 (high_surrogate_tests hi Hhi)), (low_surrogate_test lo Hrange).
  cbn [negb Z.eqb Pos.eqb]. unfold js_and, toInt32.
  rewrite !int32_small by lia. reflexivity.
Qed.

(** On a high surrogate the dispatcher itself does not read the unit that
    follows: it hands the state to [scanIdentifierSlowPath] as it is, with the
    high surrogate still cached and nothing reported.  Its combining branch
    is guarded by a test for a low surrogate on the same unit.  What becomes
    of the pair is up to [scanIdentifierSlowPath], which is imported. *)
Lemma high_surrogate_is_not_combined (E : Externals) (context : Context)
  (isStartOfLine lastIsCR : bool) (p : ParserState) (hi : Z) :
  nextCodePoint p = Num hi ->
  0xD800 <= hi <= 0xDBFF ->
  scanIteration context isStartOfLine lastIsCR p
  = returning
      (scanIdentifierSlowPath (set_tokenPos (index p) p) context [] false).
Proof.
  intros Hc Hhi. destruct (high_surrogate_tests hi Hhi) as [Hx Ha].
  unfold scanIteration. cbv zeta.
  change (nextCodePoint (set_tokenPos (index p) p)) with (nextCodePoint p).
  rewrite Hc. unfold js_le.
  destruct (Z.leb_spec hi 126); [lia|].
  unfold scanAfterSwitch. rewrite Hx, Ha. reflexivity.
Qed.

(** The pair U+D83D U+DE00, the scalar U+1F600. *)
Lemma high_surrogate_is_not_combined_witness :
  scanIteration (E := Reference.externals) 0 true false
    (create [0xD83D; 0xDE00])
  = returning
      (scanIdentifierSlowPath (Externals := Reference.externals)
         (set_tokenPos 0 (create [0xD83D; 0xDE00])) 0 [] false).
Proof.
  apply (high_surrogate_is_not_combined Reference.externals 0 true false
           (create [0xD83D; 0xDE00]) 0xD83D); [reflexivity|lia].
Defined.

(** The combining branch of the dispatcher is entered on a low surrogate that
    the bitmap at base 34816 admits, and it combines that unit with itself:
    the unit that follows is not read. *)
Lemma low_surrogate_is_combined_with_itself (E : Externals)
  (context : Context) (isStartOfLine lastIsCR : bool) (p : ParserState)
  (lo : Z) :
  nextCodePoint p = Num lo ->
  0xDC00 <= lo <= 0xDFFF ->
  unicodeBit 34816 (Num lo) <> 0 ->
  unicodeBit 0
    (Num (Z.lor (Z.lor (Z.shiftl (Z.land lo 0x3ff) 10) (Z.land lo 0x3ff))
            0x10000)) = 0 ->
  scanIteration context isStartOfLine lastIsCR p
  = Some (Return Token.Error
            (report (set_tokenPos (index p) p) context
               Errors.InvalidSMPCharacter [])).
Proof.
  intros Hc Hlo Hstart Hscalar.
  pose proof (range_check
                (fun z => negb (js_xor (Num z) Chars.LineSeparator <=? 1))
                0xDC00 1024 ltac:(vm_compute; reflexivity) lo ltac:(lia)) as Hx.
  cbv beta in Hx. apply negb_true_iff in Hx.
  unfold scanIteration. cbv zeta.
  change (nextCodePoint (set_tokenPos (index p) p)) with (nextCodePoint p).
  rewrite Hc. unfold js_le.
  destruct (Z.leb_spec lo 126); [lia|].
  unfold scanAfterSwitch. rewrite Hx, (low_surrogate_test lo Hlo).
  apply Z.eqb_neq in Hstart. rewrite Hstart.
  cbn [Z.eqb Pos.eqb orb negb].
  unfold js_and, toInt32. rewrite !int32_small by lia.
  rewrite Hscalar. reflexivity.
Qed.

(** ** White space above 0x7E *)

(** The set that [isExoticECMAScriptWhitespace] accepts: the specified white
    space other than LS and PS, and two more units, U+0085 and U+200B. *)
Lemma isExoticECMAScriptWhitespace_set (c : Z) :
  isExoticECMAScriptWhitespace (Num c) = true <->
  (specified_insignificant c = true
   /\ c <> Chars.LineSeparator /\ c <> Chars.ParagraphSeparator)
  \/ c = Chars.NextLine \/ c = Chars.ZeroWidthSpace.
Proof.
  unfold isExoticECMAScriptWhitespace, specified_insignificant, js_eq, js_ge,
    js_le, Chars.NonBreakingSpace, Chars.ZeroWidthNoBreakSpace, Chars.NextLine,
    Chars.Ogham, Chars.EnQuad, Chars.ZeroWidthSpace, Chars.NarrowNoBreakSpace,
    Chars.MathematicalSpace, Chars.IdeographicSpace, Chars.ByteOrderMark,
    Chars.LineSeparator, Chars.ParagraphSeparator.
  rewrite !orb_true_iff, !andb_true_iff, !Z.eqb_eq, !Z.leb_le. lia.
Qed.

(** C8.  The units U+0085 (next line) and U+200B (zero width space), which
    are above 0x7E and belong to none of LS, PS, NBSP, the byte order mark
    and the category Zs, are skipped by the dispatcher like white space:
    the turn of the loop advances over them and continues. *)
Theorem next_line_and_zero_width_space_are_skipped (E : Externals)
  (context : Context) (isStartOfLine lastIsCR : bool) (p : ParserState)
  (c : Z) :
  nextCodePoint p = Num c ->
  c = Chars.NextLine \/ c = Chars.ZeroWidthSpace ->
  unicodeBit 34816 (Num c) = 0 ->
  scanIteration context isStartOfLine lastIsCR p
  = Some (Continue lastIsCR (advance (set_tokenPos (index p) p)))
  /\ 0x7E < c
  /\ specified_insignificant c = false.
Proof.
  intros Hc Hwhich Hbit.
  assert (Hstep : scanAfterSwitch context lastIsCR (Num c)
                    (set_tokenPos (index p) p)
                  = Some (Continue lastIsCR
                            (advance (set_tokenPos (index p) p)))).
  { unfold scanAfterSwitch. rewrite Hbit.
    destruct Hwhich as [-> | ->]; eval_tests; reflexivity. }
  unfold scanIteration. cbv zeta.
  change (nextCodePoint (set_tokenPos (index p) p)) with (nextCodePoint p).
  rewrite Hc.
  destruct Hwhich as [-> | ->]; eval_tests; cbv iota;
    (split; [exact Hstep|split; [reflexivity|reflexivity]]).
Qed.

Lemma next_line_and_zero_width_space_are_skipped_witness :
  unicodeBit (E := Reference.externals) 34816 (Num 0x85) = 0
  /\ scanIteration (E := Reference.externals) 0 true false (create [0x85])
     = Some (Continue false (advance (set_tokenPos 0 (create [0x85]))))
  /\ 0x7E < 0x85
  /\ specified_insignificant 0x85 = false.
Proof.
  split; [reflexivity|].
  apply (next_line_and_zero_width_space_are_skipped Reference.externals 0 true
           false (create [0x85]) 0x85);
    [reflexivity|left; reflexivity|reflexivity].
Defined.

(** ** The flags of a regular expression *)

Section RegExpFlags.
Context {E : Externals}.
Variable context : Context.

Ltac flag_cases H :=
  destruct H as [<-|[<-|[<-|[<-|[<-|[<-|[]]]]]]].

(** A flag whose bit is clear is let through, and its bit is set. *)
Lemma regExpFlagCase_fresh (mask c : Z) (p : ParserState) :
  In c regExpFlags ->
  Z.land mask (regExpFlagMask c) = 0 ->
  regExpFlagCase context mask (Num c) p
  = FlagBreak (Z.lor mask (regExpFlagMask c)) p.
Proof.
  intros Hin Hclear; flag_cases Hin;
    unfold regExpFlagCase; eval_tests; cbv zeta iota beta;
    match type of Hclear with
    | Z.land _ ?m = 0 =>
      let v := eval vm_compute in m in
      change m with v in Hclear |- *
    end;
    match goal with
    | |- context [Z.land mask ?m] =>
      let v := eval vm_compute in m in change m with v
    end;
    rewrite Hclear; reflexivity.
Qed.

(** A flag whose bit is set is reported as a duplicate; the loop goes on
    after [g] and returns after the five others. *)
Lemma regExpFlagCase_duplicate (mask c : Z) (p : ParserState) :
  In c regExpFlags ->
  Z.land mask (regExpFlagMask c) <> 0 ->
  regExpFlagCase context mask (Num c) p
  = if c =? Chars.LowerG
    then FlagBreak (Z.lor mask RegexFlags.Global)
           (report p context Errors.DuplicateRegExpFlag [[c]])
    else FlagReturn (report p context Errors.DuplicateRegExpFlag [[c]]).
Proof.
  intros Hin Hset; apply Z.eqb_neq in Hset; flag_cases Hin;
    unfold regExpFlagCase; eval_tests; cbv zeta iota beta;
    match type of Hset with
    | (Z.land _ ?m =? 0) = false =>
      let v := eval vm_compute in m in
      change m with v in Hset |- *
    end;
    match goal with
    | |- context [Z.land mask ?m] =>
      let v := eval vm_compute in m in change m with v
    end;
    rewrite Hset; reflexivity.
Qed.

(** On a second [g] the flag loop reports and goes on with the next unit,
    as it does on a first one. *)
Lemma scanRegExpFlags_duplicate_g (fuel : nat) (mask : Z) (p : ParserState) :
  isIdentifierPart (Num Chars.LowerG) = true ->
  Z.land mask RegexFlags.Global <> 0 ->
  scanRegExpFlags (S fuel) context mask (Num Chars.LowerG) p
  = let p' := advance (report p context Errors.DuplicateRegExpFlag
                         [[Chars.LowerG]]) in
    scanRegExpFlags fuel context (Z.lor mask RegexFlags.Global)
      (nextCodePoint p') p'.
Proof.
  intros Hpart Hset. rewrite scanRegExpFlags_S, Hpart.
  rewrite (regExpFlagCase_duplicate mask Chars.LowerG p);
    [reflexivity|simpl; auto|exact Hset].
Qed.

(** Any other unit, the letter [d] and [NaN] included, is refused. *)
Lemma regExpFlagCase_other (mask : Z) (char : num) (p : ParserState) :
  (forall c, char = Num c -> ~ In c regExpFlags) ->
  regExpFlagCase context mask char p
  = FlagReturn (report p context Errors.UnexpectedTokenRegExpFlag []).
Proof.
  intros Hother. unfold regExpFlagCase. destruct char as [|c]; [reflexivity|].
  specialize (Hother c eq_refl). unfold regExpFlags in Hother. simpl in Hother.
  unfold js_eq.
  repeat match goal with
         | |- context [c =? ?k] =>
           destruct (Z.eqb_spec c k); [exfalso; apply Hother; auto 10|]
         end.
  reflexivity.
Qed.

(** The [switch] reports at most once and touches nothing else of the
    diagnostics. *)
Lemma regExpFlagCase_appends (mask : Z) (char : num) (p : ParserState) :
  exists extra,
    diagnostics
      (match regExpFlagCase context mask char p with
       | FlagBreak _ q => q
       | FlagReturn q => q
       end)
    = diagnostics p ++ extra.
Proof.
  unfold regExpFlagCase.
  repeat match goal with
         | |- context [if ?c then _ else _] => destruct c
         end;
    cbn [report diagnostics set_diagnostics]; eauto using app_nil_r.
  all: exists []; now rewrite app_nil_r.
Qed.

(** The flag loop only appends to the diagnostics. *)
Lemma scanRegExpFlags_appends :
  forall fuel mask char p r,
    scanRegExpFlags fuel context mask char p = Some r ->
    exists extra, diagnostics (exitState r) = diagnostics p ++ extra.
Proof.
  induction fuel as [|fuel IH]; intros mask char p r Hrun; [discriminate|].
  rewrite scanRegExpFlags_S in Hrun.
  destruct (isIdentifierPart char).
  - destruct (regExpFlagCase_appends mask char p) as [extra Hextra].
    destruct (regExpFlagCase context mask char p) as [mask' q|q].
    + apply IH in Hrun as [extra' Hrun]. exists (extra ++ extra').
      rewrite Hrun. cbn [advance diagnostics set_nextCodePoint set_index
                           set_column]. rewrite Hextra. now rewrite app_assoc.
    + inversion Hrun; subst. exists extra. exact Hextra.
  - inversion Hrun; subst. exists []. simpl. now rewrite app_nil_r.
Qed.

(** Once a bit of the mask is set it stays set. *)
Lemma land_lor_nonzero (mask extra bit : Z) :
  Z.land mask bit <> 0 -> Z.land (Z.lor mask extra) bit <> 0.
Proof.
  intros Hset Hzero. rewrite Z.land_lor_distr_l in Hzero.
  apply Z.lor_eq_0_iff in Hzero. tauto.
Qed.

Lemma regExpFlagMask_nonzero (c : Z) :
  In c regExpFlags -> Z.land (regExpFlagMask c) (regExpFlagMask c) <> 0.
Proof. intros Hin; flag_cases Hin; vm_compute; discriminate. Qed.

Lemma reads_tail (p q : ParserState) (z : Z) (l : list Z) :
  source q = source p -> index q = index p + 1 ->
  reads p (z :: l) -> reads q l.
Proof.
  intros Hs Hi Hreads k Hk. rewrite Hs, Hi.
  replace (index p + 1 + Z.of_nat k) with (index p + Z.of_nat (S k)) by lia.
  apply (Hreads (S k)). simpl. lia.
Qed.

Lemma reads_head (p : ParserState) (z : Z) (l : list Z) :
  reads p (z :: l) -> charCodeAt (source p) (index p) = Num z.
Proof.
  intros Hreads. specialize (Hreads 0%nat). simpl in Hreads.
  rewrite Z.add_0_r in Hreads. apply Hreads. lia.
Qed.

(** A run of flags in which some flag meets its own bit already set is
    reported as a duplicate, whatever else the loop does afterwards. *)
Lemma scanRegExpFlags_reports_duplicate :
  forall l fuel mask p,
    reads p l ->
    Forall (fun z => In z regExpFlags /\ isIdentifierPart (Num z) = true) l ->
    (exists c, In c l /\ Z.land mask (regExpFlagMask c) <> 0) \/ ~ NoDup l ->
    (Z.to_nat (Z.of_nat (List.length (source p)) - index p) < fuel)%nat ->
    exists r pre d post,
      scanRegExpFlags fuel context mask (charCodeAt (source p) (index p)) p
      = Some r
      /\ diagnostics (exitState r) = diagnostics p ++ pre ++ d :: post
      /\ diagKind d = Errors.DuplicateRegExpFlag.
Proof.
  induction l as [|z l IH]; intros fuel mask p Hreads Hall Hdup Hfuel.
  { exfalso. destruct Hdup as [(c & [] & _)|Hnd]. apply Hnd. constructor. }
  destruct fuel as [|fuel]; [lia|].
  pose proof (reads_head _ _ _ Hreads) as Hz.
  pose proof (charCodeAt_Num _ _ _ Hz) as Hrange.
  inversion Hall as [|z' l' [Hflag Hpart] Hall']; subst.
  rewrite scanRegExpFlags_S, Hz, Hpart.
  destruct (Z.eq_dec (Z.land mask (regExpFlagMask z)) 0) as [Hclear|Hset].
  - rewrite (regExpFlagCase_fresh mask z p Hflag Hclear).
    change (nextCodePoint (advance p))
      with (charCodeAt (source (advance p)) (index (advance p))).
    destruct (IH fuel (Z.lor mask (regExpFlagMask z)) (advance p))
      as (r & pre & d & post & Hrun & Hdiag & Hkind).
    + now apply (reads_tail p _ z).
    + assumption.
    + destruct Hdup as [(c & [<-|Hin] & Hc)|Hnd].
      * contradiction.
      * left. exists c. split; [assumption|]. now apply land_lor_nonzero.
      * destruct (in_dec Z.eq_dec z l) as [Hin|Hnotin].
        -- left. exists z. split; [assumption|].
           rewrite Z.land_comm, Z.land_lor_distr_r, Z.land_diag.
           intros Hzero. apply Z.lor_eq_0_iff in Hzero.
           apply (regExpFlagMask_nonzero z Hflag).
           rewrite Z.land_diag. tauto.
        -- right. intros Hnd'. apply Hnd. now constructor.
    + simpl. lia.
    + exists r, pre, d, post. repeat split; assumption.
  - rewrite (regExpFlagCase_duplicate mask z p Hflag Hset).
    set (d := mkDiagnostic Errors.DuplicateRegExpFlag (index p) [[z]]).
    destruct (z =? Chars.LowerG).
    + change (nextCodePoint (advance (report p context
                Errors.DuplicateRegExpFlag [[z]])))
        with (charCodeAt
                (source (advance (report p context
                   Errors.DuplicateRegExpFlag [[z]])))
                (index (advance (report p context
                   Errors.DuplicateRegExpFlag [[z]])))).
      destruct (scanRegExpFlags_total_cached context fuel
                  (Z.lor mask RegexFlags.Global)
                  (advance (report p context Errors.DuplicateRegExpFlag [[z]])))
        as [r Hrun]; [simpl; lia|].
      destruct (scanRegExpFlags_appends _ _ _ _ _ Hrun) as [extra Hextra].
      exists r, [], d, extra. split; [exact Hrun|]. split; [|reflexivity].
      rewrite Hextra. simpl. now rewrite <- app_assoc.
    + exists (LoopError (report p context Errors.DuplicateRegExpFlag [[z]])),
        [], d, []. repeat split.
Qed.

End RegExpFlags.

(** C4 (amended).  In the flag loop of [scanRegularExpression] the flags are
    [g], [i], [m], [u], [y] and [s]: a run of them in which one is repeated
    is reported as [DuplicateRegExpFlag]; every other unit that
    [isIdentifierPart] admits, the letter [d] included, is reported as
    [UnexpectedTokenRegExpFlag] and ends the scan with [Token.Error]. *)
Theorem regExp_flags_repeated_or_unknown (E : Externals) (context : Context)
  (p : ParserState) :
  (forall l,
      nextCodePoint p = charCodeAt (source p) (index p) ->
      reads p l ->
      Forall (fun z => In z regExpFlags /\ isIdentifierPart (Num z) = true) l ->
      ~ NoDup l ->
      exists r pre d post,
        scanRegExpFlags (regExpFuel p) context RegexFlags.Empty
          (nextCodePoint p) p = Some r
        /\ diagnostics (exitState r) = diagnostics p ++ pre ++ d :: post
        /\ diagKind d = Errors.DuplicateRegExpFlag)
  /\ (forall fuel mask c,
         nextCodePoint p = Num c ->
         isIdentifierPart (Num c) = true ->
         ~ In c regExpFlags ->
         scanRegExpFlags (S fuel) context mask (nextCodePoint p) p
         = Some (LoopError
                   (report p context Errors.UnexpectedTokenRegExpFlag []))).
Proof.
  split.
  - intros l Hcached Hreads Hall Hnd. rewrite Hcached.
    apply (scanRegExpFlags_reports_duplicate context l); auto.
    unfold regExpFuel. lia.
  - intros fuel mask c Hc Hpart Hother.
    rewrite scanRegExpFlags_S, Hc, Hpart.
    rewrite regExpFlagCase_other; [reflexivity|].
    intros c' Heq. now inversion Heq; subst.
Qed.

(** The flags [imi] after the body of [/x/], and the flag [d] after it. *)
Lemma regExp_flags_repeated_or_unknown_witness :
  (exists r pre d post,
      scanRegExpFlags (E := Reference.externals)
        (regExpFuel
           (advance (advance (advance
              (create [0x2F; 0x78; 0x2F; 0x69; 0x6D; 0x69])))))
        0 RegexFlags.Empty (Num 0x69)
        (advance (advance (advance
           (create [0x2F; 0x78; 0x2F; 0x69; 0x6D; 0x69]))))
      = Some r
      /\ diagnostics (exitState r) = [] ++ pre ++ d :: post
      /\ diagKind d = Errors.DuplicateRegExpFlag)
  /\ scanRegExpFlags (E := Reference.externals) 1 0 RegexFlags.Empty
       (Num 0x64)
       (advance (advance (advance (create [0x2F; 0x78; 0x2F; 0x64]))))
     = Some (LoopError
               (report
                  (advance (advance (advance (create [0x2F; 0x78; 0x2F; 0x64]))))
                  0 Errors.UnexpectedTokenRegExpFlag [])).
Proof.
  split.
  - apply (proj1 (regExp_flags_repeated_or_unknown Reference.externals 0
                    (advance (advance (advance
                       (create [0x2F; 0x78; 0x2F; 0x69; 0x6D; 0x69])))))
             [0x69; 0x6D; 0x69]).
    + reflexivity.
    + intros [|[|[|k]]] Hk; try reflexivity. simpl in Hk. lia.
    + repeat (apply Forall_cons; [split; [simpl; auto 10|reflexivity]|]).
      apply Forall_nil.
    + intros Hnd. inversion Hnd as [|z l Hnotin _]. apply Hnotin. simpl. auto.
  - apply (proj2 (regExp_flags_repeated_or_unknown Reference.externals 0
                    (advance (advance (advance
                       (create [0x2F; 0x78; 0x2F; 0x64])))))
             0%nat RegexFlags.Empty 0x64); [reflexivity|reflexivity|].
    unfold regExpFlags. simpl. intros [H|[H|[H|[H|[H|[H|[]]]]]]]; discriminate H.
Defined.

(** C4 as the specification words it fails on the flag [d]: scanning [/a/d]
    from its body, a single [d] is not accepted, it is reported as
    [UnexpectedTokenRegExpFlag] and the answer is [Token.Error]. *)
Lemma regExp_flag_d_is_refused :
  exists p',
    scanRegularExpression (E := Reference.externals)
      (advance (create [0x2F; 0x61; 0x2F; 0x64])) 0
    = Some (Token.Error, p')
    /\ map diagKind (diagnostics p') = [Errors.UnexpectedTokenRegExpFlag].
Proof. eexists. split; [vm_compute; reflexivity|reflexivity]. Qed.

Lemma compatible_flags_have_disjoint_masks (a b : Z) :
  In a regExpFlags -> In b regExpFlags -> a <> b -> ~ flagsClash a b ->
  Z.land (regExpFlagMask a) (regExpFlagMask b) = 0.
Proof.
  unfold regExpFlags, flagsClash. simpl.
  intros [<-|[<-|[<-|[<-|[<-|[<-|[]]]]]]] [<-|[<-|[<-|[<-|[<-|[<-|[]]]]]]]
         Hneq Hclash;
    try reflexivity; try (exfalso; apply Hneq; reflexivity);
    exfalso; apply Hclash; auto.
Qed.

(** The flag loop on a run of flags that it accepts. *)
Lemma scanRegExpFlags_accepts (E : Externals) (context : Context) :
  forall l fuel mask p,
    reads p l ->
    Forall (fun z => In z regExpFlags /\ isIdentifierPart (Num z) = true) l ->
    NoDup l ->
    (forall a b, In a l -> In b l -> ~ flagsClash a b) ->
    (forall c, In c l -> Z.land mask (regExpFlagMask c) = 0) ->
    isIdentifierPart
      (charCodeAt (source p) (index p + Z.of_nat (List.length l))) = false ->
    (List.length l < fuel)%nat ->
    exists q,
      scanRegExpFlags fuel context mask (charCodeAt (source p) (index p)) p
      = Some (LoopDone q)
      /\ index q = index p + Z.of_nat (List.length l)
      /\ diagnostics q = diagnostics p
      /\ source q = source p.
Proof.
  induction l as [|z l IH];
    intros fuel mask p Hreads Hall Hnd Hcompat Hmask Hstop Hfuel;
    (destruct fuel as [|fuel]; [simpl in Hfuel; lia|]);
    rewrite scanRegExpFlags_S.
  - simpl in Hstop. rewrite Z.add_0_r in Hstop. rewrite Hstop.
    exists p. simpl. repeat split; lia.
  - pose proof (reads_head _ _ _ Hreads) as Hz.
    inversion Hall as [|z' l' [Hflag Hpart] Hall']; subst.
    inversion Hnd as [|z' l' Hnotin Hnd']; subst.
    rewrite Hz, Hpart.
    rewrite (regExpFlagCase_fresh context mask z p Hflag)
      by (apply Hmask; now left).
    change (nextCodePoint (advance p))
      with (charCodeAt (source (advance p)) (index (advance p))).
    destruct (IH fuel (Z.lor mask (regExpFlagMask z)) (advance p))
      as (q & Hrun & Hi & Hd & Hs).
    + now apply (reads_tail p _ z).
    + assumption.
    + assumption.
    + intros a b Hina Hinb. apply Hcompat; now right.
    + intros c Hc. rewrite Z.land_lor_distr_l.
      rewrite (Hmask c) by now right.
      rewrite compatible_flags_have_disjoint_masks; [reflexivity|assumption| | |].
      * rewrite Forall_forall in Hall'. now apply Hall'.
      * intros ->. contradiction.
      * apply Hcompat; [now left|now right].
    + simpl. simpl List.length in Hstop.
      replace (index p + 1 + Z.of_nat (List.length l))
        with (index p + Z.of_nat (S (List.length l))) by lia.
      exact Hstop.
    + simpl in Hfuel. lia.
    + exists q. split; [exact Hrun|]. simpl in Hi, Hd, Hs.
      simpl List.length. repeat split; try assumption; lia.
Qed.

(** A run of flags that the loop accepts leaves the loop at the unit after
    the run, with the bits of the run added to the mask. *)
Lemma scanRegExpFlags_prefix (E : Externals) (context : Context) :
  forall l fuel mask p,
    reads p l ->
    Forall (fun z => In z regExpFlags /\ isIdentifierPart (Num z) = true) l ->
    NoDup l ->
    (forall a b, In a l -> In b l -> ~ flagsClash a b) ->
    (forall c, In c l -> Z.land mask (regExpFlagMask c) = 0) ->
    exists q,
      scanRegExpFlags (List.length l + fuel) context mask
        (charCodeAt (source p) (index p)) p
      = scanRegExpFlags fuel context
          (fold_left (fun m c => Z.lor m (regExpFlagMask c)) l mask)
          (charCodeAt (source q) (index q)) q
      /\ index q = index p + Z.of_nat (List.length l)
      /\ source q = source p
      /\ diagnostics q = diagnostics p
      /\ tokenRegExp q = tokenRegExp p.
Proof.
  induction l as [|z l IH]; intros fuel mask p Hreads Hall Hnd Hcompat Hmask.
  - exists p. simpl. repeat split; lia.
  - pose proof (reads_head _ _ _ Hreads) as Hz.
    inversion Hall as [|z' l' [Hflag Hpart] Hall']; subst.
    inversion Hnd as [|z' l' Hnotin Hnd']; subst.
    cbn [List.length Nat.add fold_left].
    rewrite scanRegExpFlags_S, Hz, Hpart.
    rewrite (regExpFlagCase_fresh context mask z p Hflag)
      by (apply Hmask; now left).
    change (nextCodePoint (advance p))
      with (charCodeAt (source (advance p)) (index (advance p))).
    destruct (IH fuel (Z.lor mask (regExpFlagMask z)) (advance p))
      as (q & Hrun & Hi & Hs & Hd & Hr).
    + now apply (reads_tail p _ z).
    + assumption.
    + assumption.
    + intros a b Hina Hinb. apply Hcompat; now right.
    + intros c Hc. rewrite Z.land_lor_distr_l.
      rewrite (Hmask c) by now right.
      rewrite compatible_flags_have_disjoint_masks; [reflexivity|assumption| | |].
      * rewrite Forall_forall in Hall'. now apply Hall'.
      * intros ->. contradiction.
      * apply Hcompat; [now left|now right].
    + exists q. split; [exact Hrun|]. simpl in Hi, Hs, Hd, Hr.
      repeat split; try assumption. lia.
Qed.

(** The bits that a run of flags adds to the mask. *)
Lemma land_flags_clear (l : list Z) (mask x : Z) :
  Z.land (fold_left (fun m c => Z.lor m (regExpFlagMask c)) l mask) x = 0
  <-> Z.land mask x = 0
      /\ Forall (fun a => Z.land (regExpFlagMask a) x = 0) l.
Proof.
  revert mask. induction l as [|a l IH]; intros mask; simpl.
  - split; [intros H; split; [exact H|constructor]|tauto].
  - rewrite IH, Z.land_lor_distr_l, Z.lor_eq_0_iff. split.
    + intros [[Hm Ha] Hl]. split; [exact Hm|]. constructor; assumption.
    + intros [Hm Hl]. inversion Hl; subst. tauto.
Qed.

Lemma NoDup_app_disjoint (l l' : list Z) (x : Z) :
  NoDup (l ++ l') -> In x l -> In x l' -> False.
Proof.
  intros Hnd Hl Hl'. apply in_split in Hl as (l1 & l2 & ->).
  rewrite <- app_assoc in Hnd. simpl in Hnd. apply NoDup_remove_2 in Hnd.
  apply Hnd. apply in_or_app. right. apply in_or_app. now right.
Qed.

Lemma reads_app (p : ParserState) (l l' : list Z) :
  reads p (l ++ l') ->
  reads p l
  /\ forall q, source q = source p ->
       index q = index p + Z.of_nat (List.length l) -> reads q l'.
Proof.
  intros Hreads. split.
  - intros k Hk. rewrite (Hreads k) by (rewrite length_app; lia).
    now rewrite app_nth1.
  - intros q Hs Hi k Hk. rewrite Hs, Hi.
    replace (index p + Z.of_nat (List.length l) + Z.of_nat k)
      with (index p + Z.of_nat (List.length l + k)) by lia.
    rewrite (Hreads (List.length l + k)%nat) by (rewrite length_app; lia).
    rewrite app_nth2 by lia. do 2 f_equal. lia.
Qed.

(** C9.  After the body of a regular expression and a run [l] of flags that
    the loop has accepted, a flag [c] of the run that comes again is reported
    as [DuplicateRegExpFlag] where it stands.  For [i], [m], [u], [y] and [s]
    [scanRegularExpression] returns [Token.Error] at once, with the cursor
    on the repeated flag, whatever follows.  For [g] scanning of the flags
    continues: the flags [rest] that follow are read to the end of the run,
    the function still returns [Token.RegularExpression], the cursor is
    after the whole run and the flags exposed are the whole run, the
    repeated [g] included. *)
Theorem duplicate_g_continues_others_return (E : Externals)
  (context : Context) (p p1 : ParserState) (l rest : list Z) (c : Z) :
  scanRegExpBody (regExpFuel p) context RegexState.Empty p
  = Some (LoopDone p1) ->
  nextCodePoint p1 = charCodeAt (source p1) (index p1) ->
  reads p1 (l ++ c :: rest) ->
  Forall (fun z => In z regExpFlags /\ isIdentifierPart (Num z) = true) l ->
  NoDup l ->
  (forall a b, In a l -> In b l -> ~ flagsClash a b) ->
  In c l ->
  (c = Chars.LowerG ->
   Forall (fun z => In z regExpFlags /\ isIdentifierPart (Num z) = true) rest
   /\ NoDup (l ++ rest)
   /\ (forall a b, In a (l ++ rest) -> In b (l ++ rest) -> ~ flagsClash a b)
   /\ isIdentifierPart
        (charCodeAt (source p1)
           (index p1 + Z.of_nat (List.length (l ++ c :: rest)))) = false) ->
  let pattern := slice (source p1) (index p) (index p1 - 1) in
  let duplicate :=
    mkDiagnostic Errors.DuplicateRegExpFlag
      (index p1 + Z.of_nat (List.length l)) [[c]] in
  exists p',
    scanRegularExpression p context
    = Some (if c =? Chars.LowerG then Token.RegularExpression
            else Token.Error, p')
    /\ source p' = source p1
    /\ index p'
       = index p1
         + Z.of_nat (if c =? Chars.LowerG then List.length (l ++ c :: rest)
                     else List.length l)
    /\ diagnostics p'
       = diagnostics p1 ++ duplicate
         :: (if (c =? Chars.LowerG) && negb (hostRegExp pattern None)
             then [mkDiagnostic Errors.UnterminatedRegExp (index p') []]
             else [])
    /\ tokenRegExp p'
       = (if c =? Chars.LowerG
          then Some (pattern, slice (source p1) (index p1) (index p'))
          else tokenRegExp p1).
Proof.
  intros Hbody Hcached Hreads Hall Hnd Hcompat Hin Hrest. cbv zeta.
  unfold scanRegularExpression. rewrite Hbody, Hcached.
  destruct (reads_app p1 l (c :: rest) Hreads) as [Hl Htail].
  assert (Hc : charCodeAt (source p1) (index p1 + Z.of_nat (List.length l))
               = Num c).
  { rewrite <- (Z.add_0_r (index p1 + _)).
    apply (Htail (set_index (index p1 + Z.of_nat (List.length l)) p1)
             eq_refl eq_refl 0%nat). simpl. lia. }
  assert (Hlen : index p1 + Z.of_nat (List.length (l ++ c :: rest))
                 <= Z.of_nat (List.length (source p1))).
  { pose proof (Hreads (List.length (l ++ rest))) as Hlast.
    rewrite !length_app in *. cbn [List.length] in *.
    specialize (Hlast ltac:(lia)). apply charCodeAt_Num in Hlast. lia. }
  assert (Hfuel : exists k, regExpFuel p1 = (List.length l + S k)%nat
                            /\ (List.length rest < k)%nat).
  { unfold regExpFuel. rewrite length_app in Hlen. cbn [List.length] in Hlen.
    exists (S (Z.to_nat (Z.of_nat (List.length (source p1)) - index p1))
            - List.length l)%nat. lia. }
  destruct Hfuel as (k & -> & Hk).
  destruct (scanRegExpFlags_prefix E context l (S k) RegexFlags.Empty p1
              Hl Hall Hnd Hcompat ltac:(intros x _; apply Z.land_0_l))
    as (q & -> & Hqi & Hqs & Hqd & Hqr).
  set (mask := fold_left (fun m x => Z.lor m (regExpFlagMask x)) l
                 RegexFlags.Empty).
  assert (Hflag : In c regExpFlags /\ isIdentifierPart (Num c) = true).
  { rewrite Forall_forall in Hall. now apply Hall. }
  destruct Hflag as [Hflag Hpart].
  assert (Hset : Z.land mask (regExpFlagMask c) <> 0).
  { intros Hzero. apply land_flags_clear in Hzero as [_ Hzero].
    rewrite Forall_forall in Hzero.
    exact (regExpFlagMask_nonzero c Hflag (Hzero c Hin)). }
  rewrite scanRegExpFlags_S, Hqs, Hqi, Hc, Hpart.
  rewrite (regExpFlagCase_duplicate context mask c q Hflag Hset).
  destruct (Z.eqb_spec c Chars.LowerG) as [Hg|Hg]; cbn [andb].
  - destruct (Hrest Hg) as (Hrall & Hrnd & Hrcompat & Hstop).
    set (q2 := advance (report q context Errors.DuplicateRegExpFlag [[c]])).
    change (nextCodePoint q2) with (charCodeAt (source q2) (index q2)).
    destruct (scanRegExpFlags_accepts E context rest k
                (Z.lor mask RegexFlags.Global) q2)
      as (q3 & -> & Hi3 & Hd3 & Hs3).
    + apply (reads_tail q q2 c rest);
        [reflexivity|reflexivity|exact (Htail q Hqs Hqi)].
    + assumption.
    + exact (NoDup_app_remove_l _ _ Hrnd).
    + intros a b Ha Hb. apply Hrcompat; apply in_or_app; now right.
    + intros r Hr. rewrite Z.land_lor_distr_l.
      assert (Hclear : Forall (fun a => Z.land (regExpFlagMask a)
                                          (regExpFlagMask r) = 0) l).
      { apply Forall_forall. intros a Ha.
        rewrite Forall_forall in Hall, Hrall.
        apply compatible_flags_have_disjoint_masks.
        - now apply Hall.
        - now apply Hrall.
        - intros ->. exact (NoDup_app_disjoint l rest r Hrnd Ha Hr).
        - apply Hrcompat; apply in_or_app; [now left|now right]. }
      replace (Z.land mask (regExpFlagMask r)) with 0
        by (symmetry; apply land_flags_clear; split;
            [apply Z.land_0_l|exact Hclear]).
      rewrite Forall_forall in Hclear. specialize (Hclear c Hin).
      rewrite Hg in Hclear. exact Hclear.
    + replace (index q2 + Z.of_nat (List.length rest))
        with (index p1 + Z.of_nat (List.length (l ++ c :: rest)))
        by (rewrite length_app; subst q2; simpl; lia).
      subst q2. simpl. rewrite Hqs. exact Hstop.
    + exact Hk.
    + assert (Hi3' : index q3
                     = index p1 + Z.of_nat (List.length (l ++ c :: rest))).
      { rewrite Hi3, length_app. subst q2. simpl. lia. }
      assert (Hs3' : source q3 = source p1).
      { rewrite Hs3. subst q2. simpl. exact Hqs. }
      assert (Hd3' : diagnostics q3
                     = diagnostics p1
                       ++ [mkDiagnostic Errors.DuplicateRegExpFlag
                             (index p1 + Z.of_nat (List.length l)) [[c]]]).
      { rewrite Hd3. subst q2. simpl. now rewrite Hqd, Hqi. }
      unfold validate. rewrite Hs3'.
      destruct (hostRegExp _ None); cbn [negb];
        [destruct (hostRegExp _ (Some _))|];
        destruct (hasFlag context Context_OptionsRaw);
        eexists; (split; [reflexivity|]); state_simpl;
        rewrite Hs3', Hi3', Hd3', <- ?app_assoc; repeat split.
  - exists (report q context Errors.DuplicateRegExpFlag [[c]]).
    split; [reflexivity|]. state_simpl.
    rewrite Hqs, Hqi, Hqd, Hqr. repeat split.
Qed.

(** The source [/a/gigm], scanned from its body: the second [g] is reported
    and the [m] after it is read. *)
Lemma duplicate_g_continues_others_return_witness :
  let p := advance (create [0x2F; 0x61; 0x2F; 0x67; 0x69; 0x67; 0x6D]) in
  let p1 := advance (advance p) in
  let pattern := slice (source p1) (index p) (index p1 - 1) in
  let duplicate :=
    mkDiagnostic Errors.DuplicateRegExpFlag
      (index p1 + Z.of_nat (List.length [0x67; 0x69])) [[0x67]] in
  exists p',
    scanRegularExpression (E := Reference.externals) p 0
    = Some (if 0x67 =? Chars.LowerG then Token.RegularExpression
            else Token.Error, p')
    /\ source p' = source p1
    /\ index p'
       = index p1
         + Z.of_nat (if 0x67 =? Chars.LowerG
                     then List.length ([0x67; 0x69] ++ 0x67 :: [0x6D])
                     else List.length [0x67; 0x69])
    /\ diagnostics p'
       = diagnostics p1 ++ duplicate
         :: (if (0x67 =? Chars.LowerG)
                && negb (hostRegExp (Externals := Reference.externals)
                           pattern None)
             then [mkDiagnostic Errors.UnterminatedRegExp (index p') []]
             else [])
    /\ tokenRegExp p'
       = (if 0x67 =? Chars.LowerG
          then Some (pattern, slice (source p1) (index p1) (index p'))
          else tokenRegExp p1).
Proof.
  cbv zeta.
  apply (duplicate_g_continues_others_return Reference.externals 0 _ _
           [0x67; 0x69] [0x6D] 0x67).
  - vm_compute; reflexivity.
  - reflexivity.
  - intros [|[|[|[|k]]]] Hk; try reflexivity. simpl in Hk. lia.
  - repeat (apply Forall_cons; [split; [simpl; auto 10|reflexivity]|]).
    apply Forall_nil.
  - repeat (constructor; [simpl; intuition discriminate|]). constructor.
  - intros a b Ha Hb [[-> _]|[-> _]]; simpl in Ha, Hb;
      intuition discriminate.
  - simpl; auto.
  - intros _. split; [|split; [|split]].
    + repeat (apply Forall_cons; [split; [simpl; auto 10|reflexivity]|]).
      apply Forall_nil.
    + repeat (constructor; [simpl; intuition discriminate|]). constructor.
    + intros a b Ha Hb [[-> _]|[-> _]]; simpl in Ha, Hb;
        intuition discriminate.
    + reflexivity.
Defined.

(** * Further properties *)

(** ** [common.ts]: hexadecimal digits and code points *)

(** X1.  [toHex] maps each hexadecimal digit, in either case, to its value
    between 0 and 15. *)
Theorem toHex_digit_value (c d : Z) :
  (0x30 <= c <= 0x39 /\ d = c - 0x30)
  \/ (0x41 <= c <= 0x46 /\ d = c - 0x41 + 10)
  \/ (0x61 <= c <= 0x66 /\ d = c - 0x61 + 10) ->
  toHex c = d /\ 0 <= d <= 15.
Proof.
  intros [[Hc ->]|[[Hc ->]|[Hc ->]]]; (split; [|lia]).
  - unfold toHex, Chars.UpperA, Chars.Zero.
    destruct (Z.ltb_spec c 65); [reflexivity|lia].
  - apply Z.eqb_eq.
    apply (range_check (fun c => toHex c =? c - 0x41 + 10) 0x41 6); [reflexivity|lia].
  - apply Z.eqb_eq.
    apply (range_check (fun c => toHex c =? c - 0x61 + 10) 0x61 6); [reflexivity|lia].
Qed.

Lemma toHex_digit_value_witness : toHex 0x66 = 15 /\ 0 <= 15 <= 15.
Proof.
  apply (toHex_digit_value 0x66 15). right. right. split; [lia|reflexivity].
Defined.

(** X2.  For a code point of the basic plane [fromCodePoint] answers the
    string of that one unit, so reading the string back with [charCodeAt]
    gives the code point again. *)
Theorem fromCodePoint_basic_plane (codePoint : Z) :
  0 <= codePoint <= 0xFFFF ->
  fromCodePoint codePoint = [codePoint]
  /\ charCodeAt (fromCodePoint codePoint) 0 = Num codePoint.
Proof.
  intros H.
  assert (Hone : fromCodePoint codePoint = [codePoint]).
  { unfold fromCodePoint, fromCharCode.
    destruct (Z.leb_spec codePoint 65535); [|lia].
    rewrite Z.mod_small; [reflexivity|lia]. }
  rewrite Hone. split; reflexivity.
Qed.

Lemma fromCodePoint_basic_plane_witness :
  fromCodePoint 0x3C0 = [0x3C0]
  /\ charCodeAt (fromCodePoint 0x3C0) 0 = Num 0x3C0.
Proof. apply (fromCodePoint_basic_plane 0x3C0). lia. Defined.

(** X3.  For a scalar above the basic plane [fromCodePoint] answers the two
    units [codePoint / 1024] and [codePoint mod 1024], without the surrogate
    offsets: the first is below 0x440 and the second below 0x400, so neither
    is a surrogate and the string is not the UTF-16 form of the scalar. *)
Theorem fromCodePoint_astral (codePoint : Z) :
  0x10000 <= codePoint <= 0x10FFFF ->
  fromCodePoint codePoint = [codePoint / 1024; codePoint mod 1024]
  /\ 0x40 <= codePoint / 1024 < 0x440
  /\ 0 <= codePoint mod 1024 < 0x400.
Proof.
  intros H.
  assert (Hhi : 0x40 <= codePoint / 1024 < 0x440).
  { split; [apply Z.div_le_lower_bound|apply Z.div_lt_upper_bound]; lia. }
  pose proof (Z.mod_pos_bound codePoint 1024 ltac:(lia)) as Hlo.
  split; [|split; assumption].
  unfold fromCodePoint, fromCharCode.
  destruct (Z.leb_spec codePoint 65535); [lia|].
  unfold uint32. rewrite (Z.mod_small codePoint) by lia.
  rewrite int32_small by lia.
  rewrite Z.shiftr_div_pow2 by lia.
  change 0x3ff with (Z.ones 10). rewrite Z.land_ones by lia.
  change (2 ^ 10) with 1024.
  rewrite !Z.mod_small by lia. reflexivity.
Qed.

Lemma fromCodePoint_astral_witness :
  fromCodePoint 0x1F600 = [0x1F600 / 1024; 0x1F600 mod 1024]
  /\ 0x40 <= 0x1F600 / 1024 < 0x440
  /\ 0 <= 0x1F600 mod 1024 < 0x400.
Proof. apply (fromCodePoint_astral 0x1F600). lia. Defined.


(** X5.  [consumeMultiUnitCodePoint] decodes UTF-16: on the surrogate pair
    that encodes a scalar between 0x10000 and 0x10FFFF it caches that very
    scalar; it consumes the high surrogate when the bitmap at base 0 holds
    the scalar, and answers [Escape.InvalidCodePoint] without moving
    otherwise. *)
Theorem consumeMultiUnitCodePoint_decodes_utf16 (E : Externals)
  (p : ParserState) (scalar : Z) :
  0x10000 <= scalar <= 0x10FFFF ->
  charCodeAt (source p) (index p + 1) = Num (0xDC00 + scalar mod 1024) ->
  consumeMultiUnitCodePoint p (Num (0xD800 + (scalar - 0x10000) / 1024))
  = if unicodeBit 0 (Num scalar) =? 0
    then (Escape_InvalidCodePoint, set_nextCodePoint (Num scalar) p)
    else (1, set_index (index p + 1) (set_nextCodePoint (Num scalar) p)).
Proof.
  intros Hs Hlo.
  assert (Hq : 0 <= (scalar - 0x10000) / 1024 < 1024).
  { split; [apply Z.div_pos|apply Z.div_lt_upper_bound]; lia. }
  pose proof (Z.mod_pos_bound scalar 1024 ltac:(lia)) as Hr.
  rewrite (consumeMultiUnitCodePoint_pair E p
             (0xD800 + (scalar - 0x10000) / 1024) (0xDC00 + scalar mod 1024)
             ltac:(lia) Hlo ltac:(lia)).
  cbv zeta.
  replace (0x10000 + Z.shiftl (Z.land (0xD800 + (scalar - 0x10000) / 1024) 0x3ff) 10
           + Z.land (0xDC00 + scalar mod 1024) 0x3ff) with scalar; [reflexivity|].
  change 0x3ff with (Z.ones 10).
  rewrite !Z.land_ones, Z.shiftl_mul_pow2 by lia.
  change (2 ^ 10) with 1024.
  replace (0xD800 + (scalar - 0x10000) / 1024)
    with ((scalar - 0x10000) / 1024 + 54 * 1024) by lia.
  replace (0xDC00 + scalar mod 1024) with (scalar mod 1024 + 55 * 1024) by lia.
  rewrite !Z.mod_add by lia. rewrite !Z.mod_small by lia.
  pose proof (Z.div_mod (scalar - 0x10000) 1024 ltac:(lia)) as Hdm.
  replace ((scalar - 0x10000) mod 1024) with (scalar mod 1024) in Hdm.
  - lia.
  - replace scalar with (scalar - 0x10000 + 64 * 1024) at 1 by lia.
    now rewrite Z.mod_add by lia.
Qed.

(** The pair U+D83D U+DE00, the scalar U+1F600, which the reference bitmap
    does not hold. *)
Lemma consumeMultiUnitCodePoint_decodes_utf16_witness :
  consumeMultiUnitCodePoint (E := Reference.externals)
    (create [0xD83D; 0xDE00]) (Num (0xD800 + (0x1F600 - 0x10000) / 1024))
  = if unicodeBit (E := Reference.externals) 0 (Num 0x1F600) =? 0
    then (Escape_InvalidCodePoint (Externals := Reference.externals),
          set_nextCodePoint (Num 0x1F600) (create [0xD83D; 0xDE00]))
    else (1, set_index (index (create [0xD83D; 0xDE00]) + 1)
               (set_nextCodePoint (Num 0x1F600) (create [0xD83D; 0xDE00]))).
Proof.
  apply (consumeMultiUnitCodePoint_decodes_utf16 Reference.externals
           (create [0xD83D; 0xDE00]) 0x1F600); [lia|reflexivity].
Defined.

(** ** [regexp.ts]: the body, the flags and the answer *)

Lemma js_eq_true (a : num) (k : Z) : js_eq a k = true -> a = Num k.
Proof.
  destruct a as [|z]; simpl; [discriminate|].
  intros H. apply Z.eqb_eq in H. now subst.
Qed.

Section RegExpAnswer.
Context {E : Externals}.
Variable context : Context.

Lemma regExpBodyCase_break (preparseState : Z) (ch : num) :
  regExpBodyCase preparseState ch = BodyBreakLoop -> ch = Num Chars.Slash.
Proof.
  unfold regExpBodyCase.
  destruct (negb _); [discriminate|].
  destruct (js_eq ch Chars.Slash) eqn:Hslash.
  - intros _. now apply js_eq_true.
  - repeat match goal with
           | |- context [if ?c then _ else _] => destruct c
           end; discriminate.
Qed.

Lemma regExpBodyCase_unterminated (preparseState : Z) (ch : num) :
  regExpBodyCase preparseState ch = BodyUnterminated ->
  Reference.isLineTerminator ch = true.
Proof.
  unfold regExpBodyCase, Reference.isLineTerminator.
  destruct (negb _); [discriminate|].
  destruct (js_eq ch Chars.Slash);
    [destruct (preparseState =? 0); discriminate|].
  destruct (js_eq ch Chars.Backslash); [discriminate|].
  destruct (js_eq ch Chars.LeftBracket); [discriminate|].
  destruct (js_eq ch Chars.RightBracket); [discriminate|].
  destruct (js_eq ch Chars.CarriageReturn), (js_eq ch Chars.LineFeed),
    (js_eq ch Chars.LineSeparator), (js_eq ch Chars.ParagraphSeparator);
    simpl; intros H; try reflexivity; discriminate.
Qed.

(** The body loop, when it finds the closing slash. *)
Lemma scanRegExpBody_done :
  forall fuel preparseState p p1,
    nextCodePoint p = charCodeAt (source p) (index p) ->
    scanRegExpBody fuel context preparseState p = Some (LoopDone p1) ->
    source p1 = source p
    /\ length p1 = length p
    /\ tokenPos p1 = tokenPos p
    /\ tokenRaw p1 = tokenRaw p
    /\ diagnostics p1 = diagnostics p
    /\ index p < index p1 <= Z.of_nat (List.length (source p))
    /\ nextCodePoint p1 = charCodeAt (source p) (index p1)
    /\ charCodeAt (source p) (index p1 - 1) = Num Chars.Slash.
Proof.
  induction fuel as [|fuel IH]; intros ps p p1 Hcached Hrun; [discriminate|].
  simpl in Hrun.
  destruct (regExpBodyCase ps (nextCodePoint p)) as [|ps'|] eqn:Hcase.
  - inversion Hrun; subst. apply regExpBodyCase_break in Hcase.
    rewrite Hcached in Hcase. pose proof (charCodeAt_Num _ _ _ Hcase).
    simpl. replace (index p + 1 - 1) with (index p) by lia.
    repeat split; try assumption; lia.
  - destruct (_ <=? _); [discriminate|].
    apply IH in Hrun; [|reflexivity]. simpl in Hrun.
    destruct Hrun as (Hs & Hl & Ht & Hr & Hd & Hi & Hn & Hslash).
    repeat split; try assumption; lia.
  - discriminate.
Qed.

(** The body loop, when it gives up: it has reported [UnterminatedRegExp],
    at a line terminator or at the end of the source. *)
Lemma scanRegExpBody_error :
  forall fuel preparseState p p1,
    nextCodePoint p = charCodeAt (source p) (index p) ->
    scanRegExpBody fuel context preparseState p = Some (LoopError p1) ->
    source p1 = source p
    /\ index p < index p1
    /\ diagnostics p1
       = diagnostics p
         ++ [mkDiagnostic Errors.UnterminatedRegExp (index p1) []]
    /\ (Z.of_nat (List.length (source p)) <= index p1
        \/ Reference.isLineTerminator
             (charCodeAt (source p) (index p1 - 1)) = true).
Proof.
  induction fuel as [|fuel IH]; intros ps p p1 Hcached Hrun; [discriminate|].
  simpl in Hrun.
  destruct (regExpBodyCase ps (nextCodePoint p)) as [|ps'|] eqn:Hcase.
  - discriminate.
  - destruct (Z.leb_spec (Z.of_nat (List.length (source p))) (index p + 1)).
    + inversion Hrun; subst. simpl. repeat split; try lia; now left.
    + apply IH in Hrun; [|reflexivity]. simpl in Hrun.
      destruct Hrun as (Hs & Hi & Hd & Hwhy).
      repeat split; try assumption; lia.
  - inversion Hrun; subst. apply regExpBodyCase_unterminated in Hcase.
    rewrite Hcached in Hcase. simpl.
    replace (index p + 1 - 1) with (index p) by lia.
    repeat split; try lia; now right.
Qed.

Lemma regExpFlagCase_return (mask : Z) (char : num) (p p' : ParserState) :
  regExpFlagCase context mask char p = FlagReturn p' ->
  exists d,
    p' = report p context (diagKind d) (diagArgs d)
    /\ In (diagKind d)
         [Errors.DuplicateRegExpFlag; Errors.UnexpectedTokenRegExpFlag].
Proof.
  unfold regExpFlagCase.
  repeat match goal with
         | |- context [if ?c then _ else _] => destruct c
         end;
    intros H; inversion H; subst;
    match goal with
    | |- context [report p context ?e ?a] =>
      exists (mkDiagnostic e 0 a); split; [reflexivity|simpl; auto]
    end.
Qed.

(** A flag that the [switch] lets through is one of the six. *)
Lemma regExpFlagCase_break_flag (mask mask' : Z) (char : num)
  (p p' : ParserState) :
  regExpFlagCase context mask char p = FlagBreak mask' p' ->
  exists c, char = Num c /\ In c regExpFlags
            /\ length p' = length p /\ tokenPos p' = tokenPos p
            /\ tokenRaw p' = tokenRaw p.
Proof.
  unfold regExpFlagCase, regExpFlags.
  repeat match goal with
         | |- context [js_eq char ?k] =>
           let H := fresh "Hk" in
           destruct (js_eq char k) eqn:H; [apply js_eq_true in H|]
         end;
    repeat match goal with
           | |- context [if ?c then _ else _] => destruct c
           end;
    intros H; inversion H; subst; eexists; (split; [reflexivity|]);
    simpl; auto 10.
Qed.

(** The flag loop, when it falls out of the loop: every unit it went over
    is one of the six flags, and the unit it stopped at is not an identifier
    part. *)
Lemma scanRegExpFlags_done :
  forall fuel mask p p',
    nextCodePoint p = charCodeAt (source p) (index p) ->
    scanRegExpFlags fuel context mask (nextCodePoint p) p
    = Some (LoopDone p') ->
    source p' = source p
    /\ length p' = length p
    /\ tokenPos p' = tokenPos p
    /\ tokenRaw p' = tokenRaw p
    /\ index p <= index p'
    /\ nextCodePoint p' = charCodeAt (source p) (index p')
    /\ isIdentifierPart (nextCodePoint p') = false
    /\ (forall k, index p <= k < index p' ->
          exists c, charCodeAt (source p) k = Num c /\ In c regExpFlags).
Proof.
  induction fuel as [|fuel IH]; intros mask p p' Hcached Hrun; [discriminate|].
  rewrite scanRegExpFlags_S in Hrun.
  destruct (isIdentifierPart (nextCodePoint p)) eqn:Hpart.
  - destruct (regExpFlagCase context mask (nextCodePoint p) p)
      as [mask' q|q] eqn:Hcase; [|discriminate].
    pose proof (regExpFlagCase_break _ _ _ _ _ _ Hcase) as (_ & Hs & Hi).
    pose proof (regExpFlagCase_break_flag _ _ _ _ _ Hcase)
      as (c & Hc & Hflag & Hl & Ht & Hr).
    apply IH in Hrun; [|reflexivity]. simpl in Hrun.
    rewrite Hs, Hi, Hl, Ht, Hr in Hrun.
    destruct Hrun as (Hs' & Hl' & Ht' & Hr' & Hi' & Hn' & Hp' & Hall).
    repeat split; try assumption; try lia.
    intros k Hk. destruct (Z.eq_dec k (index p)) as [->|Hne].
    + exists c. split; [congruence|assumption].
    + apply Hall. lia.
  - inversion Hrun; subst. repeat split; try assumption; lia.
Qed.

(** The flag loop, when it returns: the last diagnostic is the one of the
    refused flag. *)
Lemma scanRegExpFlags_error :
  forall fuel mask char p p',
    scanRegExpFlags fuel context mask char p = Some (LoopError p') ->
    source p' = source p
    /\ tokenPos p' = tokenPos p
    /\ index p <= index p'
    /\ exists pre d,
         diagnostics p' = diagnostics p ++ pre ++ [d]
         /\ In (diagKind d)
              [Errors.DuplicateRegExpFlag; Errors.UnexpectedTokenRegExpFlag].
Proof.
  induction fuel as [|fuel IH]; intros mask char p p' Hrun; [discriminate|].
  rewrite scanRegExpFlags_S in Hrun.
  destruct (isIdentifierPart char); [|discriminate].
  destruct (regExpFlagCase_appends context mask char p) as [extra Hextra].
  destruct (regExpFlagCase context mask char p) as [mask' q|q] eqn:Hcase.
  - pose proof (regExpFlagCase_break _ _ _ _ _ _ Hcase) as (_ & Hs & Hi).
    pose proof (regExpFlagCase_break_flag _ _ _ _ _ Hcase)
      as (_ & _ & _ & _ & Ht & _).
    apply IH in Hrun. simpl in Hrun. rewrite Hs, Hi, Ht, Hextra in Hrun.
    destruct Hrun as (Hs' & Ht' & Hi' & pre & d & Hd & Hkind).
    repeat split; try assumption; try lia.
    exists (extra ++ pre), d. split; [|assumption].
    rewrite Hd. now rewrite <- !app_assoc.
  - inversion Hrun; subst.
    apply regExpFlagCase_return in Hcase as (d & -> & Hkind).
    split; [reflexivity|]. split; [reflexivity|]. split; [simpl; lia|].
    exists [], (mkDiagnostic (diagKind d) (index p) (diagArgs d)).
    split; [reflexivity|assumption].
Qed.

(** The body loop in any case: it moves on, leaves the cache current and
    reports exactly when it gives up. *)
Lemma scanRegExpBody_moves :
  forall fuel preparseState p r,
    scanRegExpBody fuel context preparseState p = Some r ->
    source (exitState r) = source p
    /\ tokenPos (exitState r) = tokenPos p
    /\ index p < index (exitState r)
    /\ nextCodePoint (exitState r)
       = charCodeAt (source p) (index (exitState r))
    /\ diagnostics (exitState r)
       = diagnostics p
         ++ match r with
            | LoopDone _ => []
            | LoopError p1 =>
              [mkDiagnostic Errors.UnterminatedRegExp (index p1) []]
            end.
Proof.
  induction fuel as [|fuel IH]; intros ps p r Hrun; [discriminate|].
  simpl in Hrun.
  destruct (regExpBodyCase ps (nextCodePoint p)) as [|ps'|].
  - inversion Hrun; subst. simpl. rewrite app_nil_r.
    repeat split; try reflexivity; lia.
  - destruct (_ <=? _).
    + inversion Hrun; subst. simpl. repeat split; try reflexivity; lia.
    + apply IH in Hrun. simpl in Hrun.
      destruct Hrun as (Hs & Ht & Hi & Hn & Hd).
      repeat split; try assumption; lia.
  - inversion Hrun; subst. simpl. repeat split; try reflexivity; lia.
Qed.

(** [scanRegularExpression] does not touch [tokenPos]. *)
Lemma scanRegularExpression_tokenPos (p p' : ParserState) (token : Token.t) :
  scanRegularExpression p context = Some (token, p') ->
  tokenPos p' = tokenPos p.
Proof.
  unfold scanRegularExpression.
  destruct (scanRegExpBody _ _ _ p) as [r|] eqn:Hbody; [|discriminate].
  pose proof (scanRegExpBody_moves _ _ _ _ Hbody) as (Hs & Ht & _ & Hn & _).
  destruct r as [p1|p1]; simpl in Hs, Ht, Hn;
    [|intros H; inversion H; subst; assumption].
  rewrite <- Hs in Hn.
  destruct (scanRegExpFlags _ _ _ _ p1) as [[p2|p2]|] eqn:Hflags;
    [| |discriminate].
  - pose proof (scanRegExpFlags_done _ _ _ _ Hn Hflags) as (_ & _ & Ht2 & _).
    unfold validate.
    destruct (hostRegExp _ None); cbn [negb];
      [destruct (hostRegExp _ (Some _))|];
      destruct (hasFlag context Context_OptionsRaw);
      intros H; inversion H; subst; state_simpl; congruence.
  - pose proof (scanRegExpFlags_error _ _ _ _ _ Hflags) as (_ & Ht2 & _).
    intros H; inversion H; subst. congruence.
Qed.

End RegExpAnswer.

(** The answer of [scanRegularExpression] on any state. *)
Lemma scanRegularExpression_answer (E : Externals) (p : ParserState)
  (context : Context) :
  exists token p',
    scanRegularExpression p context = Some (token, p')
    /\ source p' = source p
    /\ index p < index p'
    /\ (token = Token.RegularExpression
        \/ (token = Token.Error
            /\ exists pre d,
                 diagnostics p' = diagnostics p ++ pre ++ [d]
                 /\ In (diagKind d)
                      [Errors.UnterminatedRegExp; Errors.DuplicateRegExpFlag;
                       Errors.UnexpectedTokenRegExpFlag])).
Proof.
  unfold scanRegularExpression.
  destruct (scanRegExpBody_total context (regExpFuel p) RegexState.Empty p)
    as [r Hbody]; [unfold regExpFuel; lia|].
  rewrite Hbody.
  pose proof (scanRegExpBody_moves context _ _ _ _ Hbody)
    as (Hs & _ & Hi & Hn & Hd).
  destruct r as [p1|p1]; simpl in Hs, Hi, Hn, Hd.
  - rewrite app_nil_r in Hd.
    destruct (scanRegExpFlags_total context RegexFlags.Empty
                (nextCodePoint p1) p1) as [r Hflags].
    rewrite Hflags. destruct r as [p2|p2].
    + rewrite <- Hs in Hn.
      pose proof (scanRegExpFlags_done context _ _ _ _ Hn Hflags)
        as (Hs2 & _ & _ & _ & Hi2 & _).
      unfold validate.
      destruct (hostRegExp _ None); cbn [negb];
        [destruct (hostRegExp _ (Some _))|];
        destruct (hasFlag context Context_OptionsRaw);
        eexists; eexists; (split; [reflexivity|]); state_simpl;
        (split; [congruence|]); (split; [lia|]); left; reflexivity.
    + pose proof (scanRegExpFlags_error context _ _ _ _ _ Hflags)
        as (Hs2 & _ & Hi2 & pre & d & Hd2 & Hkind).
      exists Token.Error, p2. split; [reflexivity|].
      split; [congruence|]. split; [lia|]. right. split; [reflexivity|].
      exists pre, d. split; [now rewrite Hd2, Hd|].
      simpl in *. tauto.
  - exists Token.Error, p1. split; [reflexivity|].
    split; [assumption|]. split; [assumption|]. right. split; [reflexivity|].
    exists [], (mkDiagnostic Errors.UnterminatedRegExp (index p1) []).
    split; [assumption|simpl; auto].
Qed.

(** X6.  [scanRegularExpression] answers on every state, with
    [Token.RegularExpression] or [Token.Error]; the source is untouched and
    the cursor has moved forward.  It never returns [Token.Error] silently:
    the last diagnostic is then [UnterminatedRegExp], [DuplicateRegExpFlag]
    or [UnexpectedTokenRegExpFlag]. *)
Theorem scanRegularExpression_answers (E : Externals) (p : ParserState)
  (context : Context) :
  exists token p',
    scanRegularExpression p context = Some (token, p')
    /\ source p' = source p
    /\ index p < index p'
    /\ (token = Token.RegularExpression
        \/ (token = Token.Error
            /\ exists pre d,
                 diagnostics p' = diagnostics p ++ pre ++ [d]
                 /\ In (diagKind d)
                      [Errors.UnterminatedRegExp; Errors.DuplicateRegExpFlag;
                       Errors.UnexpectedTokenRegExpFlag])).
Proof. apply scanRegularExpression_answer. Qed.

(** What an accepted regular expression is made of. *)
Lemma scanRegularExpression_success (E : Externals) (p p' : ParserState)
  (context : Context) :
  nextCodePoint p = charCodeAt (source p) (index p) ->
  scanRegularExpression p context = Some (Token.RegularExpression, p') ->
  exists bodyEnd,
    index p <= bodyEnd < index p'
    /\ index p' <= Z.max (Z.of_nat (List.length (source p))) (bodyEnd + 1)
    /\ charCodeAt (source p) bodyEnd = Num Chars.Slash
    /\ tokenRegExp p'
       = Some (slice (source p) (index p) bodyEnd,
               slice (source p) (bodyEnd + 1) (index p'))
    /\ (forall k, bodyEnd < k < index p' ->
          exists c, charCodeAt (source p) k = Num c /\ In c regExpFlags)
    /\ nextCodePoint p' = charCodeAt (source p) (index p')
    /\ isIdentifierPart (nextCodePoint p') = false.
Proof.
  intros Hcached Hrun. unfold scanRegularExpression in Hrun.
  destruct (scanRegExpBody _ _ _ p) as [[p1|p1]|] eqn:Hbody;
    [|discriminate|discriminate].
  apply (scanRegExpBody_done context _ _ _ _ Hcached) in Hbody
    as (Hs & _ & _ & _ & Hd & Hi & Hn & Hslash).
  rewrite <- Hs in Hn.
  destruct (scanRegExpFlags _ _ _ _ p1) as [[p2|p2]|] eqn:Hflags;
    [|discriminate|discriminate].
  apply (scanRegExpFlags_done context _ _ _ _ Hn) in Hflags
    as (Hs2 & _ & _ & _ & Hi2 & Hn2 & Hp2 & Hall).
  rewrite Hs in Hs2, Hn2, Hall.
  exists (index p1 - 1).
  replace (index p1 - 1 + 1) with (index p1) by lia.
  assert (Hend : index p2 <= Z.max (Z.of_nat (List.length (source p))) (index p1)).
  { destruct (Z.le_gt_cases (index p2) (index p1)) as [|Hgt]; [lia|].
    destruct (Hall (index p2 - 1) ltac:(lia)) as (c & Hc & _).
    apply charCodeAt_Num in Hc. lia. }
  unfold validate in Hrun.
  destruct (hostRegExp _ None); cbn [negb] in Hrun;
    [destruct (hostRegExp _ (Some _))|];
    destruct (hasFlag context Context_OptionsRaw);
    inversion Hrun; subst; state_simpl; rewrite ?Hs2;
    (split; [lia|]); (split; [exact Hend|]); (split; [exact Hslash|]);
    (split; [reflexivity|]); (split; [|split; assumption]);
    intros k Hk; apply Hall; lia.
Qed.

(** X7.  When [scanRegularExpression], entered with the first unit of the
    body cached, answers [Token.RegularExpression], a slash closes the body:
    the pattern is the source from the entry up to that slash, the flags are
    the source from after it up to the cursor, every flag is one of [g], [i],
    [m], [u], [y], [s], and the unit under the cursor is not an identifier
    part. *)
Theorem scanRegularExpression_delimits (E : Externals) (p p' : ParserState)
  (context : Context) :
  nextCodePoint p = charCodeAt (source p) (index p) ->
  scanRegularExpression p context = Some (Token.RegularExpression, p') ->
  exists bodyEnd,
    index p <= bodyEnd < index p'
    /\ index p' <= Z.max (Z.of_nat (List.length (source p))) (bodyEnd + 1)
    /\ charCodeAt (source p) bodyEnd = Num Chars.Slash
    /\ tokenRegExp p'
       = Some (slice (source p) (index p) bodyEnd,
               slice (source p) (bodyEnd + 1) (index p'))
    /\ (forall k, bodyEnd < k < index p' ->
          exists c, charCodeAt (source p) k = Num c /\ In c regExpFlags)
    /\ nextCodePoint p' = charCodeAt (source p) (index p')
    /\ isIdentifierPart (nextCodePoint p') = false.
Proof. apply scanRegularExpression_success. Qed.

(** The source [/a\/b/gi;] scanned from its body. *)
Lemma scanRegularExpression_delimits_witness :
  let p :=
    advance (create [0x2F; 0x61; 0x5C; 0x2F; 0x62; 0x2F; 0x67; 0x69; 0x3B]) in
  let p' :=
    match scanRegularExpression (E := Reference.externals) p 0 with
    | Some (_, q) => q
    | None => p
    end in
  exists bodyEnd,
    index p <= bodyEnd < index p'
    /\ index p' <= Z.max (Z.of_nat (List.length (source p))) (bodyEnd + 1)
    /\ charCodeAt (source p) bodyEnd = Num Chars.Slash
    /\ tokenRegExp p'
       = Some (slice (source p) (index p) bodyEnd,
               slice (source p) (bodyEnd + 1) (index p'))
    /\ (forall k, bodyEnd < k < index p' ->
          exists c, charCodeAt (source p) k = Num c /\ In c regExpFlags)
    /\ nextCodePoint p' = charCodeAt (source p) (index p')
    /\ isIdentifierPart (Externals := Reference.externals) (nextCodePoint p')
       = false.
Proof.
  cbv zeta.
  apply (scanRegularExpression_delimits Reference.externals _ _ 0);
    [reflexivity|vm_compute; reflexivity].
Defined.

(** X8.  When [scanRegularExpression], entered with the first unit of the
    body cached, answers [Token.Error], either the body ran into the end of
    the source or into a line terminator outside an escape, and
    [UnterminatedRegExp] is the one diagnostic added; or a slash closed the
    body and a unit after it was refused as a flag. *)
Theorem scanRegularExpression_error_reason (E : Externals)
  (p p' : ParserState) (context : Context) :
  nextCodePoint p = charCodeAt (source p) (index p) ->
  scanRegularExpression p context = Some (Token.Error, p') ->
  (diagnostics p'
   = diagnostics p ++ [mkDiagnostic Errors.UnterminatedRegExp (index p') []]
   /\ (Z.of_nat (List.length (source p)) <= index p'
       \/ Reference.isLineTerminator (charCodeAt (source p) (index p' - 1))
          = true))
  \/ (exists bodyEnd pre d,
         index p <= bodyEnd < index p'
         /\ charCodeAt (source p) bodyEnd = Num Chars.Slash
         /\ diagnostics p' = diagnostics p ++ pre ++ [d]
         /\ In (diagKind d)
              [Errors.DuplicateRegExpFlag; Errors.UnexpectedTokenRegExpFlag]).
Proof.
  intros Hcached Hrun. unfold scanRegularExpression in Hrun.
  destruct (scanRegExpBody _ _ _ p) as [[p1|p1]|] eqn:Hbody; [| |discriminate].
  - apply (scanRegExpBody_done context _ _ _ _ Hcached) in Hbody
      as (Hs & _ & _ & _ & Hd & Hi & Hn & Hslash).
    destruct (scanRegExpFlags _ _ _ _ p1) as [[p2|p2]|] eqn:Hflags;
      [|inversion Hrun; subst|discriminate].
    + destruct (validate _ _ _ _). discriminate.
    + apply scanRegExpFlags_error in Hflags
        as (_ & _ & Hi2 & pre & d & Hd2 & Hkind).
      right. exists (index p1 - 1), pre, d.
      split; [lia|]. split; [assumption|]. split; [congruence|assumption].
  - inversion Hrun; subst.
    apply (scanRegExpBody_error context _ _ _ _ Hcached) in Hbody
      as (_ & _ & Hd & Hwhy).
    left. split; assumption.
Qed.

(** The source [/ab], which ends inside the body. *)
Lemma scanRegularExpression_error_reason_witness :
  let p := advance (create [0x2F; 0x61; 0x62]) in
  let p' :=
    match scanRegularExpression (E := Reference.externals) p 0 with
    | Some (_, q) => q
    | None => p
    end in
  (diagnostics p'
   = diagnostics p ++ [mkDiagnostic Errors.UnterminatedRegExp (index p') []]
   /\ (Z.of_nat (List.length (source p)) <= index p'
       \/ Reference.isLineTerminator (charCodeAt (source p) (index p' - 1))
          = true))
  \/ (exists bodyEnd pre d,
         index p <= bodyEnd < index p'
         /\ charCodeAt (source p) bodyEnd = Num Chars.Slash
         /\ diagnostics p' = diagnostics p ++ pre ++ [d]
         /\ In (diagKind d)
              [Errors.DuplicateRegExpFlag; Errors.UnexpectedTokenRegExpFlag]).
Proof.
  cbv zeta.
  apply (scanRegularExpression_error_reason Reference.externals _ _ 0);
    [reflexivity|vm_compute; reflexivity].
Defined.

(** What the flag loop has reported when it falls out of the loop: one
    [DuplicateRegExpFlag] for each repeated [g]. *)
Lemma scanRegExpFlags_done_reports (E : Externals) (context : Context) :
  forall fuel mask char p p',
    scanRegExpFlags fuel context mask char p = Some (LoopDone p') ->
    exists extra,
      diagnostics p' = diagnostics p ++ extra
      /\ Forall (fun d => diagKind d = Errors.DuplicateRegExpFlag
                          /\ diagArgs d = [[Chars.LowerG]]) extra.
Proof.
  induction fuel as [|fuel IH]; intros mask char p p' Hrun; [discriminate|].
  rewrite scanRegExpFlags_S in Hrun.
  destruct (isIdentifierPart char).
  - destruct (regExpFlagCase context mask char p) as [mask' q|q] eqn:Hcase;
      [|discriminate].
    apply IH in Hrun as (extra & Hd & Hall). simpl in Hd.
    assert (Hq : exists first,
               diagnostics q = diagnostics p ++ first
               /\ Forall (fun d => diagKind d = Errors.DuplicateRegExpFlag
                                   /\ diagArgs d = [[Chars.LowerG]]) first).
    { revert Hcase. unfold regExpFlagCase.
      repeat match goal with
             | |- context [if ?c then _ else _] => destruct c
             end;
        intros H; inversion H; subst;
        try (exists []; split; [now rewrite app_nil_r|constructor]).
      eexists. split; [reflexivity|]. repeat constructor. }
    destruct Hq as (first & Hfirst & Hall').
    exists (first ++ extra). split.
    + now rewrite Hd, Hfirst, <- app_assoc.
    + now apply Forall_app.
  - inversion Hrun; subst. exists []. split; [now rewrite app_nil_r|constructor].
Qed.

(** The value, the diagnostics and the raw slice of an accepted regular
    expression. *)
Lemma scanRegularExpression_value (E : Externals) (p p' : ParserState)
  (context : Context) :
  nextCodePoint p = charCodeAt (source p) (index p) ->
  scanRegularExpression p context = Some (Token.RegularExpression, p') ->
  exists pattern flags duplicates,
    tokenRegExp p' = Some (pattern, flags)
    /\ tokenValue p'
       = (if hostRegExp pattern None
          then if hostRegExp pattern (Some flags)
               then ValRegExp pattern flags else ValNull
          else ValToken Token.Error)
    /\ diagnostics p'
       = diagnostics p ++ duplicates
         ++ (if hostRegExp pattern None then []
             else [mkDiagnostic Errors.UnterminatedRegExp (index p') []])
    /\ Forall (fun d => diagKind d = Errors.DuplicateRegExpFlag
                        /\ diagArgs d = [[Chars.LowerG]]) duplicates
    /\ tokenRaw p'
       = (if hasFlag context Context_OptionsRaw
          then Some (slice (source p) (tokenPos p) (index p'))
          else tokenRaw p).
Proof.
  intros Hcached Hrun. unfold scanRegularExpression in Hrun.
  destruct (scanRegExpBody _ _ _ p) as [[p1|p1]|] eqn:Hbody;
    [|discriminate|discriminate].
  apply (scanRegExpBody_done context _ _ _ _ Hcached) in Hbody
    as (Hs & _ & Ht & Hr & Hd & Hi & Hn & Hslash).
  rewrite <- Hs in Hn.
  destruct (scanRegExpFlags _ _ _ _ p1) as [[p2|p2]|] eqn:Hflags;
    [|discriminate|discriminate].
  pose proof (scanRegExpFlags_done_reports E context _ _ _ _ _ Hflags)
    as (duplicates & Hd2 & Hall).
  apply (scanRegExpFlags_done context _ _ _ _ Hn) in Hflags
    as (Hs2 & _ & Ht2 & Hr2 & _).
  rewrite Hd in Hd2. rewrite Hs in Hs2. rewrite Ht in Ht2. rewrite Hr in Hr2.
  unfold validate in Hrun.
  destruct (hostRegExp (slice (source p2) (index p) (index p1 - 1)) None)
    eqn:Hhost; cbn [negb] in Hrun;
    [destruct (hostRegExp _ (Some _)) eqn:Hhost2|];
    destruct (hasFlag context Context_OptionsRaw);
    inversion Hrun; subst; state_simpl;
    eexists; eexists; exists duplicates;
    (split; [reflexivity|]); rewrite Hhost, ?Hhost2;
    (split; [reflexivity|]);
    (split; [rewrite Hd2, ?app_nil_r, <- ?app_assoc; reflexivity|]);
    (split; [exact Hall|]); congruence.
Qed.

(** X9.  Once a slash has closed the body and the flag loop has run to its
    end, [scanRegularExpression] returns [Token.RegularExpression] whatever
    the host engine says of the pattern.  A pattern that the host refuses is
    reported as [UnterminatedRegExp] and the token value is [Token.Error]; a
    pattern that compiles alone but not with its flags gives the value
    [null], silently; otherwise the value is the compiled expression.  The
    only other diagnostics are those of repeated [g] flags, and with
    [OptionsRaw] the raw slice runs from [tokenPos] to the cursor. *)
Theorem scanRegularExpression_validates (E : Externals)
  (p p1 p2 : ParserState) (context : Context) :
  nextCodePoint p = charCodeAt (source p) (index p) ->
  scanRegExpBody (regExpFuel p) context RegexState.Empty p
  = Some (LoopDone p1) ->
  scanRegExpFlags (regExpFuel p1) context RegexFlags.Empty
    (nextCodePoint p1) p1
  = Some (LoopDone p2) ->
  let pattern := slice (source p) (index p) (index p1 - 1) in
  let flags := slice (source p) (index p1) (index p2) in
  exists p' duplicates,
    scanRegularExpression p context = Some (Token.RegularExpression, p')
    /\ index p' = index p2
    /\ tokenRegExp p' = Some (pattern, flags)
    /\ tokenValue p'
       = (if hostRegExp pattern None
          then if hostRegExp pattern (Some flags)
               then ValRegExp pattern flags else ValNull
          else ValToken Token.Error)
    /\ diagnostics p'
       = diagnostics p ++ duplicates
         ++ (if hostRegExp pattern None then []
             else [mkDiagnostic Errors.UnterminatedRegExp (index p2) []])
    /\ Forall (fun d => diagKind d = Errors.DuplicateRegExpFlag
                        /\ diagArgs d = [[Chars.LowerG]]) duplicates
    /\ tokenRaw p'
       = (if hasFlag context Context_OptionsRaw
          then Some (slice (source p) (tokenPos p) (index p2))
          else tokenRaw p).
Proof.
  intros Hcached Hbody Hflags. cbv zeta.
  unfold scanRegularExpression. rewrite Hbody, Hflags.
  apply (scanRegExpBody_done context _ _ _ _ Hcached) in Hbody
    as (Hs & _ & Ht & Hr & Hd & Hi & Hn & Hslash).
  rewrite <- Hs in Hn.
  pose proof (scanRegExpFlags_done_reports E context _ _ _ _ _ Hflags)
    as (duplicates & Hd2 & Hall).
  apply (scanRegExpFlags_done context _ _ _ _ Hn) in Hflags
    as (Hs2 & _ & Ht2 & Hr2 & _).
  rewrite Hd in Hd2. rewrite Hs in Hs2. rewrite Ht in Ht2. rewrite Hr in Hr2.
  unfold validate. rewrite Hs2.
  destruct (hostRegExp (slice (source p) (index p) (index p1 - 1)) None)
    eqn:Hhost; cbn [negb];
    [destruct (hostRegExp _ (Some _)) eqn:Hhost2|];
    destruct (hasFlag context Context_OptionsRaw);
    eexists; exists duplicates;
    (split; [reflexivity|]); state_simpl;
    (split; [reflexivity|]); (split; [reflexivity|]);
    (split; [reflexivity|]);
    (split; [rewrite Hd2, ?app_nil_r, <- ?app_assoc; reflexivity|]);
    (split; [exact Hall|]); congruence.
Qed.

(** The source [/a/gg] with a host engine that refuses every pattern. *)
Lemma scanRegularExpression_validates_witness :
  let E : Externals :=
    {| Context_OptionsNext := 1; Context_OptionsRaw := 2; Context_Module := 4;
       Context_AllowRegExp := 8; Context_DisableWebCompat := 16;
       Escape_InvalidCodePoint := -1;
       unicodeLookup := Reference.unicodeTable;
       isIdentifierPart := Reference.identifierPart;
       scanIdentifierOrKeyword := fun q _ _ => Reference.scanIdentifier q;
       scanIdentifierSlowPath := fun q _ _ _ => Reference.scanIdentifier q;
       scanUnicodeEscapeIdStart := fun q _ => Reference.scanIdentifier q;
       scanStringLiteral := fun q _ _ => Reference.scanIdentifier q;
       scanTemplate := fun q _ => Reference.scanIdentifier q;
       scanNumber := fun q _ _ _ => Reference.scanDigits q;
       scanLeadingZero := fun q _ _ => Reference.scanDigits q;
       skipSingleLineComment := Reference.skipSingleLine;
       skipMultiLineComment := Reference.skipMultiLine;
       hostRegExp := fun _ _ => false |} in
  let p := advance (create [0x2F; 0x61; 0x2F; 0x67; 0x67]) in
  let p1 := advance (advance p) in
  let p2 :=
    advance
      (report (advance p1) 2 Errors.DuplicateRegExpFlag [[Chars.LowerG]]) in
  let pattern := slice (source p) (index p) (index p1 - 1) in
  let flags := slice (source p) (index p1) (index p2) in
  exists p' duplicates,
    scanRegularExpression (E := E) p 2 = Some (Token.RegularExpression, p')
    /\ index p' = index p2
    /\ tokenRegExp p' = Some (pattern, flags)
    /\ tokenValue p'
       = (if hostRegExp (Externals := E) pattern None
          then if hostRegExp (Externals := E) pattern (Some flags)
               then ValRegExp pattern flags else ValNull
          else ValToken Token.Error)
    /\ diagnostics p'
       = diagnostics p ++ duplicates
         ++ (if hostRegExp (Externals := E) pattern None then []
             else [mkDiagnostic Errors.UnterminatedRegExp (index p2) []])
    /\ Forall (fun d => diagKind d = Errors.DuplicateRegExpFlag
                        /\ diagArgs d = [[Chars.LowerG]]) duplicates
    /\ tokenRaw p'
       = (if hasFlag 2 (Context_OptionsRaw (Externals := E))
          then Some (slice (source p) (tokenPos p) (index p2))
          else tokenRaw p).
Proof.
  cbv zeta.
  match goal with
  | |- context [scanRegularExpression (E := ?E) ?p ?c] =>
    apply (scanRegularExpression_validates E p
             (advance (advance p))
             (advance
                (report (advance (advance (advance p))) c
                   Errors.DuplicateRegExpFlag [[Chars.LowerG]])) c)
  end; [reflexivity|vm_compute; reflexivity|vm_compute; reflexivity].
Defined.

(** ** [scan.ts]: punctuators *)

Lemma js_ne_false (a : num) (k : Z) : js_ne a k = false -> a = Num k.
Proof.
  unfold js_ne. intros H. apply negb_false_iff in H. now apply js_eq_true.
Qed.

Lemma small_unit_cases (c : Z) :
  0 <= c <= 126 -> In c (map Z.of_nat (seq 0 127)).
Proof.
  intros H. apply in_map_iff. exists (Z.to_nat c). split; [lia|].
  apply in_seq. lia.
Qed.

Lemma firstCharKind_nonneg (c : Z) (t : Token.t) :
  firstCharKind (Num c) = Some t -> 0 <= c.
Proof.
  unfold firstCharKind. destruct (Z.leb_spec 0 c); [auto|discriminate].
Qed.

(** Closing tactics for a turn of the loop that has returned a punctuator. *)
Ltac unit_facts :=
  repeat match goal with
         | H : js_eq _ _ = true |- _ => apply js_eq_true in H
         | H : js_ne _ _ = false |- _ => apply js_ne_false in H
         end.

Ltac unit_at :=
  match goal with
  | H : charCodeAt ?s ?i = Num ?x |- charCodeAt ?s ?j = Num ?x =>
    replace j with i by lia; exact H
  end.

Ltac reads_units :=
  let k := fresh "k" in
  let Hk := fresh "Hk" in
  intros k Hk; cbn in Hk;
  destruct k as [|[|[|[|k]]]]; try (exfalso; lia);
  cbn [nth punctuatorText]; unit_at.

Ltac in_place :=
  unfold scannedInPlace; state_simpl;
  cbn [punctuatorText Datatypes.length Z.of_nat Pos.of_succ_nat Pos.succ];
  repeat split; try reflexivity; try lia; try (f_equal; lia);
  match goal with
  | H : charCodeAt _ _ = Num _ |- _ =>
    let H' := fresh in pose proof (charCodeAt_Num _ _ _ H) as H'; lia
  end.

Ltac split_tests :=
  repeat match goal with
         | |- context [if ?c then _ else _] =>
           let H := fresh "Htest" in destruct c eqn:H
         end.

(** A turn of the loop on a unit of a punctuator family. *)
Lemma scanIteration_punctuator (E : Externals)
  (context : Context) (isStartOfLine lastIsCR : bool) (p : ParserState)
  (family : Token.t) :
  nextCodePoint p = charCodeAt (source p) (index p) ->
  js_le (nextCodePoint p) 0x7e = true ->
  firstCharKind (nextCodePoint p) = Some family ->
  In family punctuatorFamilies ->
  exists token p',
    scanIteration context isStartOfLine lastIsCR p = Some (Return token p')
    /\ punctuatorText token <> []
    /\ reads p (punctuatorText token)
    /\ scannedInPlace p (Z.of_nat (List.length (punctuatorText token))) p'.
Proof.
  intros Hcached Hle Hkind Hfamily.
  destruct (nextCodePoint p) as [|c] eqn:Hc; [discriminate|].
  symmetry in Hcached.
  pose proof (firstCharKind_nonneg c family Hkind) as Hnonneg.
  apply Z.leb_le in Hle.
  pose proof (small_unit_cases c ltac:(lia)) as Hcases.
  unfold scanIteration. cbv zeta. state_simpl. rewrite Hc.
  cbn [map seq Z.of_nat Pos.of_succ_nat Pos.succ] in Hcases.
  repeat (destruct Hcases as [<-|Hcases];
          [vm_compute in Hkind; inversion Hkind; subst family;
           first [ exfalso; clear - Hfamily; simpl in Hfamily;
                   intuition discriminate
                 | idtac ] | ]);
    [..|contradiction].
  all: eval_tests; cbv iota beta;
    unfold scanNegate, scanModulo, scanBitwiseAnd, scanMultiply, scanAdd,
      scanAssign, scanGreaterThan, scanQuestionMark, scanBitwiseXor,
      scanBitwiseOr;
    cbv zeta; state_simpl; split_tests; unit_facts;
    (eexists; eexists; split; [reflexivity|]);
    (split; [discriminate|]); (split; [reads_units|in_place]).
Qed.

(** X10.  On a unit of one of the punctuator families that the dispatcher
    scans with its own code (the ten one-unit punctuators and the families of
    [=], [!], [%], [*], [^], [+], [|], [>], [&] and [?]) a turn of the loop
    returns a punctuator whose text is what the source holds at the cursor,
    and it scans it on the spot: [index] and [column] move on by the length of
    the text, [tokenPos] is the old cursor, the cache is current, the cursor
    stays inside the source and nothing is reported. *)
Theorem punctuator_scanned_in_place (E : Externals)
  (context : Context) (isStartOfLine lastIsCR : bool) (p : ParserState)
  (family : Token.t) :
  nextCodePoint p = charCodeAt (source p) (index p) ->
  js_le (nextCodePoint p) 0x7e = true ->
  firstCharKind (nextCodePoint p) = Some family ->
  In family punctuatorFamilies ->
  exists token p',
    scanIteration context isStartOfLine lastIsCR p = Some (Return token p')
    /\ punctuatorText token <> []
    /\ reads p (punctuatorText token)
    /\ scannedInPlace p (Z.of_nat (List.length (punctuatorText token))) p'.
Proof. apply scanIteration_punctuator. Qed.

(** The source [>>>=] in the empty context. *)
Lemma punctuator_scanned_in_place_witness :
  exists token p',
    scanIteration (E := Reference.externals) 0 true false
      (create [0x3E; 0x3E; 0x3E; 0x3D])
    = Some (Return token p')
    /\ punctuatorText token <> []
    /\ reads (create [0x3E; 0x3E; 0x3E; 0x3D]) (punctuatorText token)
    /\ scannedInPlace (create [0x3E; 0x3E; 0x3E; 0x3D])
         (Z.of_nat (List.length (punctuatorText token))) p'.
Proof.
  apply (punctuator_scanned_in_place Reference.externals 0 true false
           (create [0x3E; 0x3E; 0x3E; 0x3D]) Token.GreaterThan);
    [reflexivity|reflexivity|reflexivity|simpl; auto 20].
Defined.

(** X11.  A period that no digit follows, a hyphen that does not open an
    HTML close comment and a slash that starts neither a comment nor a
    regular expression are scanned like the other punctuators: the turn of
    the loop returns [.], [...], [-], [--], [-=], [/] or [/=], the text of
    the token is what the source holds at the cursor, and the token is
    scanned on the spot. *)
Theorem guarded_punctuator_scanned_in_place (E : Externals)
  (context : Context) (isStartOfLine lastIsCR : bool) (p : ParserState)
  (family : Token.t) :
  nextCodePoint p = charCodeAt (source p) (index p) ->
  js_le (nextCodePoint p) 0x7e = true ->
  firstCharKind (nextCodePoint p) = Some family ->
  scansOnTheSpot context isStartOfLine p family = true ->
  exists token p',
    scanIteration context isStartOfLine lastIsCR p = Some (Return token p')
    /\ punctuatorText token <> []
    /\ reads p (punctuatorText token)
    /\ scannedInPlace p (Z.of_nat (List.length (punctuatorText token))) p'.
Proof.
  intros Hcached Hle Hkind Hguard.
  destruct (nextCodePoint p) as [|c] eqn:Hc; [discriminate|].
  symmetry in Hcached.
  pose proof (firstCharKind_nonneg c family Hkind) as Hnonneg.
  apply Z.leb_le in Hle.
  pose proof (small_unit_cases c ltac:(lia)) as Hcases.
  unfold scanIteration. cbv zeta. state_simpl. rewrite Hc.
  cbn [map seq Z.of_nat Pos.of_succ_nat Pos.succ] in Hcases.
  repeat (destruct Hcases as [<-|Hcases];
          [vm_compute in Hkind; inversion Hkind; subst family;
           first [ discriminate Hguard | idtac ] | ]);
    [..|contradiction].
  all: eval_tests; cbv iota beta;
    unfold scanPeriod, scanSubtract, scanDivide, scansOnTheSpot in *;
    cbv zeta in *; state_simpl;
    replace (index p + 1 + 1) with (index p + 2) in * by lia.
  all: split_tests.
  all: try (exfalso; cbn in Hguard; discriminate Hguard).
  all: repeat match goal with
              | H : _ && _ = true |- _ =>
                apply andb_true_iff in H; destruct H
              end;
    unit_facts;
    (eexists; eexists; split; [reflexivity|]);
    (split; [discriminate|]); (split; [reads_units|in_place]).
Qed.

(** The source [...] in the empty context. *)
Lemma guarded_punctuator_scanned_in_place_witness :
  exists token p',
    scanIteration (E := Reference.externals) 0 true false
      (create [0x2E; 0x2E; 0x2E])
    = Some (Return token p')
    /\ punctuatorText token <> []
    /\ reads (create [0x2E; 0x2E; 0x2E]) (punctuatorText token)
    /\ scannedInPlace (create [0x2E; 0x2E; 0x2E])
         (Z.of_nat (List.length (punctuatorText token))) p'.
Proof.
  apply (guarded_punctuator_scanned_in_place Reference.externals 0 true false
           (create [0x2E; 0x2E; 0x2E]) Token.Period); reflexivity.
Defined.

(** X12.  A less-than sign that does not open an HTML comment gives [<],
    [<=], [<<] or [<<=], spelled by the source at the cursor, with [index]
    moved on by the length of the text.  The first three are scanned on the
    spot; after [<<=] the column has moved on by two only and the cached unit
    is still the equals sign. *)
Theorem less_than_family (E : Externals)
  (context : Context) (isStartOfLine lastIsCR : bool) (p : ParserState) :
  nextCodePoint p = charCodeAt (source p) (index p) ->
  nextCodePoint p = Num Chars.LessThan ->
  js_eq (charCodeAt (source p) (index p + 1)) Chars.Exclamation
  && js_eq (charCodeAt (source p) (index p + 3)) Chars.Hyphen
  && js_eq (charCodeAt (source p) (index p + 2)) Chars.Hyphen = false ->
  exists token p',
    scanIteration context isStartOfLine lastIsCR p = Some (Return token p')
    /\ In token [Token.LessThan; Token.LessThanOrEqual; Token.ShiftLeft;
                 Token.ShiftLeftAssign]
    /\ reads p (punctuatorText token)
    /\ index p' = index p + Z.of_nat (List.length (punctuatorText token))
    /\ tokenPos p' = index p
    /\ source p' = source p
    /\ diagnostics p' = diagnostics p
    /\ (token <> Token.ShiftLeftAssign ->
        scannedInPlace p (Z.of_nat (List.length (punctuatorText token))) p')
    /\ (token = Token.ShiftLeftAssign ->
        column p' = column p + 2 /\ nextCodePoint p' = Num Chars.EqualSign).
Proof.
  intros Hcached Hc Hguard. symmetry in Hcached. rewrite Hc in Hcached.
  unfold scanIteration. cbv zeta. state_simpl. rewrite Hc.
  eval_tests; cbv iota beta.
  unfold scanLessThan. cbv zeta. state_simpl.
  replace (index p + 1 + 2) with (index p + 3) in * by lia.
  replace (index p + 1 + 1) with (index p + 2) in * by lia.
  split_tests.
  all: try (exfalso; rewrite Hguard in *; discriminate).
  all: unit_facts;
    (eexists; eexists; split; [reflexivity|]);
    (split; [simpl; auto|]); (split; [reads_units|]);
    state_simpl;
    (split; [cbn; lia|]); (split; [reflexivity|]); (split; [reflexivity|]);
    (split; [reflexivity|]);
    (split; [intros Hneq; try congruence; in_place
            |intros Heq; try discriminate Heq]).
  split; [lia|unit_at].
Qed.

(** The source [<<=x] in the empty context. *)
Lemma less_than_family_witness :
  exists token p',
    scanIteration (E := Reference.externals) 0 true false
      (create [0x3C; 0x3C; 0x3D; 0x78])
    = Some (Return token p')
    /\ In token [Token.LessThan; Token.LessThanOrEqual; Token.ShiftLeft;
                 Token.ShiftLeftAssign]
    /\ reads (create [0x3C; 0x3C; 0x3D; 0x78]) (punctuatorText token)
    /\ index p'
       = index (create [0x3C; 0x3C; 0x3D; 0x78])
         + Z.of_nat (List.length (punctuatorText token))
    /\ tokenPos p' = index (create [0x3C; 0x3C; 0x3D; 0x78])
    /\ source p' = source (create [0x3C; 0x3C; 0x3D; 0x78])
    /\ diagnostics p' = diagnostics (create [0x3C; 0x3C; 0x3D; 0x78])
    /\ (token <> Token.ShiftLeftAssign ->
        scannedInPlace (create [0x3C; 0x3C; 0x3D; 0x78])
          (Z.of_nat (List.length (punctuatorText token))) p')
    /\ (token = Token.ShiftLeftAssign ->
        column p' = column (create [0x3C; 0x3C; 0x3D; 0x78]) + 2
        /\ nextCodePoint p' = Num Chars.EqualSign).
Proof.
  apply (less_than_family Reference.externals 0 true false
           (create [0x3C; 0x3C; 0x3D; 0x78])); reflexivity.
Defined.

(** ** [scan.ts]: white space and line terminators *)

Lemma isTrivia_cases (c : Z) :
  isTrivia c = true ->
  In c [0x09; 0x0B; 0x0C; 0x20; 0x0A; 0x0D; 0x2028; 0x2029].
Proof.
  unfold isTrivia, isBlankUnit, isLineBreakUnit.
  rewrite !orb_true_iff, !Z.eqb_eq. simpl. intuition.
Qed.

(** A turn of the loop on a unit of white space or a line terminator. *)
Lemma scanIteration_trivia (E : Externals) (context : Context)
  (isStartOfLine : bool) (p : ParserState) (c : Z) :
  nextCodePoint p = Num c ->
  isTrivia c = true ->
  exists q,
    scanIteration context isStartOfLine false p = Some (Continue false q)
    /\ triviaSkipped p [c] q.
Proof.
  intros Hc Htrivia. apply isTrivia_cases in Htrivia.
  unfold scanIteration. cbv zeta. state_simpl. rewrite Hc.
  unfold triviaSkipped, lineBreaks, columnAfter.
  destruct Htrivia as [<-|[<-|[<-|[<-|[<-|[<-|[<-|[<-|[]]]]]]]]];
    eval_tests; cbv iota beta;
    unfold scanCarriageReturn, scanLineFeed, scanAfterSwitch;
    eval_tests; cbn [Z.leb Z.compare negb];
    (eexists; split; [reflexivity|]); state_simpl;
    cbn [filter existsb fold_left isLineBreakUnit Z.eqb Pos.eqb orb
         Datatypes.length Z.of_nat Pos.of_succ_nat];
    rewrite ?orb_false_r, ?orb_true_r;
    repeat split; try reflexivity; lia.
Qed.

Lemma lineBreaks_cons (c : Z) (l : list Z) :
  lineBreaks (c :: l) = (if isLineBreakUnit c then 1 else 0) + lineBreaks l.
Proof.
  unfold lineBreaks. cbn [filter].
  destruct (isLineBreakUnit c); cbn [List.length]; lia.
Qed.

(** The loop skips a run of white space and line terminators, one unit a
    turn, and goes on from the state after the run. *)
Lemma scanLoop_trivia (E : Externals) (context : Context)
  (isStartOfLine : bool) :
  forall l fuel p,
    nextCodePoint p = charCodeAt (source p) (index p) ->
    reads p l ->
    Forall (fun c => isTrivia c = true) l ->
    index p + Z.of_nat (List.length l) <= length p ->
    exists q,
      scanLoop (List.length l + fuel) context isStartOfLine false p
      = scanLoop fuel context isStartOfLine false q
      /\ triviaSkipped p l q.
Proof.
  induction l as [|c l IH]; intros fuel p Hcached Hreads Hall Hlen.
  - exists p. split; [reflexivity|].
    unfold triviaSkipped, lineBreaks, columnAfter. simpl.
    rewrite orb_false_r, Z.add_0_r. repeat split; try assumption; lia.
  - inversion Hall as [|c' l' Hc Hall']; subst.
    pose proof (reads_head _ _ _ Hreads) as Hhead. rewrite <- Hcached in Hhead.
    destruct (scanIteration_trivia E context isStartOfLine p c Hhead Hc)
      as (p1 & Hstep & Hs & Hl & Hd & Hsp & Hi & Hline & Hcol & Hplb & Hn).
    change (List.length (c :: l) + fuel)%nat
      with (S (List.length l + fuel)).
    rewrite scanLoop_S, Hstep.
    simpl List.length in Hlen, Hi.
    destruct (Z.ltb_spec (index p) (length p)); [|lia].
    destruct (IH fuel p1) as (q & Hrun & Hs' & Hl' & Hd' & Hsp' & Hi' & Hline'
                               & Hcol' & Hplb' & Hn').
    + now rewrite Hs.
    + apply (reads_tail p p1 c); [assumption|lia|assumption].
    + assumption.
    + lia.
    + exists q. split; [exact Hrun|].
      unfold triviaSkipped. rewrite lineBreaks_cons.
      rewrite lineBreaks_cons in Hline. change (lineBreaks []) with 0 in Hline.
      unfold columnAfter in *. cbn [fold_left existsb] in *.
      rewrite orb_false_r in Hplb.
      change (Z.of_nat 1) with 1 in Hi.
      repeat split; try congruence; try (cbn [List.length]; lia).
      rewrite Hplb', Hplb. now rewrite orb_assoc.
Qed.

(** X13.  From a state whose remaining source is a run of white space (tab,
    vertical tab, form feed, space) and line terminators (LF, CR, LS, PS),
    [nextToken] answers [EndOfSource] at the end of the source without a
    diagnostic: [line] has grown by the number of line terminators in the
    run, each of the four counting one; [column] counts the units after the
    last of them; [precedingLineBreak] tells whether there was one; and
    [startPos] is the cursor on entry. *)
Theorem nextToken_trivia_to_end (E : Externals) (context : Context)
  (p : ParserState) (l : list Z) :
  nextCodePoint p = charCodeAt (source p) (index p) ->
  reads p l ->
  Forall (fun c => isTrivia c = true) l ->
  index p + Z.of_nat (List.length l) = length p ->
  exists p',
    nextToken (S (List.length l)) p context = Some (Token.EndOfSource, p')
    /\ index p' = length p
    /\ line p' = line p + lineBreaks l
    /\ column p' = columnAfter (column p) l
    /\ precedingLineBreak p' = existsb isLineBreakUnit l
    /\ startPos p' = index p
    /\ token p' = Token.EndOfSource
    /\ diagnostics p' = diagnostics p
    /\ source p' = source p.
Proof.
  intros Hcached Hreads Hall Hlen.
  unfold nextToken, scanSingleToken. cbv zeta.
  set (p0 := set_startPos (index (set_precedingLineBreak false p))
               (set_precedingLineBreak false p)).
  destruct (scanLoop_trivia E context (index p0 =? 0) l 1 p0)
    as (q & Hrun & Hs & Hl & Hd & Hsp & Hi & Hline & Hcol & Hplb & Hn);
    [exact Hcached|exact Hreads|exact Hall|simpl; lia|].
  replace (S (List.length l)) with (List.length l + 1)%nat by lia.
  rewrite Hrun, scanLoop_S. simpl in Hs, Hl, Hd, Hsp, Hi, Hline, Hcol, Hplb.
  destruct (Z.ltb_spec (index q) (length q)); [lia|].
  eexists. split; [reflexivity|]. state_simpl.
  repeat split; try assumption; lia.
Qed.

(** The source of a space, a line feed, a tab and a carriage return. *)
Lemma nextToken_trivia_to_end_witness :
  exists p',
    nextToken (E := Reference.externals) (S (List.length [0x20; 0x0A; 0x09; 0x0D]))
      (create [0x20; 0x0A; 0x09; 0x0D]) 0
    = Some (Token.EndOfSource, p')
    /\ index p' = length (create [0x20; 0x0A; 0x09; 0x0D])
    /\ line p' = line (create [0x20; 0x0A; 0x09; 0x0D])
                 + lineBreaks [0x20; 0x0A; 0x09; 0x0D]
    /\ column p'
       = columnAfter (column (create [0x20; 0x0A; 0x09; 0x0D]))
           [0x20; 0x0A; 0x09; 0x0D]
    /\ precedingLineBreak p' = existsb isLineBreakUnit [0x20; 0x0A; 0x09; 0x0D]
    /\ startPos p' = index (create [0x20; 0x0A; 0x09; 0x0D])
    /\ token p' = Token.EndOfSource
    /\ diagnostics p' = diagnostics (create [0x20; 0x0A; 0x09; 0x0D])
    /\ source p' = source (create [0x20; 0x0A; 0x09; 0x0D]).
Proof.
  apply (nextToken_trivia_to_end Reference.externals 0
           (create [0x20; 0x0A; 0x09; 0x0D]) [0x20; 0x0A; 0x09; 0x0D]).
  - reflexivity.
  - intros [|[|[|[|k]]]] Hk; try reflexivity. simpl in Hk. lia.
  - repeat (apply Forall_cons; [reflexivity|]). apply Forall_nil.
  - reflexivity.
Defined.

(** X14.  White space and line terminators before a punctuator are skipped
    and accounted for: when the run [l] at the cursor is followed by a unit
    of a punctuator family, [nextToken] returns a punctuator that the source
    spells right after the run; [tokenPos] is the end of the run and
    [startPos] the cursor on entry, [line] has grown by the line terminators
    of the run, [column] follows, [precedingLineBreak] tells whether the run
    held a line terminator, and nothing is reported. *)
Theorem nextToken_trivia_then_punctuator (E : Externals) (context : Context)
  (p : ParserState) (l : list Z) (family : Token.t) :
  nextCodePoint p = charCodeAt (source p) (index p) ->
  reads p l ->
  Forall (fun c => isTrivia c = true) l ->
  index p + Z.of_nat (List.length l) < length p ->
  js_le (charCodeAt (source p) (index p + Z.of_nat (List.length l))) 0x7e
  = true ->
  firstCharKind (charCodeAt (source p) (index p + Z.of_nat (List.length l)))
  = Some family ->
  In family punctuatorFamilies ->
  exists tok p',
    nextToken (S (List.length l)) p context = Some (tok, p')
    /\ punctuatorText tok <> []
    /\ (forall k, (k < List.length (punctuatorText tok))%nat ->
          charCodeAt (source p)
            (index p + Z.of_nat (List.length l) + Z.of_nat k)
          = Num (nth k (punctuatorText tok) 0))
    /\ tokenPos p' = index p + Z.of_nat (List.length l)
    /\ index p' = tokenPos p' + Z.of_nat (List.length (punctuatorText tok))
    /\ startPos p' = index p
    /\ line p' = line p + lineBreaks l
    /\ column p'
       = columnAfter (column p) l
         + Z.of_nat (List.length (punctuatorText tok))
    /\ precedingLineBreak p' = existsb isLineBreakUnit l
    /\ token p' = tok
    /\ diagnostics p' = diagnostics p.
Proof.
  intros Hcached Hreads Hall Hlen Hle Hkind Hfamily.
  unfold nextToken, scanSingleToken. cbv zeta.
  set (p0 := set_startPos (index (set_precedingLineBreak false p))
               (set_precedingLineBreak false p)).
  destruct (scanLoop_trivia E context (index p0 =? 0) l 1 p0)
    as (q & Hrun & Hs & Hl & Hd & Hsp & Hi & Hline & Hcol & Hplb & Hn);
    [exact Hcached|exact Hreads|exact Hall|simpl; lia|].
  replace (S (List.length l)) with (List.length l + 1)%nat by lia.
  rewrite Hrun, scanLoop_S. simpl in Hs, Hl, Hd, Hsp, Hi, Hline, Hcol, Hplb, Hn.
  destruct (Z.ltb_spec (index q) (length q)); [|lia].
  rewrite <- Hi, <- Hs in Hle, Hkind. rewrite <- Hs in Hn. rewrite <- Hn in Hle, Hkind.
  destruct (scanIteration_punctuator E context (index p0 =? 0) false q family
              Hn Hle Hkind Hfamily)
    as (tok & p' & Hstep & Htext & Hspell & Hs' & Hl' & Hd' & Hline' & Hplb'
        & Hsp' & Htp & Hi' & Hcol' & Hn' & Hend).
  rewrite Hstep. exists tok. eexists. split; [reflexivity|]. state_simpl.
  split; [assumption|]. split.
  { intros k Hk. rewrite <- Hi, <- Hs. now apply Hspell. }
  repeat split; try congruence; lia.
Qed.

(** A space and a line feed before [=>]. *)
Lemma nextToken_trivia_then_punctuator_witness :
  exists tok p',
    nextToken (E := Reference.externals) (S (List.length [0x20; 0x0A]))
      (create [0x20; 0x0A; 0x3D; 0x3E]) 0
    = Some (tok, p')
    /\ punctuatorText tok <> []
    /\ (forall k, (k < List.length (punctuatorText tok))%nat ->
          charCodeAt (source (create [0x20; 0x0A; 0x3D; 0x3E]))
            (index (create [0x20; 0x0A; 0x3D; 0x3E])
             + Z.of_nat (List.length [0x20; 0x0A]) + Z.of_nat k)
          = Num (nth k (punctuatorText tok) 0))
    /\ tokenPos p'
       = index (create [0x20; 0x0A; 0x3D; 0x3E])
         + Z.of_nat (List.length [0x20; 0x0A])
    /\ index p' = tokenPos p' + Z.of_nat (List.length (punctuatorText tok))
    /\ startPos p' = index (create [0x20; 0x0A; 0x3D; 0x3E])
    /\ line p'
       = line (create [0x20; 0x0A; 0x3D; 0x3E]) + lineBreaks [0x20; 0x0A]
    /\ column p'
       = columnAfter (column (create [0x20; 0x0A; 0x3D; 0x3E])) [0x20; 0x0A]
         + Z.of_nat (List.length (punctuatorText tok))
    /\ precedingLineBreak p' = existsb isLineBreakUnit [0x20; 0x0A]
    /\ token p' = tok
    /\ diagnostics p' = diagnostics (create [0x20; 0x0A; 0x3D; 0x3E]).
Proof.
  apply (nextToken_trivia_then_punctuator Reference.externals 0
           (create [0x20; 0x0A; 0x3D; 0x3E]) [0x20; 0x0A] Token.Assign).
  - reflexivity.
  - intros [|[|k]] Hk; try reflexivity. simpl in Hk. lia.
  - repeat (apply Forall_cons; [reflexivity|]). apply Forall_nil.
  - reflexivity.
  - reflexivity.
  - reflexivity.
  - simpl. auto 20.
Defined.

(** ** [scan.ts]: invalid characters and regular expressions *)

(** X15.  A unit that the dispatcher gives up on (above 0x7E, or the hash
    sign, and neither a line separator, a surrogate lead, an identifier
    start of the bitmap nor exotic white space) is reported as
    [InvalidCharacter] but not consumed: [nextToken] returns [Token.Error]
    with the cursor, the cached unit, the line and the column where they
    were, so the next call meets the same unit again. *)
Theorem invalid_character_is_not_consumed (E : Externals) (fuel : nat)
  (context : Context) (p : ParserState) :
  index p < length p ->
  js_le (nextCodePoint p) 0x7e = false \/ nextCodePoint p = Num 0x23 ->
  (js_xor (nextCodePoint p) Chars.LineSeparator <=? 1) = false ->
  js_and (nextCodePoint p) 0xfc00 <> 0xd800 ->
  unicodeBit 34816 (nextCodePoint p) = 0 ->
  isExoticECMAScriptWhitespace (nextCodePoint p) = false ->
  exists p',
    nextToken (S fuel) p context = Some (Token.Error, p')
    /\ diagnostics p'
       = diagnostics p ++ [mkDiagnostic Errors.InvalidCharacter (index p) []]
    /\ index p' = index p
    /\ nextCodePoint p' = nextCodePoint p
    /\ source p' = source p
    /\ length p' = length p
    /\ line p' = line p
    /\ column p' = column p.
Proof.
  intros Hlt Hkind Hls Hlead Hstart Hspace.
  assert (Hafter : forall q,
             scanAfterSwitch context false (nextCodePoint p) q
             = Some (Return Token.Error
                       (report q context Errors.InvalidCharacter []))).
  { intros q. unfold scanAfterSwitch. rewrite Hls, Hstart, Hspace.
    apply Z.eqb_neq in Hlead. rewrite Hlead. reflexivity. }
  unfold nextToken, scanSingleToken. cbv zeta. rewrite scanLoop_S. state_simpl.
  destruct (Z.ltb_spec (index p) (length p)); [|lia].
  unfold scanIteration. cbv zeta. state_simpl.
  destruct Hkind as [Hhigh|Hhash].
  - rewrite Hhigh, Hafter.
    eexists. split; [reflexivity|]. state_simpl. repeat split.
  - rewrite Hhash in *. eval_tests. cbv iota beta.
    rewrite Hafter.
    eexists. split; [reflexivity|]. state_simpl.
    repeat split; try reflexivity; assumption.
Qed.

(** The source of a hash sign under the reference bitmap. *)
Lemma invalid_character_is_not_consumed_witness :
  exists p',
    nextToken (E := Reference.externals) 1 (create [0x23]) 0
    = Some (Token.Error, p')
    /\ diagnostics p'
       = diagnostics (create [0x23])
         ++ [mkDiagnostic Errors.InvalidCharacter (index (create [0x23])) []]
    /\ index p' = index (create [0x23])
    /\ nextCodePoint p' = nextCodePoint (create [0x23])
    /\ source p' = source (create [0x23])
    /\ length p' = length (create [0x23])
    /\ line p' = line (create [0x23])
    /\ column p' = column (create [0x23]).
Proof.
  apply (invalid_character_is_not_consumed Reference.externals 0 0
           (create [0x23]));
    [reflexivity|right; reflexivity|reflexivity|vm_compute; discriminate
    |reflexivity|reflexivity].
Defined.

(** X16.  With [AllowRegExp], a slash that starts no comment is the opening
    of a regular expression: the turn of the loop returns
    [Token.RegularExpression] or [Token.Error], the token starts at the
    slash, and for a regular expression the pattern is the source between the
    opening slash and a closing slash further on, it is not empty, the flags
    follow, and with [OptionsRaw] the raw slice is the whole literal from the
    opening slash to the cursor; [Token.Error] comes with a diagnostic. *)
Theorem regular_expression_token (E : Externals) (context : Context)
  (isStartOfLine lastIsCR : bool) (p : ParserState) :
  nextCodePoint p = Num Chars.Slash ->
  hasFlag context Context_AllowRegExp = true ->
  js_eq (charCodeAt (source p) (index p + 1)) Chars.Slash
  || js_eq (charCodeAt (source p) (index p + 1)) Chars.Asterisk = false ->
  exists tok p',
    scanIteration context isStartOfLine lastIsCR p = Some (Return tok p')
    /\ tokenPos p' = index p
    /\ source p' = source p
    /\ index p + 1 < index p'
    /\ ((tok = Token.Error
         /\ exists pre d, diagnostics p' = diagnostics p ++ pre ++ [d])
        \/ (tok = Token.RegularExpression
            /\ exists bodyEnd,
                 index p + 1 < bodyEnd < index p'
                 /\ charCodeAt (source p) bodyEnd = Num Chars.Slash
                 /\ tokenRegExp p'
                    = Some (slice (source p) (index p + 1) bodyEnd,
                            slice (source p) (bodyEnd + 1) (index p'))
                 /\ (hasFlag context Context_OptionsRaw = true ->
                     tokenRaw p'
                     = Some (slice (source p) (index p) (index p'))))).
Proof.
  intros Hc Hallow Hcomment. apply orb_false_iff in Hcomment as [Hs Ha].
  unfold scanIteration. cbv zeta. state_simpl. rewrite Hc.
  eval_tests. cbv iota beta. unfold scanDivide. cbv zeta. state_simpl.
  rewrite Hs, Ha, Hallow.
  set (q := advance (set_tokenPos (index p) p)).
  assert (Hq : nextCodePoint q = charCodeAt (source q) (index q))
    by reflexivity.
  destruct (scanRegularExpression_answer E q context)
    as (tok & p' & Hrun & Hsrc & Hidx & Hkind).
  rewrite Hrun. exists tok, p'. unfold returning. cbn [fst snd].
  split; [reflexivity|].
  pose proof (scanRegularExpression_tokenPos context _ _ _ Hrun) as Htp.
  split; [exact Htp|]. split; [exact Hsrc|]. split; [simpl in Hidx; lia|].
  destruct Hkind as [->|[-> (pre & d & Hd & _)]].
  - right. split; [reflexivity|].
    destruct (scanRegularExpression_success E q p' context Hq Hrun)
      as (bodyEnd & Hb & _ & Hslash & Hre & _).
    destruct (scanRegularExpression_value E q p' context Hq Hrun)
      as (pattern & flags & duplicates & _ & _ & _ & _ & Hraw).
    exists bodyEnd. simpl in Hb, Hslash, Hre, Hraw.
    assert (Hne : bodyEnd <> index p + 1).
    { intros ->. rewrite Hslash in Hs. discriminate Hs. }
    split; [lia|]. split; [exact Hslash|]. split; [exact Hre|].
    intros Hopt. rewrite Hopt in Hraw. exact Hraw.
  - left. split; [reflexivity|]. exists pre, d. exact Hd.
Qed.

(** The source [/a\/b/gi;] with [AllowRegExp] and [OptionsRaw]. *)
Lemma regular_expression_token_witness :
  exists tok p',
    scanIteration (E := Reference.externals) 10 true false
      (create [0x2F; 0x61; 0x5C; 0x2F; 0x62; 0x2F; 0x67; 0x69; 0x3B])
    = Some (Return tok p')
    /\ tokenPos p' = 0
    /\ source p' = [0x2F; 0x61; 0x5C; 0x2F; 0x62; 0x2F; 0x67; 0x69; 0x3B]
    /\ 0 + 1 < index p'
    /\ ((tok = Token.Error
         /\ exists pre d, diagnostics p' = [] ++ pre ++ [d])
        \/ (tok = Token.RegularExpression
            /\ exists bodyEnd,
                 0 + 1 < bodyEnd < index p'
                 /\ charCodeAt
                      [0x2F; 0x61; 0x5C; 0x2F; 0x62; 0x2F; 0x67; 0x69; 0x3B]
                      bodyEnd = Num Chars.Slash
                 /\ tokenRegExp p'
                    = Some (slice
                              [0x2F; 0x61; 0x5C; 0x2F; 0x62; 0x2F; 0x67; 0x69;
                               0x3B] (0 + 1) bodyEnd,
                            slice
                              [0x2F; 0x61; 0x5C; 0x2F; 0x62; 0x2F; 0x67; 0x69;
                               0x3B] (bodyEnd + 1) (index p'))
                 /\ (hasFlag 10 (Context_OptionsRaw
                                   (Externals := Reference.externals)) = true ->
                     tokenRaw p'
                     = Some (slice
                               [0x2F; 0x61; 0x5C; 0x2F; 0x62; 0x2F; 0x67; 0x69;
                                0x3B] 0 (index p'))))).
Proof.
  apply (regular_expression_token Reference.externals 10 true false
           (create [0x2F; 0x61; 0x5C; 0x2F; 0x62; 0x2F; 0x67; 0x69; 0x3B]));
    reflexivity.
Defined.

(** ** [scan.ts]: the longest punctuator *)

Ltac spelled_facts Hspell :=
  let H0 := fresh "Hu" in
  let H1 := fresh "Hu" in
  let H2 := fresh "Hu" in
  let H3 := fresh "Hu" in
  try (assert (H0 := Hspell 0%nat ltac:(cbn; lia)));
  try (assert (H1 := Hspell 1%nat ltac:(cbn; lia)));
  try (assert (H2 := Hspell 2%nat ltac:(cbn; lia)));
  try (assert (H3 := Hspell 3%nat ltac:(cbn; lia)));
  cbn [nth punctuatorText Z.of_nat Pos.of_succ_nat Pos.succ] in *;
  rewrite ?Z.add_0_r in *.

Ltac refute_spelling :=
  exfalso;
  first
    [ congruence
    | match goal with
      | N : js_eq (charCodeAt ?s ?i) _ = _,
        H : charCodeAt ?s ?i = Num _ |- _ =>
        rewrite H in N; vm_compute in N; discriminate N
      | N : js_ne (charCodeAt ?s ?i) _ = _,
        H : charCodeAt ?s ?i = Num _ |- _ =>
        rewrite H in N; vm_compute in N; discriminate N
      | N : (_ <=? _) = true, H : charCodeAt _ _ = Num _ |- _ =>
        apply Z.leb_le in N; apply charCodeAt_Num in H; lia
      end ].

(** X17.  Longest match.  On a unit of a punctuator family other than the
    one of the question mark, in a state whose [length] is the length of the
    source, the punctuator that a turn of the loop returns is spelled by the
    source at the cursor and no punctuator that the source spells there is
    longer. *)
Theorem punctuator_is_longest_match (E : Externals)
  (context : Context) (isStartOfLine lastIsCR : bool) (p : ParserState)
  (family : Token.t) :
  nextCodePoint p = charCodeAt (source p) (index p) ->
  length p = Z.of_nat (List.length (source p)) ->
  js_le (nextCodePoint p) 0x7e = true ->
  firstCharKind (nextCodePoint p) = Some family ->
  In family punctuatorFamilies ->
  family <> Token.QuestionMark ->
  exists tok p',
    scanIteration context isStartOfLine lastIsCR p = Some (Return tok p')
    /\ reads p (punctuatorText tok)
    /\ forall other,
         punctuatorText other <> [] ->
         reads p (punctuatorText other) ->
         (List.length (punctuatorText other)
          <= List.length (punctuatorText tok))%nat.
Proof.
  intros Hcached Hwf Hle Hkind Hfamily Hnotq.
  destruct (nextCodePoint p) as [|c] eqn:Hc; [discriminate|].
  symmetry in Hcached.
  pose proof (firstCharKind_nonneg c family Hkind) as Hnonneg.
  apply Z.leb_le in Hle.
  pose proof (small_unit_cases c ltac:(lia)) as Hcases.
  unfold scanIteration. cbv zeta. state_simpl. rewrite Hc.
  cbn [map seq Z.of_nat Pos.of_succ_nat Pos.succ] in Hcases.
  repeat (destruct Hcases as [<-|Hcases];
          [vm_compute in Hkind; inversion Hkind; subst family;
           first [ exfalso; clear - Hfamily; simpl in Hfamily;
                   intuition discriminate
                 | idtac ] | ]);
    [..|contradiction].
  all: try congruence.
  all: eval_tests; cbv iota beta;
    unfold scanNegate, scanModulo, scanBitwiseAnd, scanMultiply, scanAdd,
      scanAssign, scanGreaterThan, scanBitwiseXor, scanBitwiseOr;
    cbv zeta; state_simpl;
    replace (index p + 1 + 1 + 1) with (index p + 3) in * by lia;
    replace (index p + 1 + 1) with (index p + 2) in * by lia;
    rewrite ?Hwf in *;
    split_tests;
    (eexists; eexists; split; [reflexivity|]);
    (split; [unit_facts; reads_units|]).
  all: intros other Htext Hspell;
    destruct other; try (exfalso; apply Htext; reflexivity);
    cbn [punctuatorText Datatypes.length];
    first [ lia | spelled_facts Hspell; refute_spelling ].
Qed.

(** The source [**=] followed by [=]. *)
Lemma punctuator_is_longest_match_witness :
  exists tok p',
    scanIteration (E := Reference.externals) 0 true false
      (create [0x2A; 0x2A; 0x3D; 0x3D])
    = Some (Return tok p')
    /\ reads (create [0x2A; 0x2A; 0x3D; 0x3D]) (punctuatorText tok)
    /\ forall other,
         punctuatorText other <> [] ->
         reads (create [0x2A; 0x2A; 0x3D; 0x3D]) (punctuatorText other) ->
         (List.length (punctuatorText other)
          <= List.length (punctuatorText tok))%nat.
Proof.
  apply (punctuator_is_longest_match Reference.externals 0 true false
           (create [0x2A; 0x2A; 0x3D; 0x3D]) Token.Multiply);
    [reflexivity|reflexivity|reflexivity|reflexivity|simpl; auto 20
    |discriminate].
Defined.

(** X18.  Longest match for the guarded families: under the condition of
    X11, the period, hyphen or slash punctuator that a turn of the loop
    returns is the longest punctuator that the source spells at the
    cursor. *)
Theorem guarded_punctuator_is_longest_match (E : Externals)
  (context : Context) (isStartOfLine lastIsCR : bool) (p : ParserState)
  (family : Token.t) :
  nextCodePoint p = charCodeAt (source p) (index p) ->
  length p = Z.of_nat (List.length (source p)) ->
  js_le (nextCodePoint p) 0x7e = true ->
  firstCharKind (nextCodePoint p) = Some family ->
  scansOnTheSpot context isStartOfLine p family = true ->
  exists tok p',
    scanIteration context isStartOfLine lastIsCR p = Some (Return tok p')
    /\ reads p (punctuatorText tok)
    /\ forall other,
         punctuatorText other <> [] ->
         reads p (punctuatorText other) ->
         (List.length (punctuatorText other)
          <= List.length (punctuatorText tok))%nat.
Proof.
  intros Hcached Hwf Hle Hkind Hguard.
  destruct (nextCodePoint p) as [|c] eqn:Hc; [discriminate|].
  symmetry in Hcached.
  pose proof (firstCharKind_nonneg c family Hkind) as Hnonneg.
  apply Z.leb_le in Hle.
  pose proof (small_unit_cases c ltac:(lia)) as Hcases.
  unfold scanIteration. cbv zeta. state_simpl. rewrite Hc.
  cbn [map seq Z.of_nat Pos.of_succ_nat Pos.succ] in Hcases.
  repeat (destruct Hcases as [<-|Hcases];
          [vm_compute in Hkind; inversion Hkind; subst family;
           first [ discriminate Hguard | idtac ] | ]);
    [..|contradiction].
  all: eval_tests; cbv iota beta;
    unfold scanPeriod, scanSubtract, scanDivide, scansOnTheSpot in *;
    cbv zeta in *; state_simpl;
    replace (index p + 1 + 1) with (index p + 2) in * by lia;
    rewrite ?Hwf in *.
  all: split_tests.
  all: try (exfalso; cbn in Hguard; discriminate Hguard).
  all: repeat match goal with
              | H : _ && _ = true |- _ =>
                apply andb_true_iff in H; destruct H
              end.
  all: (eexists; eexists; split; [reflexivity|]);
    (split; [unit_facts; reads_units|]).
  all: intros other Htext Hspell;
    destruct other; try (exfalso; apply Htext; reflexivity);
    cbn [punctuatorText Datatypes.length];
    first [ lia | spelled_facts Hspell ].
  all: repeat match goal with
              | H : _ && _ = false |- _ =>
                apply andb_false_iff in H; destruct H
              end.
  all: first
         [ refute_spelling
         | exfalso;
           match goal with
           | N : (_ <? _) = false, H : charCodeAt _ _ = Num _ |- _ =>
             apply Z.ltb_ge in N; apply charCodeAt_Num in H; lia
           end ].
Qed.

(** The source of two periods: the token is the single period. *)
Lemma guarded_punctuator_is_longest_match_witness :
  exists tok p',
    scanIteration (E := Reference.externals) 0 true false
      (create [0x2E; 0x2E])
    = Some (Return tok p')
    /\ reads (create [0x2E; 0x2E]) (punctuatorText tok)
    /\ forall other,
         punctuatorText other <> [] ->
         reads (create [0x2E; 0x2E]) (punctuatorText other) ->
         (List.length (punctuatorText other)
          <= List.length (punctuatorText tok))%nat.
Proof.
  apply (guarded_punctuator_is_longest_match Reference.externals 0 true false
           (create [0x2E; 0x2E]) Token.Period); reflexivity.
Defined.

(** ** [regexp.ts]: the mask of the flag [s] *)

(** X19.  The mask of [s] shares its bits with the masks of [m] and [y]:
    after the body, the flags [ms], [ys], [sm] and [sy], in which no flag is
    repeated, make [scanRegularExpression] report [DuplicateRegExpFlag] for
    the second of the two and return [Token.Error]. *)
Theorem dot_all_clashes_with_multiline_and_sticky (E : Externals)
  (context : Context) (p p1 : ParserState) (a b : Z) :
  In (a, b)
    [(Chars.LowerM, Chars.LowerS); (Chars.LowerY, Chars.LowerS);
     (Chars.LowerS, Chars.LowerM); (Chars.LowerS, Chars.LowerY)] ->
  isIdentifierPart (Num a) = true ->
  isIdentifierPart (Num b) = true ->
  scanRegExpBody (regExpFuel p) context RegexState.Empty p
  = Some (LoopDone p1) ->
  nextCodePoint p1 = Num a ->
  charCodeAt (source p1) (index p1 + 1) = Num b ->
  a <> b
  /\ scanRegularExpression p context
     = Some (Token.Error,
             report (advance p1) context Errors.DuplicateRegExpFlag [[b]]).
Proof.
  intros Hpair Ha Hb Hbody Hfirst Hsecond.
  assert (Hflags : In a regExpFlags /\ In b regExpFlags /\ a <> b
                   /\ Z.land (regExpFlagMask a) (regExpFlagMask b) <> 0
                   /\ b <> Chars.LowerG).
  { simpl in Hpair.
    destruct Hpair as [H|[H|[H|[H|[]]]]]; inversion H; subst;
      (split; [simpl; auto 10|]); (split; [simpl; auto 10|]);
      repeat split; vm_compute; discriminate. }
  destruct Hflags as (Hina & Hinb & Hneq & Hclash & Hnotg).
  split; [exact Hneq|].
  unfold scanRegularExpression. rewrite Hbody. unfold regExpFuel.
  rewrite scanRegExpFlags_S, Hfirst, Ha.
  rewrite (regExpFlagCase_fresh context RegexFlags.Empty a p1 Hina)
    by apply Z.land_0_l.
  rewrite scanRegExpFlags_S, advance_nextCodePoint, Hsecond, Hb.
  rewrite (regExpFlagCase_duplicate context _ b (advance p1) Hinb)
    by (rewrite Z.lor_0_l; exact Hclash).
  apply Z.eqb_neq in Hnotg. rewrite Hnotg. reflexivity.
Qed.

(** The source [/x/ms], scanned from its body. *)
Lemma dot_all_clashes_with_multiline_and_sticky_witness :
  Chars.LowerM <> Chars.LowerS
  /\ scanRegularExpression (E := Reference.externals)
       (advance (create [0x2F; 0x78; 0x2F; 0x6D; 0x73])) 0
     = Some (Token.Error,
             report
               (advance (advance (advance (advance
                  (create [0x2F; 0x78; 0x2F; 0x6D; 0x73])))))
               0 Errors.DuplicateRegExpFlag [[Chars.LowerS]]).
Proof.
  apply (dot_all_clashes_with_multiline_and_sticky Reference.externals 0
           (advance (create [0x2F; 0x78; 0x2F; 0x6D; 0x73]))
           (advance (advance (advance
              (create [0x2F; 0x78; 0x2F; 0x6D; 0x73]))))
           Chars.LowerM Chars.LowerS);
    [simpl; auto|reflexivity|reflexivity|vm_compute; reflexivity|reflexivity
    |reflexivity].
Defined.

(** X20.  A run of flags after the body is accepted when its flags are
    among [g], [i], [m], [u], [y], [s], pairwise distinct, [s] comes with
    neither [m] nor [y], and a unit that is not an identifier part (or the
    end of the source) follows: [scanRegularExpression] answers
    [Token.RegularExpression] with the cursor after the run, the pattern and
    the flags as written, and no diagnostic unless the host engine refuses
    the pattern. *)
Theorem compatible_flags_are_accepted (E : Externals) (context : Context)
  (p p1 : ParserState) (l : list Z) :
  nextCodePoint p = charCodeAt (source p) (index p) ->
  scanRegExpBody (regExpFuel p) context RegexState.Empty p = Some (LoopDone p1) ->
  reads p1 l ->
  Forall (fun z => In z regExpFlags /\ isIdentifierPart (Num z) = true) l ->
  NoDup l ->
  (forall a b, In a l -> In b l -> ~ flagsClash a b) ->
  isIdentifierPart
    (charCodeAt (source p) (index p1 + Z.of_nat (List.length l))) = false ->
  exists p',
    scanRegularExpression p context = Some (Token.RegularExpression, p')
    /\ index p' = index p1 + Z.of_nat (List.length l)
    /\ tokenRegExp p'
       = Some (slice (source p) (index p) (index p1 - 1),
               slice (source p) (index p1)
                 (index p1 + Z.of_nat (List.length l)))
    /\ (hostRegExp (slice (source p) (index p) (index p1 - 1)) None = true ->
        diagnostics p' = diagnostics p).
Proof.
  intros Hcached Hbody Hreads Hall Hnd Hcompat Hstop.
  unfold scanRegularExpression. rewrite Hbody.
  apply (scanRegExpBody_done context _ _ _ _ Hcached) in Hbody
    as (Hs & _ & _ & _ & Hd & Hi & Hn & _).
  rewrite <- Hs in Hn, Hstop. rewrite Hn.
  assert (Hfuel : (List.length l < regExpFuel p1)%nat).
  { unfold regExpFuel. destruct l as [|z l]; [simpl; lia|].
    pose proof (Hreads (List.length l) ltac:(simpl; lia)) as Hlast.
    apply charCodeAt_Num in Hlast. simpl List.length. lia. }
  destruct (scanRegExpFlags_accepts E context l (regExpFuel p1)
              RegexFlags.Empty p1 Hreads Hall Hnd Hcompat
              ltac:(intros c _; apply Z.land_0_l) Hstop Hfuel)
    as (q & -> & Hqi & Hqd & Hqs).
  unfold validate. rewrite Hqs, Hs, Hqi.
  destruct (hostRegExp _ None); cbn [negb];
    [destruct (hostRegExp _ (Some _))|];
    destruct (hasFlag context Context_OptionsRaw);
    eexists; (split; [reflexivity|]); state_simpl;
    (split; [exact Hqi|]); (split; [reflexivity|]);
    intros Hhost; congruence.
Qed.

(** The flags [gimuy] after the body of [/x/], at the end of the source. *)
Lemma compatible_flags_are_accepted_witness :
  let p :=
    advance (create [0x2F; 0x78; 0x2F; 0x67; 0x69; 0x6D; 0x75; 0x79]) in
  let p1 := advance (advance p) in
  let l := [0x67; 0x69; 0x6D; 0x75; 0x79] in
  exists p',
    scanRegularExpression (E := Reference.externals) p 0
    = Some (Token.RegularExpression, p')
    /\ index p' = index p1 + Z.of_nat (List.length l)
    /\ tokenRegExp p'
       = Some (slice (source p) (index p) (index p1 - 1),
               slice (source p) (index p1)
                 (index p1 + Z.of_nat (List.length l)))
    /\ (hostRegExp (Externals := Reference.externals)
          (slice (source p) (index p) (index p1 - 1)) None = true ->
        diagnostics p' = diagnostics p).
Proof.
  cbv zeta.
  apply (compatible_flags_are_accepted Reference.externals 0 _ _
           [0x67; 0x69; 0x6D; 0x75; 0x79]).
  - reflexivity.
  - vm_compute; reflexivity.
  - intros [|[|[|[|[|k]]]]] Hk; try reflexivity. simpl in Hk. lia.
  - repeat (apply Forall_cons; [split; [simpl; auto 10|reflexivity]|]).
    apply Forall_nil.
  - repeat (constructor; [simpl; intuition discriminate|]). constructor.
  - intros a b Ha Hb [[-> _]|[-> _]]; simpl in Ha, Hb;
      intuition discriminate.
  - reflexivity.
Defined.
